(** * The evolutionary chain optimiser of FEDOT ([GPChainOptimiser])

    A shallow embedding of
    [fedot/core/composer/optimisers/gp_optimiser.py] and the properties of
    its generational loop.

    Python integers are [Z], list lengths and list indices are [nat],
    exceptions are values of [exn].  A fitness is a float in the source; the
    optimiser only ever compares fitness values ([<], [<=], equality), so
    the model is parametric in their comparison ([FitnessOrder]) and the
    properties ask it to be a total order ([FitnessTotalOrder]), which
    leaves NaN out.  An individual whose evaluation failed carries no
    fitness ([None]); comparing it raises [TypeError] as in Python 3.
    The order [np.argsort] gives equal keys is not fixed by the source, so
    the sorting routine behind it is a parameter too ([ArgSort]).  The
    offspring rate is a float whose product with the population size is
    rounded up: that arithmetic is carried out on the binary64 values
    ([binary64]).

    The methods of the optimiser are computations over its attributes and
    the outside world (random generator and clock), which may raise.  The
    strategy modules, the evaluation, the archive and the timer are
    parameters ([Operators]).  The model comes first, then a small
    instance to run it on, the notions the statements use, and the
    proofs. *)

From Stdlib Require Import String List ZArith QArith Qround Qabs Qpower.
From Stdlib Require Import Bool Lia Lqa Permutation Sorted.
Import ListNotations.

Set Implicit Arguments.

(* ================================================================== *)
(** * Exceptions and fallible results *)

Inductive exn : Type :=
| AttributeError
| IndexError
| ValueError
| TypeError.

Inductive res (A : Type) : Type :=
| Ok (a : A)
| Raise (e : exn).

Arguments Ok {A} a.
Arguments Raise {A} e.

Definition res_bind {A B : Type} (r : res A) (k : A -> res B) : res B :=
  match r with
  | Ok a => k a
  | Raise e => Raise e
  end.

Declare Scope res_scope.
Delimit Scope res_scope with res.
Notation "'let?' x ':=' c 'in' k" := (res_bind c (fun x => k))
  (at level 10, x name, c at level 100, k at level 200) : res_scope.

(** [l[i]] of Python for a non-negative index. *)
Definition py_index {A : Type} (l : list A) (i : nat) : res A :=
  match nth_error l i with
  | Some a => Ok a
  | None => Raise IndexError
  end.

(** [min(l, key=key)]: the first element whose key is not above any
    other's; an empty sequence raises [ValueError].  The running minimum is
    replaced only when the new key is strictly smaller. *)
Fixpoint py_min_from {A K : Type} (lt : K -> K -> res bool) (key : A -> K)
    (best : A) (rest : list A) : res A :=
  match rest with
  | [] => Ok best
  | x :: rest' =>
      match lt (key x) (key best) with
      | Ok true => py_min_from lt key x rest'
      | Ok false => py_min_from lt key best rest'
      | Raise e => Raise e
      end
  end.

Definition py_min {A K : Type} (lt : K -> K -> res bool) (key : A -> K)
    (l : list A) : res A :=
  match l with
  | [] => Raise ValueError
  | x :: rest => py_min_from lt key x rest
  end.

(* ================================================================== *)
(** * Computations with state and exceptions

    A computation reads and updates a state [St] and ends with a value,
    with an exception, or out of fuel (the bound put on a [while] loop). *)

Inductive outcome (St A : Type) : Type :=
| Done (a : A) (m : St)
| Fail (e : exn) (m : St)
| OutOfFuel.

Arguments Done {St A} a m.
Arguments Fail {St A} e m.
Arguments OutOfFuel {St A}.

Definition M (St A : Type) : Type := St -> outcome St A.

Definition ret {St A : Type} (a : A) : M St A := fun m => Done a m.

Definition bind {St A B : Type} (c : M St A) (k : A -> M St B) : M St B :=
  fun m =>
    match c m with
    | Done a m' => k a m'
    | Fail e m' => Fail e m'
    | OutOfFuel => OutOfFuel
    end.

Definition raise {St A : Type} (e : exn) : M St A := fun m => Fail e m.

Definition out_of_fuel {St A : Type} : M St A := fun _ => OutOfFuel.

Definition lift {St A : Type} (r : res A) : M St A :=
  fun m =>
    match r with
    | Ok a => Done a m
    | Raise e => Fail e m
    end.

Declare Scope opt_scope.
Delimit Scope opt_scope with opt.
Notation "x <- c ;; k" := (bind c (fun x => k))
  (at level 61, c at next level, right associativity) : opt_scope.
Notation "c ;; k" := (bind c (fun _ => k))
  (at level 61, right associativity) : opt_scope.

Fixpoint mapM {St A B : Type} (f : A -> M St B) (l : list A)
    : M St (list B) :=
  match l with
  | [] => ret []
  | x :: l' => (y <- f x ;; ys <- mapM f l' ;; ret (y :: ys))%opt
  end.

(* ================================================================== *)
(** * Floats

    A Python float is a binary64 number, held here by its exact value, a
    rational.  [binary64 x] is the float nearest to [x], a tie going to
    the even mantissa: the mantissa has 53 bits and the exponent of its
    last bit is at least -1074, so that values too small for 53 bits are
    rounded as subnormal numbers, down to zero.  The exponent is not
    bounded above: beyond the largest float, about 1.8e308, Python
    raises [OverflowError], which the model leaves out, as it does
    infinities and NaN. *)

(** The nearest integer, a tie going to the even one. *)
Definition round_half_even (q : Q) : Z :=
  let f := Qfloor q in
  match Qcompare (q - inject_Z f) (1 # 2) with
  | Lt => f
  | Eq => if Z.even f then f else (f + 1)%Z
  | Gt => (f + 1)%Z
  end.

(** [floor (log2 x)] for [0 < x]. *)
Definition binade (x : Q) : Z :=
  let k := (Z.log2 (Qnum x) - Z.log2 (Zpos (Qden x)))%Z in
  if Qle_bool ((2 # 1) ^ k) x then k else (k - 1)%Z.

Definition binary64 (x : Q) : Q :=
  if Qeq_bool x 0 then 0
  else
    let a := Qabs x in
    let e := Z.max (binade a - 52) (-1074) in
    let m := round_half_even (a / (2 # 1) ^ e) in
    (if Qle_bool 0 x then inject_Z m else - inject_Z m) * (2 # 1) ^ e.

(* ================================================================== *)
(** * Fitness values *)

(** The comparison of two fitness values, [a <= b]. *)
Class FitnessOrder (F : Type) : Type := {
  fit_leb : F -> F -> bool
}.

Definition fit_ltb {F} `{FitnessOrder F} (a b : F) : bool :=
  negb (fit_leb b a).

Definition fit_eqb {F} `{FitnessOrder F} (a b : F) : bool :=
  fit_leb a b && fit_leb b a.

#[export] Instance Z_FitnessOrder : FitnessOrder Z :=
  {| fit_leb := Z.leb |}.

(** The sorting routine behind [np.argsort]: from the keys to their
    indices in sorted order.  The default kind of [np.argsort] is not
    stable: the place of an index among those of equal keys is the
    routine's choice, which differs between builds of numpy and lengths
    of the array.  The routine is therefore a parameter of the model. *)
Class ArgSort (F : Type) : Type := {
  argsort_order : list F -> list nat
}.

(* ================================================================== *)
(** * Chains (individuals) *)

Definition ModelType := string.

Record Node : Type := mkNode {
  model_type : ModelType
}.

Section Individuals.

Context {F : Type} `{FO : FitnessOrder F} {AS : ArgSort F}.

(** The two attributes of a chain the optimiser reads: its nodes and the
    fitness assigned by evaluation ([None] until then or on failure). *)
Record Chain : Type := mkChain {
  nodes : list Node;
  fitness : option F
}.

(** [a < b] and [a <= b] on fitness attributes: [None] is not orderable. *)
Definition fitness_lt (a b : option F) : res bool :=
  match a, b with
  | Some x, Some y => Ok (fit_ltb x y)
  | _, _ => Raise TypeError
  end.

Definition fitness_le (a b : option F) : res bool :=
  match a, b with
  | Some x, Some y => Ok (fit_leb x y)
  | _, _ => Raise TypeError
  end.

(** Modelled from the spec: [is_equal_fitness] of [gp_operators], which is
    not among the sources; the spec fixes it as exact equality of the two
    fitness values, not equality up to a tolerance. *)
Definition is_equal_fitness (a b : option F) : bool :=
  match a, b with
  | Some x, Some y => fit_eqb x y
  | None, None => true
  | _, _ => false
  end.

(** ** Sorting by fitness: [sorted] and [np.argsort]

    [stable_sort] orders items paired with their keys, ties in their
    original order (an insertion sort from the right): this is [sorted],
    which is stable. *)
Fixpoint insert_sorted {A : Type} (x : A * F) (l : list (A * F))
    : list (A * F) :=
  match l with
  | [] => [x]
  | y :: l' =>
      if fit_leb (snd x) (snd y) then x :: y :: l'
      else y :: insert_sorted x l'
  end.

Fixpoint stable_sort {A : Type} (l : list (A * F)) : list (A * F) :=
  match l with
  | [] => []
  | x :: l' => insert_sorted x (stable_sort l')
  end.

Fixpoint all_some (l : list (option F)) : option (list F) :=
  match l with
  | [] => Some []
  | Some x :: l' =>
      match all_some l' with
      | Some xs => Some (x :: xs)
      | None => None
      end
  | None :: _ => None
  end.

(** [np.argsort(keys)]: an array of a single element needs no
    comparison; otherwise a [None] among the keys makes the comparison
    fail, and the indices come in the order of the sorting routine. *)
Definition argsort (keys : list (option F)) : res (list nat) :=
  match keys with
  | [] => Ok []
  | [_] => Ok [0%nat]
  | _ =>
      match all_some keys with
      | Some fs => Ok (argsort_order fs)
      | None => Raise TypeError
      end
  end.

(** [sorted(l, key=lambda ind: ind.fitness)] *)
Definition sorted_by_fitness (l : list Chain) : res (list Chain) :=
  match l with
  | [] => Ok []
  | [x] => Ok [x]
  | _ =>
      match all_some (map fitness l) with
      | Some fs => Ok (map fst (stable_sort (combine l fs)))
      | None => Raise TypeError
      end
  end.

(** ** Dictionaries keyed by an index, in insertion order *)

Definition dict := list (nat * nat).

Fixpoint dict_set (d : dict) (k v : nat) : dict :=
  match d with
  | [] => [(k, v)]
  | (k', v') :: d' =>
      if Nat.eqb k' k then (k', v) :: d' else (k', v') :: dict_set d' k v
  end.

Fixpoint dict_get (d : dict) (k : nat) : option nat :=
  match d with
  | [] => None
  | (k', v') :: d' => if Nat.eqb k' k then Some v' else dict_get d' k
  end.

Definition dict_keys (d : dict) : list nat := map fst d.

(** [None < x] does not arise for keys of the dictionary itself, but
    [dict.get] is typed as optional. *)
Definition opt_nat_lt (a b : option nat) : res bool :=
  match a, b with
  | Some x, Some y => Ok (Nat.ltb x y)
  | _, _ => Raise TypeError
  end.

(** ** [GPChainOptimiser.simpler_equivalents_of_best_ind] *)

Fixpoint simpler_equivalents_loop (individuals : list Chain) (best_ind : Chain)
    (sort_inds : list nat) (simpler_equivalents : dict) : res dict :=
  match sort_inds with
  | [] => Ok simpler_equivalents
  | i :: sort_inds' =>
      (let? ind_i := py_index individuals i in
       let is_fitness_equals_to_best :=
         is_equal_fitness (fitness best_ind) (fitness ind_i) in
       let has_less_num_of_models_than_best :=
         (length (nodes ind_i) <? length (nodes best_ind))%nat in
       if is_fitness_equals_to_best && has_less_num_of_models_than_best
       then simpler_equivalents_loop individuals best_ind sort_inds'
              (dict_set simpler_equivalents i (length (nodes ind_i)))
       else simpler_equivalents_loop individuals best_ind sort_inds'
              simpler_equivalents)%res
  end.

Definition simpler_equivalents_of_best_ind (population : list Chain)
    (best_ind : Chain) (inds : option (list Chain)) : res dict :=
  let individuals :=
    match inds with None => population | Some l => l end in
  (let? sorted := argsort (map fitness individuals) in
   let sort_inds := tl sorted in
   simpler_equivalents_loop individuals best_ind sort_inds [])%res.

(** ** [GPChainOptimiser.get_best_individual]

    [population] is [self.population]. *)
Definition get_best_individual (population : list Chain)
    (individuals : list Chain) (equivalents_from_current_pop : bool)
    : res Chain :=
  (let? best_ind := py_min fitness_lt fitness individuals in
   let? equivalents :=
     (if equivalents_from_current_pop
      then simpler_equivalents_of_best_ind population best_ind None
      else simpler_equivalents_of_best_ind population best_ind
             (Some individuals)) in
   match equivalents with
   | [] => Ok best_ind
   | _ :: _ =>
       let? best_candidate_id :=
         py_min opt_nat_lt (dict_get equivalents) (dict_keys equivalents) in
       py_index individuals best_candidate_id
   end)%res.

End Individuals.

(** Two sorting routines.  [stable_order] keeps the indices of equal keys
    in increasing order (what an insertion sort gives);
    [ties_reversed_order] puts the later of two equal keys first.  Both
    return the indices in an order that sorts the keys. *)
Definition stable_order {F} `{FitnessOrder F} (fs : list F) : list nat :=
  map fst (stable_sort (combine (seq 0 (length fs)) fs)).

Definition ties_reversed_order {F} `{FitnessOrder F} (fs : list F)
    : list nat :=
  map fst (stable_sort (rev (combine (seq 0 (length fs)) fs))).

#[export] Instance Z_ArgSort : ArgSort Z :=
  {| argsort_order := stable_order |}.

Definition ties_reversed : ArgSort Z :=
  {| argsort_order := ties_reversed_order |}.


(* ================================================================== *)
(** * Configuration of the optimiser *)

(** Modelled from the spec: the enumerations of strategy types live in the
    strategy modules, which are not among the sources.  The optimiser
    names one member of each (its defaults) and the two genetic schemes;
    any further member is kept by name. *)
Inductive SelectionTypesEnum : Type :=
| selection_tournament
| selection_other (name : string).

Inductive CrossoverTypesEnum : Type :=
| crossover_subtree
| crossover_other (name : string).

Inductive MutationTypesEnum : Type :=
| mutation_simple
| mutation_other (name : string).

Inductive RegularizationTypesEnum : Type :=
| regularization_none
| regularization_other (name : string).

Inductive GeneticSchemeTypesEnum : Type :=
| generational
| steady_state.

Definition GeneticScheme_eqb (a b : GeneticSchemeTypesEnum) : bool :=
  match a, b with
  | generational, generational => true
  | steady_state, steady_state => true
  | _, _ => false
  end.

(** [GPChainOptimiserParameters] *)
Record GPChainOptimiserParameters : Type := mkParameters {
  selection_types : list SelectionTypesEnum;
  crossover_types : list CrossoverTypesEnum;
  mutation_types : list MutationTypesEnum;
  regularization_type : RegularizationTypesEnum;
  genetic_scheme_type : GeneticSchemeTypesEnum;
  with_auto_depth_configuration : bool;
  depth_increase_step : Z;
  multi_objective : bool
}.

(** [GPChainOptimiserParameters.set_default_params]: an empty (or absent)
    list of types is replaced by the default strategy. *)
Definition set_default_params (p : GPChainOptimiserParameters)
    : GPChainOptimiserParameters :=
  {| selection_types :=
       match selection_types p with
       | [] => [selection_tournament]
       | l => l
       end;
     crossover_types :=
       match crossover_types p with
       | [] => [crossover_subtree]
       | l => l
       end;
     mutation_types :=
       match mutation_types p with
       | [] => [mutation_simple]
       | l => l
       end;
     regularization_type := regularization_type p;
     genetic_scheme_type := genetic_scheme_type p;
     with_auto_depth_configuration := with_auto_depth_configuration p;
     depth_increase_step := depth_increase_step p;
     multi_objective := multi_objective p |}.

(** [GPChainOptimiserParameters.__init__] with the defaults of its
    signature taken by the caller. *)
Definition GPChainOptimiserParameters_init
    (selection_types_ : list SelectionTypesEnum)
    (crossover_types_ : list CrossoverTypesEnum)
    (mutation_types_ : list MutationTypesEnum)
    (regularization_type_ : RegularizationTypesEnum)
    (genetic_scheme_type_ : GeneticSchemeTypesEnum)
    (with_auto_depth_configuration_ : bool) (depth_increase_step_ : Z)
    (multi_objective_ : bool) : GPChainOptimiserParameters :=
  set_default_params
    (mkParameters selection_types_ crossover_types_ mutation_types_
       regularization_type_ genetic_scheme_type_
       with_auto_depth_configuration_ depth_increase_step_ multi_objective_).

(** [GPChainOptimiserParameters()] *)
Definition default_parameters : GPChainOptimiserParameters :=
  GPChainOptimiserParameters_init [] [] [] regularization_none generational
    false 3 false.

(** Modelled from the spec: the composer requirements, a class that is not
    among the sources; these are the attributes the optimiser reads.
    [pop_size] and [start_depth] may be [None]. *)
Record ComposerRequirements : Type := mkRequirements {
  primary : list ModelType;
  pop_size : option Z;
  start_depth : option Z;
  req_max_depth : Z;
  num_of_generations : Z;
  max_lead_time : option Q;
  crossover_prob : Q;
  add_single_model_chains : bool
}.

Definition set_pop_size (r : ComposerRequirements) (v : option Z)
    : ComposerRequirements :=
  {| primary := primary r; pop_size := v; start_depth := start_depth r;
     req_max_depth := req_max_depth r;
     num_of_generations := num_of_generations r;
     max_lead_time := max_lead_time r; crossover_prob := crossover_prob r;
     add_single_model_chains := add_single_model_chains r |}.

Definition set_primary (r : ComposerRequirements) (v : list ModelType)
    : ComposerRequirements :=
  {| primary := v; pop_size := pop_size r; start_depth := start_depth r;
     req_max_depth := req_max_depth r;
     num_of_generations := num_of_generations r;
     max_lead_time := max_lead_time r; crossover_prob := crossover_prob r;
     add_single_model_chains := add_single_model_chains r |}.

(** Truth value of an optional integer: [None] and [0] are false. *)
Definition truthy (v : option Z) : bool :=
  match v with
  | None => false
  | Some z => negb (z =? 0)%Z
  end.

(** The parameters of chain generation: the constructor of primary nodes
    and the attributes of the chain class ([hasattr] is membership). *)
Record ChainGenerationParams : Type := mkGenerationParams {
  primary_node_func : ModelType -> Node;
  secondary_node_func : ModelType -> Node;
  chain_class : list string
}.

Definition hasattr (cls : list string) (attr : string) : bool :=
  existsb (String.eqb attr) cls.

Definition necessary_attrs : list string :=
  ["add_node"; "root_node"; "replace_node_with_parents"; "update_node";
   "node_childs"]%string.

(** [range(start, stop, step)] for [0 < step]. *)
Fixpoint range_from (start count step : nat) : list nat :=
  match count with
  | O => []
  | S count' => start :: range_from (start + step) count' step
  end.

Definition py_range (start stop step : nat) : list nat :=
  range_from start ((stop - start + (step - 1)) / step) step.

(* ================================================================== *)
(** * The optimiser and its collaborators *)

Section Optimiser.

Context {F : Type} `{FO : FitnessOrder F} {AS : ArgSort F}.

(** [W] is the state of what lies outside the optimiser and that its
    collaborators read and advance: the random generator and the clock.
    [Archive] is the archive of the multi-objective mode and [Objective]
    the objective function handed to [optimise]. *)
Variable W : Type.
Variable Archive : Type.
Variable Objective : Type.

Local Abbreviation Chain := (@Chain F).

(** What [best_individual] yields: a chain, or the archive in
    multi-objective mode. *)
Inductive Best : Type :=
| BestChain (c : Chain)
| BestArchive (a : option Archive).

(** The strategy modules, the evaluation, the archive and the timer are
    not among the sources: the optimiser is verified against any
    implementation of them.  Each is taken to return, and to leave the
    chains it is given as they are (what it changes, it returns); the
    random ones thread [W]. *)
Record Operators : Type := mkOperators {
  random_chain : ChainGenerationParams -> ComposerRequirements -> Z ->
                 W -> Chain * W;
  constraint_function : Chain -> bool;
  calculate_objective : Chain -> Objective -> bool -> W -> option F * W;
  evaluate_individuals : list Chain -> Objective -> bool ->
                         W -> list Chain * W;
  archive_update : Archive -> list Chain -> Archive;
  is_equal_archive : Best -> option Archive -> bool;
  duplicates_filtration : option Archive -> list Chain -> list Chain;
  regularized_population : RegularizationTypesEnum -> list Chain ->
                           Objective -> list string -> W -> list Chain * W;
  num_of_parents_in_crossover : Z -> Z;
  selection : list SelectionTypesEnum -> list Chain -> Z ->
              W -> list Chain * W;
  crossover : list CrossoverTypesEnum -> Chain -> Chain -> Q -> Z ->
              W -> list Chain * W;
  mutation : list MutationTypesEnum -> ChainGenerationParams -> Chain ->
             ComposerRequirements -> Z -> W -> Chain * W;
  inheritance : GeneticSchemeTypesEnum -> list SelectionTypesEnum ->
                list Chain -> list Chain -> Z -> W -> list Chain * W;
  is_time_limit_reached : W -> option Q -> Z -> W -> bool
}.

Variable ops : Operators.

Inductive InitialChain : Type :=
| single_chain (c : Chain)
| chain_list (l : list Chain).

Record OptimiserHistory : Type := mkHistory {
  individuals : list (list Chain);
  archive_history : list Archive
}.

(** The attributes of a [GPChainOptimiser].  [generation_depth] is the
    depth bound into [chain_generation_function]; an attribute that is
    assigned in [optimise] only is [None] until then. *)
Record GPChainOptimiser : Type := mkOptimiser {
  chain_generation_params : ChainGenerationParams;
  requirements : ComposerRequirements;
  history : OptimiserHistory;
  archive : option Archive;
  parameters : GPChainOptimiserParameters;
  max_depth : Z;
  generation_num : Z;
  generation_depth : Z;
  population : option (list Chain);
  num_of_gens_without_improvements : option Z;
  prev_best : option Best;
  best_single_model : option Chain
}.

(** ** [GPChainOptimiser.__init__] *)
Definition GPChainOptimiser_init (initial_chain : option InitialChain)
    (requirements_ : ComposerRequirements)
    (chain_generation_params_ : ChainGenerationParams)
    (parameters_ : option GPChainOptimiserParameters)
    (archive_type : option Archive) : res GPChainOptimiser :=
  let parameters_ :=
    match parameters_ with
    | None => default_parameters
    | Some p => p
    end in
  let max_depth_ :=
    if with_auto_depth_configuration parameters_
       && truthy (start_depth requirements_)
    then match start_depth requirements_ with
         | Some d => d
         | None => req_max_depth requirements_
         end
    else req_max_depth requirements_ in
  let generation_depth_ :=
    match start_depth requirements_ with
    | None => max_depth_
    | Some d => d
    end in
  if negb (forallb (hasattr (chain_class chain_generation_params_))
             necessary_attrs)
  then Raise AttributeError
  else
    let requirements_ :=
      if negb (truthy (pop_size requirements_))
      then set_pop_size requirements_ (Some 10%Z)
      else requirements_ in
    let population_ :=
      match initial_chain with
      | Some (single_chain c) =>
          Some (repeat c
                  (Z.to_nat (match pop_size requirements_ with
                             | Some n => n
                             | None => 0%Z
                             end)))
      | Some (chain_list l) => Some l
      | None => None
      end in
    Ok {| chain_generation_params := chain_generation_params_;
          requirements := requirements_;
          history := mkHistory [] [];
          archive := archive_type;
          parameters := parameters_;
          max_depth := max_depth_;
          generation_num := 0%Z;
          generation_depth := generation_depth_;
          population := population_;
          num_of_gens_without_improvements := None;
          prev_best := None;
          best_single_model := None |}.

(* ------------------------------------------------------------------ *)
(** ** Attribute updates *)

Definition with_history (s : GPChainOptimiser) (v : OptimiserHistory) :=
  mkOptimiser (chain_generation_params s) (requirements s) v (archive s)
    (parameters s) (max_depth s) (generation_num s) (generation_depth s)
    (population s) (num_of_gens_without_improvements s) (prev_best s)
    (best_single_model s).

Definition with_archive (s : GPChainOptimiser) (v : option Archive) :=
  mkOptimiser (chain_generation_params s) (requirements s) (history s) v
    (parameters s) (max_depth s) (generation_num s) (generation_depth s)
    (population s) (num_of_gens_without_improvements s) (prev_best s)
    (best_single_model s).

Definition with_requirements (s : GPChainOptimiser)
    (v : ComposerRequirements) :=
  mkOptimiser (chain_generation_params s) v (history s) (archive s)
    (parameters s) (max_depth s) (generation_num s) (generation_depth s)
    (population s) (num_of_gens_without_improvements s) (prev_best s)
    (best_single_model s).

Definition with_max_depth (s : GPChainOptimiser) (v : Z) :=
  mkOptimiser (chain_generation_params s) (requirements s) (history s)
    (archive s) (parameters s) v (generation_num s) (generation_depth s)
    (population s) (num_of_gens_without_improvements s) (prev_best s)
    (best_single_model s).

Definition with_generation_num (s : GPChainOptimiser) (v : Z) :=
  mkOptimiser (chain_generation_params s) (requirements s) (history s)
    (archive s) (parameters s) (max_depth s) v (generation_depth s)
    (population s) (num_of_gens_without_improvements s) (prev_best s)
    (best_single_model s).

Definition with_population (s : GPChainOptimiser)
    (v : option (list Chain)) :=
  mkOptimiser (chain_generation_params s) (requirements s) (history s)
    (archive s) (parameters s) (max_depth s) (generation_num s)
    (generation_depth s) v (num_of_gens_without_improvements s)
    (prev_best s) (best_single_model s).

Definition with_num_of_gens_without_improvements (s : GPChainOptimiser)
    (v : option Z) :=
  mkOptimiser (chain_generation_params s) (requirements s) (history s)
    (archive s) (parameters s) (max_depth s) (generation_num s)
    (generation_depth s) (population s) v (prev_best s)
    (best_single_model s).

Definition with_prev_best (s : GPChainOptimiser) (v : option Best) :=
  mkOptimiser (chain_generation_params s) (requirements s) (history s)
    (archive s) (parameters s) (max_depth s) (generation_num s)
    (generation_depth s) (population s)
    (num_of_gens_without_improvements s) v (best_single_model s).

Definition with_best_single_model (s : GPChainOptimiser)
    (v : option Chain) :=
  mkOptimiser (chain_generation_params s) (requirements s) (history s)
    (archive s) (parameters s) (max_depth s) (generation_num s)
    (generation_depth s) (population s)
    (num_of_gens_without_improvements s) (prev_best s) v.

(* ------------------------------------------------------------------ *)
(** ** Pure readers of the optimiser *)

(** [self.requirements.pop_size] where an integer is needed. *)
Definition req_pop_size (s : GPChainOptimiser) : res Z :=
  match pop_size (requirements s) with
  | Some n => Ok n
  | None => Raise TypeError
  end.

(** [self.population] where a sequence is needed. *)
Definition the_population (s : GPChainOptimiser) : res (list Chain) :=
  match population s with
  | Some l => Ok l
  | None => Raise TypeError
  end.

(** [GPChainOptimiser.best_individual] *)
Definition best_individual (s : GPChainOptimiser) : res Best :=
  if multi_objective (parameters s)
  then Ok (BestArchive (archive s))
  else
    (let? pop := the_population s in
     let? best := get_best_individual pop pop true in
     Ok (BestChain best))%res.

(** [GPChainOptimiser.with_elitism] *)
Definition with_elitism (s : GPChainOptimiser) : res bool :=
  if multi_objective (parameters s)
  then Ok false
  else (let? n := req_pop_size s in Ok (1 <? n)%Z)%res.

(** [GPChainOptimiser.num_of_inds_in_next_pop] *)
Definition num_of_inds_in_next_pop (s : GPChainOptimiser) : res Z :=
  (let? elitism := with_elitism s in
   if elitism && negb (multi_objective (parameters s))
   then let? n := req_pop_size s in Ok (n - 1)%Z
   else req_pop_size s)%res.

(** The [.fitness] of what [best_individual] yields; the archive has no
    such attribute. *)
Definition best_fitness (b : Best) : res (option F) :=
  match b with
  | BestChain c => Ok (fitness c)
  | BestArchive _ => Raise AttributeError
  end.

(** [math.ceil] of the product of an integer and a float: the integer
    is converted to a float, the product rounded to a float, and its
    ceiling taken. *)
Definition ceil_mul (n : Z) (rate : Q) : Z :=
  Qceiling (binary64 (binary64 (inject_Z n) * rate)).

(** [GPChainOptimiser.offspring_size].  The rate stands for the float
    nearest to it; a rate that is [None] or zero is false. *)
Definition offspring_size (s : GPChainOptimiser) (offspring_rate : option Q)
    : res Z :=
  let default_offspring_rate :=
    match offspring_rate with
    | None => (1 # 2)%Q
    | Some r => if Qeq_bool (binary64 r) 0 then (1 # 2)%Q else binary64 r
    end in
  (let? n := req_pop_size s in
   if GeneticScheme_eqb (genetic_scheme_type (parameters s)) steady_state
   then Ok (ceil_mul n default_offspring_rate)
   else Ok (n - 1)%Z)%res.

(** [GPChainOptimiser.result_individual] *)
Definition result_individual (s : GPChainOptimiser) : res Best :=
  if negb (multi_objective (parameters s))
  then
    (let? best := best_individual s in
     if add_single_model_chains (requirements s)
     then
       match best_single_model s with
       | None => Raise AttributeError
       | Some single =>
           let? best_fit := best_fitness best in
           let? better := fitness_le (fitness single) best_fit in
           if better then Ok (BestChain single) else Ok best
       end
     else Ok best)%res
  else Ok (BestArchive (archive s)).

(* ------------------------------------------------------------------ *)
(** ** The run: state, exceptions and the phases passed

    A computation of the optimiser reads and updates the optimiser and the
    outside world, and may raise.  The machine also records the phases of
    the orchestrator as they are entered, in order. *)

Inductive Event : Type :=
| EvaluateInitial
| ArchiveUpdate
| StagnationCheck
| DepthAdjust
| Regularize
| Select
| Reproduce
| EvaluateOffspring
| Inherit
| RecordHistory
| BudgetCheck (generation : Z) (reached : bool)
| Finalize.

Record Machine : Type := mkMachine {
  self : GPChainOptimiser;
  world : W;
  trace : list Event
}.

Local Abbreviation M := (M Machine).

Definition get : M GPChainOptimiser := fun m => Done (self m) m.

Definition modify (f : GPChainOptimiser -> GPChainOptimiser) : M unit :=
  fun m => Done tt (mkMachine (f (self m)) (world m) (trace m)).

Definition now : M W := fun m => Done (world m) m.

(** A call of a collaborator that advances the outside world. *)
Definition ext {A : Type} (f : W -> A * W) : M A :=
  fun m =>
    let (a, w) := f (world m) in
    Done a (mkMachine (self m) w (trace m)).

Definition emit (ev : Event) : M unit :=
  fun m => Done tt (mkMachine (self m) (world m) (trace m ++ [ev])).

Local Open Scope opt_scope.

(* ------------------------------------------------------------------ *)
(** ** The methods of [GPChainOptimiser] *)

(** [GPChainOptimiser._add_to_history] *)
Definition add_to_history (inds : list Chain) : M unit :=
  emit RecordHistory ;;
  modify (fun s =>
    with_history s
      (mkHistory (individuals (history s) ++ [inds])
         (archive_history (history s)))).

(** [self.archive.update(self.population)] followed by the snapshot of
    the archive into the history, when there is an archive. *)
Definition update_archive : M unit :=
  s <- get ;;
  match archive s with
  | Some a =>
      emit ArchiveUpdate ;;
      pop <- lift (the_population s) ;;
      let a' := archive_update ops a pop in
      modify (fun s =>
        with_history (with_archive s (Some a'))
          (mkHistory (individuals (history s))
             (archive_history (history s) ++ [a'])))
  | None => ret tt
  end.

(** [GPChainOptimiser.update_stagnation_counter] *)
Definition update_stagnation_counter : M Z :=
  s <- get ;;
  if negb (generation_num s =? 0)%Z
  then
    equal_best <-
      (if multi_objective (parameters s)
       then
         match prev_best s with
         | Some pb => ret (is_equal_archive ops pb (archive s))
         | None => raise AttributeError
         end
       else
         match prev_best s with
         | Some pb =>
             prev_fit <- lift (best_fitness pb) ;;
             best <- lift (best_individual s) ;;
             best_fit <- lift (best_fitness best) ;;
             ret (is_equal_fitness prev_fit best_fit)
         | None => raise AttributeError
         end) ;;
    if (equal_best : bool)
    then
      match num_of_gens_without_improvements s with
      | Some n => ret (n + 1)%Z
      | None => raise AttributeError
      end
    else ret 0%Z
  else ret 0%Z.

(** [GPChainOptimiser.log_info_about_best]: the logged text is dropped,
    what the message reads is not. *)
Definition log_info_about_best : M unit :=
  s <- get ;;
  if multi_objective (parameters s)
  then
    match archive s with
    | Some _ => ret tt
    | None => raise AttributeError
    end
  else
    best <- lift (best_individual s) ;;
    _ <- lift (best_fitness best) ;;
    ret tt.

(** [GPChainOptimiser.max_depth_recount] *)
Definition max_depth_recount : M unit :=
  s <- get ;;
  match num_of_gens_without_improvements s with
  | None => raise AttributeError
  | Some n =>
      if (n =? depth_increase_step (parameters s))%Z
         && (max_depth s + 1 <=? req_max_depth (requirements s))%Z
      then modify (fun s => with_max_depth s (max_depth s + 1)%Z)
      else ret tt
  end.

(** [GPChainOptimiser.reproduce] *)
Definition reproduce (selected_individual_first : Chain)
    (selected_individual_second : option Chain) : M (list Chain) :=
  s <- get ;;
  new_inds <-
    match selected_individual_second with
    | Some second =>
        ext (crossover ops (crossover_types (parameters s))
               selected_individual_first second
               (crossover_prob (requirements s)) (max_depth s))
    | None => ret [selected_individual_first]
    end ;;
  mapM (fun new_ind =>
          ext (mutation ops (mutation_types (parameters s))
                 (chain_generation_params s) new_ind (requirements s)
                 (max_depth s)))
       new_inds.

(** The loop of [optimise] over [range(0, len(selected_individuals), 2)]. *)
Fixpoint reproduction_loop (selected_individuals : list Chain)
    (parent_nums : list nat) (new_population : list Chain)
    : M (list Chain) :=
  match parent_nums with
  | [] => ret new_population
  | parent_num :: parent_nums' =>
      first <- lift (py_index selected_individuals parent_num) ;;
      second <- lift (py_index selected_individuals (parent_num + 1)) ;;
      new_inds <- reproduce first (Some second) ;;
      reproduction_loop selected_individuals parent_nums'
        (new_population ++ new_inds)
  end.

(** [GPChainOptimiser._make_population]: the [while] loop runs on fuel,
    one unit per generated chain. *)
Fixpoint make_population_loop (fuel : nat) (pop_size_ : Z)
    (model_chains : list Chain) : M (list Chain) :=
  if (Z.of_nat (length model_chains) <? pop_size_)%Z
  then
    match fuel with
    | O => out_of_fuel
    | S fuel' =>
        s <- get ;;
        chain <- ext (random_chain ops (chain_generation_params s)
                        (requirements s) (generation_depth s)) ;;
        if constraint_function ops chain
        then make_population_loop fuel' pop_size_ (model_chains ++ [chain])
        else make_population_loop fuel' pop_size_ model_chains
    end
  else ret model_chains.

Definition make_population (fuel : nat) (pop_size_ : Z) : M (list Chain) :=
  make_population_loop fuel pop_size_ [].

(** [GPChainOptimiser._best_single_models] with [num_best] at its
    default. *)
Fixpoint single_models_loop (objective_function : Objective)
    (models : list ModelType) (single_models_inds : list Chain)
    : M (list Chain) :=
  match models with
  | [] => ret single_models_inds
  | model :: models' =>
      s <- get ;;
      let single_models_ind :=
        mkChain [primary_node_func (chain_generation_params s) model]
          (@None F) in
      fit <- ext (calculate_objective ops single_models_ind
                    objective_function (multi_objective (parameters s))) ;;
      let single_models_ind := mkChain (nodes single_models_ind) fit in
      match fit with
      | Some _ =>
          single_models_loop objective_function models'
            (single_models_inds ++ [single_models_ind])
      | None =>
          single_models_loop objective_function models' single_models_inds
      end
  end.

Definition best_single_models (objective_function : Objective)
    : M (Chain * list ModelType) :=
  s <- get ;;
  single_models_inds <-
    single_models_loop objective_function (primary (requirements s)) [] ;;
  best_inds <- lift (sorted_by_fitness single_models_inds) ;;
  best <- lift (py_index best_inds 0) ;;
  types <- mapM (fun i : Chain =>
                   node <- lift (py_index (nodes i) 0) ;;
                   ret (model_type node))
                best_inds ;;
  ret (best, firstn 7 types).

(* ------------------------------------------------------------------ *)
(** ** [GPChainOptimiser.optimise] *)

(** The body of the loop over generations, phase by phase.

    The stagnation counter is updated and, under automated depth
    configuration, the depth bound recounted. *)
Definition adapt_depth : M unit :=
  emit StagnationCheck ;;
  value <- update_stagnation_counter ;;
  modify (fun s => with_num_of_gens_without_improvements s (Some value)) ;;
  s <- get ;;
  if with_auto_depth_configuration (parameters s)
     && negb (generation_num s =? 0)%Z
  then emit DepthAdjust ;; max_depth_recount
  else ret tt.

(** Regularization, selection, reproduction and the evaluation of the
    offspring. *)
Definition breed (objective_function : Objective)
    (num_of_new_individuals : Z) : M (list Chain) :=
  emit Regularize ;;
  s <- get ;;
  pop <- lift (the_population s) ;;
  individuals_to_select <-
    ext (regularized_population ops (regularization_type (parameters s)) pop
           objective_function (chain_class (chain_generation_params s))) ;;
  let individuals_to_select :=
    if multi_objective (parameters s)
    then individuals_to_select
         ++ duplicates_filtration ops (archive s) individuals_to_select
    else individuals_to_select in
  let num_of_parents :=
    num_of_parents_in_crossover ops num_of_new_individuals in
  emit Select ;;
  selected_individuals <-
    ext (selection ops (selection_types (parameters s))
           individuals_to_select num_of_parents) ;;
  emit Reproduce ;;
  new_population <-
    reproduction_loop selected_individuals
      (py_range 0 (length selected_individuals) 2) [] ;;
  emit EvaluateOffspring ;;
  ext (evaluate_individuals ops new_population objective_function
         (multi_objective (parameters s))).

(** The previous best is kept, the next population inherited (with the
    previous best appended under elitism), recorded and logged. *)
Definition inherit (new_population : list Chain) : M unit :=
  s <- get ;;
  best <- lift (best_individual s) ;;
  modify (fun s => with_prev_best s (Some best)) ;;
  emit Inherit ;;
  s <- get ;;
  pop <- lift (the_population s) ;;
  size <- lift (num_of_inds_in_next_pop s) ;;
  next <-
    ext (inheritance ops (genetic_scheme_type (parameters s))
           (selection_types (parameters s)) pop new_population size) ;;
  modify (fun s => with_population s (Some next)) ;;
  s <- get ;;
  elitism <- lift (with_elitism s) ;;
  (if negb (multi_objective (parameters s)) && elitism
   then
     match prev_best s with
     | Some (BestChain c) =>
         modify (fun s => with_population s (Some (next ++ [c])))
     | _ => raise TypeError
     end
   else ret tt) ;;
  s <- get ;;
  pop <- lift (the_population s) ;;
  add_to_history pop ;;
  log_info_about_best.

(** [t.is_time_limit_reached(...)], the last statement of the body; [t]
    is the timer of the run. *)
Definition budget_check (t : W) : M bool :=
  s <- get ;;
  w <- now ;;
  let reached :=
    is_time_limit_reached ops t (max_lead_time (requirements s))
      (generation_num s) w in
  emit (BudgetCheck (generation_num s) reached) ;;
  ret reached.

(** One pass through the body, after [self.generation_num] is assigned.
    The result tells whether the body ended in [break]. *)
Definition generation (objective_function : Objective) (t : W)
    (num_of_new_individuals : Z) : M bool :=
  update_archive ;;
  adapt_depth ;;
  new_population <- breed objective_function num_of_new_individuals ;;
  inherit new_population ;;
  budget_check t.

(** [for self.generation_num in range(...)] over the generation numbers
    still to come. *)
Fixpoint generations (objective_function : Objective) (t : W)
    (num_of_new_individuals : Z) (generation_nums : list Z) : M unit :=
  match generation_nums with
  | [] => ret tt
  | g :: generation_nums' =>
      modify (fun s => with_generation_num s g) ;;
      reached <- generation objective_function t num_of_new_individuals ;;
      if (reached : bool)
      then ret tt
      else generations objective_function t num_of_new_individuals
             generation_nums'
  end.

(** [range(n)] *)
Definition Zrange (n : Z) : list Z :=
  map Z.of_nat (seq 0 (Z.to_nat n)).

(** The part of [optimise] before the timer is entered: a missing
    population is generated, and the number of offspring fixed. *)
Definition optimise_setup (fuel : nat) (offspring_rate : option Q) : M Z :=
  s <- get ;;
  match population s with
  | None =>
      n <- lift (req_pop_size s) ;;
      pop <- make_population fuel n ;;
      modify (fun s => with_population s (Some pop))
  | Some _ => ret tt
  end ;;
  s <- get ;;
  lift (offspring_size s offspring_rate).

(** The evaluation of the initial population and its record. *)
Definition evaluate_initial (objective_function : Objective) : M unit :=
  s <- get ;;
  (if add_single_model_chains (requirements s)
   then
     r <- best_single_models objective_function ;;
     modify (fun s =>
       with_requirements (with_best_single_model s (Some (fst r)))
         (set_primary (requirements s) (snd r)))
   else ret tt) ;;
  emit EvaluateInitial ;;
  s <- get ;;
  pop <- lift (the_population s) ;;
  pop <- ext (evaluate_individuals ops pop objective_function
                (multi_objective (parameters s))) ;;
  modify (fun s => with_population s (Some pop)) ;;
  add_to_history pop ;;
  log_info_about_best.

Definition optimise (fuel : nat) (objective_function : Objective)
    (offspring_rate : option Q) : M (Best * OptimiserHistory) :=
  num_of_new_individuals <- optimise_setup fuel offspring_rate ;;
  t <- now ;;
  evaluate_initial objective_function ;;
  s <- get ;;
  generations objective_function t num_of_new_individuals
    (Zrange (num_of_generations (requirements s) - 1)) ;;
  emit Finalize ;;
  update_archive ;;
  s <- get ;;
  best <- lift (result_individual s) ;;
  log_info_about_best ;;
  s <- get ;;
  ret (best, history s).

End Optimiser.

Arguments BestChain {F Archive} c.
Arguments BestArchive {F Archive} a.

(* ================================================================== *)
(** * A deterministic instance

    Collaborators simple enough to run the optimiser on: the outside
    world is a counter (the clock ticks with each call), the objective
    counts the nodes of a chain, crossover returns its parents, mutation
    drops the first node of a chain that has several, selection takes
    parents from the head of the pool, and inheritance prefers the
    offspring. *)

Module Sample.

Definition objective := @Chain Z -> option Z.

Definition node_count : objective :=
  fun c => Some (Z.of_nat (length (nodes c))).

Definition shrink (c : @Chain Z) : @Chain Z :=
  match nodes c with
  | _ :: (_ :: _) as rest => mkChain rest None
  | _ => mkChain (nodes c) None
  end.

Definition filler : @Chain Z := mkChain [] None.

Definition operators : @Operators Z nat (list (@Chain Z)) objective :=
  {| random_chain := fun params _ depth w =>
       (mkChain (repeat (primary_node_func params "knn"%string)
                   (S (w mod 3)))
          None, S w);
     constraint_function := fun _ => true;
     calculate_objective := fun c (f : objective) _ w => (f c, S w);
     evaluate_individuals := fun l (f : objective) _ w =>
       (map (fun c => mkChain (nodes c) (f c)) l, S w);
     archive_update := fun _ pop => pop;
     is_equal_archive := fun _ _ => false;
     duplicates_filtration := fun _ _ => [];
     regularized_population := fun _ pop _ _ w => (pop, w);
     num_of_parents_in_crossover := fun n =>
       if Z.even n then n else (n + 1)%Z;
     selection := fun _ pop n w =>
       (firstn (Z.to_nat n) (pop ++ pop), S w);
     crossover := fun _ a b _ _ w => ([a; b], S w);
     mutation := fun _ _ c _ _ w => (shrink c, S w);
     inheritance := fun _ _ prev new size w =>
       (firstn (Z.to_nat size)
          (new ++ prev ++ repeat filler (Z.to_nat size)), w);
     is_time_limit_reached := fun t limit _ w =>
       match limit with
       | Some q => Qle_bool q (inject_Z (Z.of_nat (w - t)))
       | None => false
       end |}.

(** The same collaborators, but evaluation drops the individuals the
    objective fails on, and inheritance takes only from the offspring and
    the previous population. *)
Definition evaluated (f : objective) (l : list (@Chain Z))
    : list (@Chain Z) :=
  filter (fun c => match fitness c with Some _ => true | None => false end)
    (map (fun c => mkChain (nodes c) (f c)) l).

Definition careful : @Operators Z nat (list (@Chain Z)) objective :=
  {| random_chain := random_chain operators;
     constraint_function := constraint_function operators;
     calculate_objective := calculate_objective operators;
     evaluate_individuals := fun l (f : objective) _ w =>
       (evaluated f l, S w);
     archive_update := archive_update operators;
     is_equal_archive := is_equal_archive operators;
     duplicates_filtration := duplicates_filtration operators;
     regularized_population := regularized_population operators;
     num_of_parents_in_crossover := num_of_parents_in_crossover operators;
     selection := selection operators;
     crossover := crossover operators;
     mutation := mutation operators;
     inheritance := fun _ _ prev new size w =>
       (firstn (Z.to_nat size) (new ++ prev), w);
     is_time_limit_reached := is_time_limit_reached operators |}.

Definition chain_of (n : nat) (f : option Z) : @Chain Z :=
  mkChain (repeat (mkNode "knn"%string) n) f.

Definition generation_params : ChainGenerationParams :=
  mkGenerationParams mkNode mkNode necessary_attrs.

Definition requirements_of (size depth : option Z) (generations : Z)
    (limit : option Q) (single_models : bool) : ComposerRequirements :=
  {| primary := ["knn"; "logit"]%string;
     pop_size := size;
     start_depth := depth;
     req_max_depth := 3;
     num_of_generations := generations;
     max_lead_time := limit;
     crossover_prob := 4 # 5;
     add_single_model_chains := single_models |}.

Definition optimiser : Type := @GPChainOptimiser Z (list (@Chain Z)).

Definition machine : Type := @Machine Z nat (list (@Chain Z)).

Definition start (s : optimiser) : machine := mkMachine s 0%nat [].

Definition blank : optimiser :=
  mkOptimiser generation_params (requirements_of None None 0 None false)
    (mkHistory [] []) None default_parameters 0 0 0 None None None None.

(** An optimiser as its construction leaves it. *)
Definition constructed (initial_chain : option InitialChain)
    (requirements_ : ComposerRequirements)
    (parameters_ : option GPChainOptimiserParameters) : optimiser :=
  match GPChainOptimiser_init initial_chain requirements_ generation_params
          parameters_ None with
  | Ok s => s
  | Raise _ => blank
  end.

Definition four_chains : list (@Chain Z) :=
  [chain_of 3 None; chain_of 2 None; chain_of 4 None; chain_of 3 None].

(** Four individuals, four generations, no time limit. *)
Definition plain : optimiser :=
  constructed (Some (chain_list four_chains))
    (requirements_of (Some 4%Z) None 4 None false) None.

(** The same with a limit on the time, reached in the second generation
    of the six configured. *)
Definition hurried : optimiser :=
  constructed (Some (chain_list four_chains))
    (requirements_of (Some 4%Z) None 6 (Some (15 # 1)) false) None.

(** The same with a limit on the time that is reached at the first
    check. *)
Definition pressed : optimiser :=
  constructed (Some (chain_list four_chains))
    (requirements_of (Some 4%Z) None 4 (Some (0 # 1)) false) None.

(** In its fourth generation, under automated depth configuration from
    depth 2, after two generations without improvement and with a best
    individual as good as the previous best. *)
Definition stagnant : optimiser :=
  with_prev_best
    (with_num_of_gens_without_improvements
       (with_generation_num
          (constructed
             (Some (chain_list [chain_of 2 (Some 2%Z); chain_of 3 (Some 3%Z)]))
             (requirements_of (Some 2%Z) (Some 2%Z) 6 None false)
             (Some (GPChainOptimiserParameters_init [] [] []
                      regularization_none generational true 3 false)))
          3)
       (Some 2%Z))
    (Some (BestChain (chain_of 2 (Some 2%Z)))).

(** Under automated depth configuration from depth 1, with an objective
    that never improves. *)
Definition flat : objective := fun _ => Some 7%Z.

Definition deepening : optimiser :=
  constructed (Some (chain_list four_chains))
    (requirements_of (Some 4%Z) (Some 1%Z) 7 None false)
    (Some (GPChainOptimiserParameters_init [] [] []
             regularization_none generational true 3 false)).

(** The depth bound and the stagnation counter after the first
    generations of a run. *)
Definition depth_after (generations_ : Z) : option (Z * option Z) :=
  match bind (evaluate_initial operators flat)
          (fun _ => generations operators flat 0%nat 3 (Zrange generations_))
          (start deepening) with
  | Done _ m =>
      Some (max_depth (self m), num_of_gens_without_improvements (self m))
  | _ => None
  end.

(** Given an empty list as its initial population. *)
Definition empty_handed : res optimiser :=
  GPChainOptimiser_init (Some (chain_list []))
    (requirements_of (Some 4%Z) None 4 None false) generation_params None
    None.

(** The collaborators of [operators] with a validation that accepts no
    chain. *)
Definition rejecting : @Operators Z nat (list (@Chain Z)) objective :=
  {| random_chain := random_chain operators;
     constraint_function := fun _ => false;
     calculate_objective := calculate_objective operators;
     evaluate_individuals := evaluate_individuals operators;
     archive_update := archive_update operators;
     is_equal_archive := is_equal_archive operators;
     duplicates_filtration := duplicates_filtration operators;
     regularized_population := regularized_population operators;
     num_of_parents_in_crossover := num_of_parents_in_crossover operators;
     selection := selection operators;
     crossover := crossover operators;
     mutation := mutation operators;
     inheritance := inheritance operators;
     is_time_limit_reached := is_time_limit_reached operators |}.

(** Given no initial chain: the population is still to be generated. *)
Definition unpopulated : optimiser :=
  constructed None (requirements_of (Some 4%Z) None 4 None false) None.

(** [plain] under the steady-state scheme. *)
Definition steady : optimiser :=
  constructed (Some (chain_list four_chains))
    (requirements_of (Some 4%Z) None 4 None false)
    (Some (GPChainOptimiserParameters_init [] [] []
             regularization_none steady_state false 3 false)).

(** In multi-objective mode, and given no archive. *)
Definition pareto : optimiser :=
  constructed (Some (chain_list four_chains))
    (requirements_of (Some 4%Z) None 4 None false)
    (Some (GPChainOptimiserParameters_init [] [] []
             regularization_none generational false 3 true)).

(** [plain] with an archive, empty at first. *)
Definition archived : optimiser := with_archive plain (Some []).

(** [plain] with single-model chains asked for. *)
Definition with_single_models : optimiser :=
  constructed (Some (chain_list four_chains))
    (requirements_of (Some 4%Z) None 4 None true) None.

(** An objective that cannot be computed for a chain of fewer than two
    nodes. *)
Definition needs_two_nodes : objective :=
  fun c =>
    match nodes c with
    | _ :: _ :: _ => Some (Z.of_nat (length (nodes c)))
    | _ => None
    end.

End Sample.

(* ================================================================== *)
(** * Notions used in the statements *)

(** The comparison is a total order: what is asked of fitness values
    for the properties below (floats other than NaN, integers). *)
Class FitnessTotalOrder (F : Type) `{FitnessOrder F} : Prop := {
  fit_leb_total : forall a b, fit_leb a b = true \/ fit_leb b a = true;
  fit_leb_trans : forall a b c,
      fit_leb a b = true -> fit_leb b c = true -> fit_leb a c = true;
  fit_leb_antisym : forall a b,
      fit_leb a b = true -> fit_leb b a = true -> a = b
}.

Arguments FitnessTotalOrder F {_}.

(** What [np.argsort] promises of its sorting routine, whatever its kind:
    the result holds every index once, and along it the keys do not
    decrease. *)
Class ArgSortCorrect (F : Type) `{FitnessOrder F} `{ArgSort F} : Prop := {
  argsort_perm : forall fs : list F,
      Permutation (argsort_order fs) (seq 0 (length fs));
  argsort_sorted : forall (fs : list F) i j a b x y,
      (i <= j)%nat ->
      nth_error (argsort_order fs) i = Some a ->
      nth_error (argsort_order fs) j = Some b ->
      nth_error fs a = Some x -> nth_error fs b = Some y ->
      fit_leb x y = true
}.

Arguments ArgSortCorrect F {_ _}.

(** Numbers of nodes are compared like fitness values. *)
#[export] Instance nat_FitnessOrder : FitnessOrder nat :=
  {| fit_leb := Nat.leb |}.

Section Notions.

Context {F : Type} `{FO : FitnessOrder F} {AS : ArgSort F}.
Variables W Archive : Type.

Local Abbreviation Chain := (@Chain F).
Local Abbreviation GPChainOptimiser := (@GPChainOptimiser F Archive).

(** [m] is the least of [fs], and [i] is the first place it occurs. *)
Definition first_min_at (fs : list F) (i : nat) (m : F) : Prop :=
  nth_error fs i = Some m /\
  (forall j x, nth_error fs j = Some x -> fit_leb m x = true) /\
  (forall j x, (j < i)%nat -> nth_error fs j = Some x -> fit_leb x m = false).

(** The keys of [l] are all present, and are [fs]. *)
Definition keyed {A : Type} (key : A -> option F) (l : list A)
    (fs : list F) : Prop :=
  map key l = map Some fs.

(** The individual at index [i] has the fitness of [best] and fewer
    nodes. *)
Definition simpler_equivalent (l : list Chain) (best : Chain) (i : nat)
    : Prop :=
  exists c, nth_error l i = Some c /\ fitness c = fitness best /\
            (length (nodes c) < length (nodes best))%nat.

(** What a generation leaves alone before it inherits: the configuration
    and the population with its record. *)
Definition config (s : GPChainOptimiser) :=
  (chain_generation_params s, requirements s, parameters s,
   best_single_model s).

Definition stock (s : GPChainOptimiser) :=
  (population s, individuals (history s), generation_num s, prev_best s).

(** The population a generation hands on: what inheritance returned,
    with the previous best appended under elitism. *)
Definition next_population (multi elitism : bool) (best : Best Archive)
    (next : list Chain) : list Chain :=
  if negb multi && elitism
  then match best with
       | BestChain c => next ++ [c]
       | BestArchive _ => next
       end
  else next.

(** The phases one generation passes, in order: the archive is updated
    when there is one, the depth adjusted under automated depth
    configuration after the first generation. *)
Definition generation_events (archived adjusted : bool) (g : Z)
    (reached : bool) : list Event :=
  (if archived then [ArchiveUpdate] else [])
  ++ StagnationCheck :: (if adjusted then [DepthAdjust] else [])
  ++ [Regularize; Select; Reproduce; EvaluateOffspring;
      Inherit; RecordHistory; BudgetCheck g reached].

(** [pop'] can follow [pop] as the population of the next generation of
    an optimiser configured as [s]: it is what inheritance returned for
    [pop] and some evaluated offspring, with the best of [pop] appended
    under elitism, and in single-objective mode both have a best
    individual. *)
Definition successor {Objective : Type}
    (ops : @Operators F W Archive Objective) (s : GPChainOptimiser)
    (pop pop' : list Chain) : Prop :=
  exists best size elitism new_population next w w',
    (multi_objective (parameters s) = false ->
     exists c, best = BestChain c /\
               get_best_individual pop pop true = Ok c) /\
    (exists offspring objective_function w0,
        evaluate_individuals ops offspring objective_function
          (multi_objective (parameters s)) w0
        = (new_population, w)) /\
    num_of_inds_in_next_pop s = Ok size /\
    with_elitism s = Ok elitism /\
    inheritance ops (genetic_scheme_type (parameters s))
      (selection_types (parameters s)) pop new_population size w
    = (next, w') /\
    pop' = next_population (multi_objective (parameters s)) elitism best
             next /\
    (multi_objective (parameters s) = false ->
     exists c, get_best_individual pop' pop' true = Ok c).

(** Each population of [pops] follows the one before it, from [p0] on. *)
Fixpoint succession (R : list Chain -> list Chain -> Prop)
    (p0 : list Chain) (pops : list (list Chain)) : Prop :=
  match pops with
  | [] => True
  | p :: pops' => R p0 p /\ succession R p pops'
  end.

(** Evaluation leaves no individual without a fitness, and inheritance
    takes the next population from the previous one and the offspring. *)
Definition evaluation_complete {Objective : Type}
    (ops : @Operators F W Archive Objective) : Prop :=
  forall l objective_function multi w c,
    In c (fst (evaluate_individuals ops l objective_function multi w)) ->
    fitness c <> None.

Definition inheritance_selects {Objective : Type}
    (ops : @Operators F W Archive Objective) : Prop :=
  forall scheme sel prev new size w c,
    In c (fst (inheritance ops scheme sel prev new size w)) ->
    In c prev \/ In c new.

(** Fitness [a] is not worse than fitness [b] (lower is better); two
    absent fitness values are as good as each other. *)
Definition not_worse (a b : option F) : Prop :=
  match a, b with
  | Some x, Some y => fit_leb x y = true
  | None, None => True
  | _, _ => False
  end.

Definition is_budget_check (ev : Event) : bool :=
  match ev with
  | BudgetCheck _ _ => true
  | _ => false
  end.

(** The empty initial population is turned down: the construction raises,
    or the run raises before it reaches the evaluation of the initial
    population. *)
Definition empty_population_rejected {Objective : Type}
    (ops : @Operators F W Archive Objective)
    (requirements_ : ComposerRequirements)
    (chain_generation_params_ : ChainGenerationParams)
    (parameters_ : option GPChainOptimiserParameters)
    (archive_type : option Archive) (fuel : nat)
    (objective_function : Objective) (offspring_rate : option Q) (w : W)
    : Prop :=
  (exists e,
      GPChainOptimiser_init (F := F) (Some (chain_list [])) requirements_
        chain_generation_params_ parameters_ archive_type
      = Raise e) \/
  (exists s e m',
      GPChainOptimiser_init (F := F) (Some (chain_list [])) requirements_
        chain_generation_params_ parameters_ archive_type
      = Ok s /\
      optimise ops fuel objective_function offspring_rate
        (mkMachine s w [])
      = Fail e m' /\
      ~ In EvaluateInitial (trace m')).

(** The phases passed by the loop over the generation numbers [gs] when
    it completes [k] generations: each generation passes all its phases,
    and the loop goes on to the next exactly when the budget check of
    the last one said no. *)
Inductive loop_events : list Z -> list Event -> nat -> Prop :=
| loop_exhausted : loop_events [] [] 0
| loop_break (g : Z) (gs : list Z) (archived adjusted : bool) :
    loop_events (g :: gs) (generation_events archived adjusted g true) 1
| loop_continue (g : Z) (gs : list Z) (archived adjusted : bool)
    (evs : list Event) (k : nat) :
    loop_events gs evs k ->
    loop_events (g :: gs)
      (generation_events archived adjusted g false ++ evs) (S k).

(** How the bound on the depth can move between two states of a run:
    upwards only and not above [requirements.max_depth], not at all
    without automated depth configuration; the requirements, the
    parameters and the depth of the generated chains stay. *)
Definition depth_moves (s s' : GPChainOptimiser) : Prop :=
  (max_depth s <= max_depth s')%Z /\
  (max_depth s' <= Z.max (max_depth s) (req_max_depth (requirements s)))%Z /\
  (with_auto_depth_configuration (parameters s) = false ->
   max_depth s' = max_depth s) /\
  generation_depth s' = generation_depth s /\
  requirements s' = requirements s /\
  parameters s' = parameters s.

End Notions.

(** The phases of a generation before the offspring are evaluated. *)
Definition opening_events (archived adjusted : bool) : list Event :=
  (if archived then [ArchiveUpdate] else [])
  ++ StagnationCheck :: (if adjusted then [DepthAdjust] else [])
  ++ [Regularize; Select; Reproduce].

Arguments config {F Archive} s.
Arguments depth_moves {F Archive} s s'.
Arguments stock {F Archive} s.
Arguments next_population {F Archive} multi elitism best next.

(** What a run on the deterministic instance recorded and what its
    checks of the time limit reported: the number of populations in the
    returned history and the budget checks of the trace, in order. *)
Definition recorded_and_checked (s : Sample.optimiser)
    : option (nat * list Event) :=
  match optimise Sample.operators 10 Sample.node_count (Some (1 # 2))
          (Sample.start s) with
  | Done r m' =>
      Some (length (individuals (snd r)), filter is_budget_check (trace m'))
  | _ => None
  end.

(* ================================================================== *)
(** * Properties of the best individual *)

#[export] Instance Z_FitnessTotalOrder : FitnessTotalOrder Z.
Proof.
  split; simpl; intros.
  - destruct (Z.leb_spec a b), (Z.leb_spec b a); auto; lia.
  - apply Z.leb_le. apply Z.leb_le in H, H0. lia.
  - apply Z.leb_le in H, H0. lia.
Qed.

#[export] Instance nat_FitnessTotalOrder : FitnessTotalOrder nat.
Proof.
  split; simpl; intros.
  - destruct (Nat.leb_spec a b), (Nat.leb_spec b a); auto; lia.
  - apply Nat.leb_le. apply Nat.leb_le in H, H0. lia.
  - apply Nat.leb_le in H, H0. lia.
Qed.

Example get_best_ex :
  get_best_individual
    [mkChain [mkNode "a"%string; mkNode "b"%string; mkNode "c"%string] (Some 1%Z);
     mkChain [mkNode "a"%string] (Some 2%Z);
     mkChain [mkNode "a"%string; mkNode "b"%string] (Some 1%Z);
     mkChain [mkNode "k"%string] (Some 1%Z);
     mkChain [mkNode "z"%string] (Some 1%Z)]
    [mkChain [mkNode "a"%string; mkNode "b"%string; mkNode "c"%string] (Some 1%Z);
     mkChain [mkNode "a"%string] (Some 2%Z);
     mkChain [mkNode "a"%string; mkNode "b"%string] (Some 1%Z);
     mkChain [mkNode "k"%string] (Some 1%Z);
     mkChain [mkNode "z"%string] (Some 1%Z)] true
  = Ok (mkChain [mkNode "k"%string] (Some 1%Z)).
Proof. reflexivity. Qed.

Section OrderFacts.

Context {F : Type} `{FO : FitnessOrder F} {FT : FitnessTotalOrder F}
        {AS : ArgSort F} {AC : ArgSortCorrect F}.

Lemma fit_leb_refl (a : F) : fit_leb a a = true.
Proof. destruct (fit_leb_total a a); assumption. Qed.

Lemma fit_leb_false_flip (a b : F) :
  fit_leb a b = false -> fit_leb b a = true.
Proof.
  intros H. destruct (fit_leb_total a b) as [H1 | H1]; congruence.
Qed.

Lemma fit_eqb_eq (a b : F) : fit_eqb a b = true <-> a = b.
Proof.
  unfold fit_eqb. rewrite andb_true_iff. split.
  - intros [H1 H2]. now apply fit_leb_antisym.
  - intros ->. split; apply fit_leb_refl.
Qed.

Lemma is_equal_fitness_eq (a b : option F) :
  is_equal_fitness a b = true <-> a = b.
Proof.
  destruct a as [x |], b as [y |]; simpl; try (split; congruence).
  rewrite fit_eqb_eq. split; congruence.
Qed.


Lemma first_min_at_unique (fs : list F) i m i' m' :
  first_min_at fs i m -> first_min_at fs i' m' -> i = i' /\ m = m'.
Proof.
  intros (Hi & Hle & Hlt) (Hi' & Hle' & Hlt').
  assert (i = i') as <-.
  { destruct (Nat.lt_trichotomy i i') as [Hc | [Hc | Hc]]; [| assumption |].
    - specialize (Hlt' _ _ Hc Hi). specialize (Hle _ _ Hi'). congruence.
    - specialize (Hlt _ _ Hc Hi'). specialize (Hle' _ _ Hi). congruence. }
  split; congruence.
Qed.

Lemma first_min_at_singleton (x : F) : first_min_at [x] 0 x.
Proof.
  repeat split.
  - intros [| [| j]] y Hy; simpl in Hy; try discriminate.
    injection Hy as <-. apply fit_leb_refl.
  - intros j y Hj. lia.
Qed.

(** Appending an element on the right: the minimum moves only when the
    new element is strictly below it. *)
Lemma first_min_at_snoc (fs : list F) i m (x : F) :
  first_min_at fs i m ->
  if fit_ltb x m
  then first_min_at (fs ++ [x]) (length fs) x
  else first_min_at (fs ++ [x]) i m.
Proof.
  intros (Hi & Hle & Hlt). unfold fit_ltb.
  destruct (fit_leb m x) eqn:Hmx; simpl.
  - repeat split.
    + rewrite nth_error_app1; [assumption |].
      apply nth_error_Some. congruence.
    + intros j y Hy.
      destruct (Nat.lt_ge_cases j (length fs)) as [Hj | Hj].
      * rewrite nth_error_app1 in Hy by assumption. eauto.
      * rewrite nth_error_app2 in Hy by assumption.
        destruct (j - length fs)%nat as [| [| k]]; simpl in Hy;
          try discriminate.
        injection Hy as <-. assumption.
    + intros j y Hj Hy.
      assert (j < length fs)%nat.
      { assert (i < length fs)%nat by (apply nth_error_Some; congruence).
        lia. }
      rewrite nth_error_app1 in Hy by assumption. eauto.
  - assert (Hxm : fit_leb x m = true) by now apply fit_leb_false_flip.
    repeat split.
    + rewrite nth_error_app2 by lia. now rewrite Nat.sub_diag.
    + intros j y Hy.
      destruct (Nat.lt_ge_cases j (length fs)) as [Hj | Hj].
      * rewrite nth_error_app1 in Hy by assumption.
        eapply fit_leb_trans; [exact Hxm | eauto].
      * rewrite nth_error_app2 in Hy by assumption.
        destruct (j - length fs)%nat as [| [| k]]; simpl in Hy;
          try discriminate.
        injection Hy as <-. apply fit_leb_refl.
    + intros j y Hj Hy.
      rewrite nth_error_app1 in Hy by assumption.
      destruct (fit_leb y x) eqn:Hyx; [| reflexivity].
      assert (fit_leb m x = true); [| congruence].
      eapply fit_leb_trans; [| exact Hyx]. eauto.
Qed.

(** Adding an element on the left: it becomes the first minimum unless
    the old minimum is strictly below it. *)
Lemma first_min_at_cons (fs : list F) i m (x : F) :
  first_min_at fs i m ->
  if fit_leb x m
  then first_min_at (x :: fs) 0 x
  else first_min_at (x :: fs) (S i) m.
Proof.
  intros (Hi & Hle & Hlt).
  destruct (fit_leb x m) eqn:Hxm.
  - repeat split.
    + intros [| j] y Hy; simpl in Hy.
      * injection Hy as <-. apply fit_leb_refl.
      * eapply fit_leb_trans; [exact Hxm | eauto].
    + intros j y Hj. lia.
  - assert (Hmx : fit_leb m x = true) by now apply fit_leb_false_flip.
    repeat split.
    + exact Hi.
    + intros [| j] y Hy; simpl in Hy.
      * injection Hy as <-. assumption.
      * eauto.
    + intros [| j] y Hj Hy; simpl in Hy.
      * injection Hy as <-. assumption.
      * apply (Hlt j); [lia | assumption].
Qed.

End OrderFacts.

Section MinFacts.

Context {F : Type} `{FO : FitnessOrder F} {FT : FitnessTotalOrder F}
        {AS : ArgSort F} {AC : ArgSortCorrect F}.


Lemma keyed_length {A} (key : A -> option F) l fs :
  keyed key l fs -> length l = length fs.
Proof.
  intros H. apply (f_equal (@length _)) in H.
  now rewrite !length_map in H.
Qed.

Lemma keyed_nth {A} (key : A -> option F) l fs i c :
  keyed key l fs -> nth_error l i = Some c ->
  exists f, nth_error fs i = Some f /\ key c = Some f.
Proof.
  intros H Hc. apply (f_equal (fun l => nth_error l i)) in H.
  rewrite !nth_error_map, Hc in H. simpl in H.
  destruct (nth_error fs i) as [f |]; simpl in H; [| discriminate].
  exists f. split; congruence.
Qed.

Lemma keyed_app {A} (key : A -> option F) l fs l' fs' :
  keyed key l fs -> keyed key l' fs' -> keyed key (l ++ l') (fs ++ fs').
Proof. unfold keyed. intros H H'. now rewrite !map_app, H, H'. Qed.

Lemma keyed_cons_inv {A} (key : A -> option F) x l fs :
  keyed key (x :: l) fs ->
  exists f fs', fs = f :: fs' /\ key x = Some f /\ keyed key l fs'.
Proof.
  unfold keyed. destruct fs as [| f fs']; simpl; intros H; [discriminate |].
  injection H as H1 H2. eauto.
Qed.

Lemma keyed_all_some {A} (key : A -> option F) l fs :
  keyed key l fs -> all_some (map key l) = Some fs.
Proof.
  unfold keyed. intros ->. induction fs as [| f fs IH]; simpl; [reflexivity |].
  now rewrite IH.
Qed.

Lemma all_some_keyed {A} (key : A -> option F) l fs :
  all_some (map key l) = Some fs -> keyed key l fs.
Proof.
  unfold keyed. revert fs. induction l as [| x l IH]; simpl; intros fs H.
  - injection H as <-. reflexivity.
  - destruct (key x) as [f |]; [| discriminate].
    destruct (all_some (map key l)) as [fs' |]; [| discriminate].
    injection H as <-. simpl. now rewrite (IH fs').
Qed.

(** [min] walks the sequence from the left keeping the first minimum of
    what it has seen. *)
Lemma py_min_from_first {A} (key : A -> option F) (rest : list A) :
  forall pre fpre frest best i m,
    keyed key pre fpre -> keyed key rest frest ->
    first_min_at fpre i m -> nth_error pre i = Some best ->
    exists c i' m',
      py_min_from fitness_lt key best rest = Ok c /\
      nth_error (pre ++ rest) i' = Some c /\
      first_min_at (fpre ++ frest) i' m'.
Proof.
  induction rest as [| x rest' IH]; intros pre fpre frest best i m Hpre Hrest Hfm Hb.
  - destruct frest; [| discriminate].
    exists best, i, m. rewrite !app_nil_r. auto.
  - apply keyed_cons_inv in Hrest as (fx & frest' & -> & Hx & Hrest').
    destruct (keyed_nth _ Hpre Hb) as (m0 & Hm0 & Hkb).
    assert (m0 = m) as -> by (destruct Hfm as (Hfm & _); congruence).
    simpl. rewrite Hx, Hkb. simpl.
    pose proof (first_min_at_snoc fx Hfm) as Hsnoc.
    assert (Hk : keyed key (pre ++ [x]) (fpre ++ [fx])).
    { apply keyed_app; [assumption |]. unfold keyed. simpl. now rewrite Hx. }
    replace (pre ++ x :: rest') with ((pre ++ [x]) ++ rest')
      by (now rewrite <- app_assoc).
    replace (fpre ++ fx :: frest') with ((fpre ++ [fx]) ++ frest')
      by (now rewrite <- app_assoc).
    destruct (fit_ltb fx m).
    + eapply IH; eauto.
      rewrite <- (keyed_length Hpre), nth_error_app2 by lia.
      now rewrite Nat.sub_diag.
    + eapply IH; eauto.
      rewrite nth_error_app1; [assumption |].
      apply nth_error_Some. congruence.
Qed.

Lemma py_min_first {A} (key : A -> option F) (l : list A) fs :
  l <> [] -> keyed key l fs ->
  exists c i m,
    py_min fitness_lt key l = Ok c /\
    nth_error l i = Some c /\
    first_min_at fs i m.
Proof.
  intros Hne Hk. destruct l as [| x rest]; [congruence |].
  apply keyed_cons_inv in Hk as (fx & frest & -> & Hx & Hrest).
  simpl.
  apply (@py_min_from_first A key rest [x] [fx] frest x 0%nat fx); auto.
  - unfold keyed. simpl. now rewrite Hx.
  - apply first_min_at_singleton.
Qed.

(** ** Sorting *)

Lemma insert_sorted_perm {A} (x : A * F) l :
  Permutation (insert_sorted x l) (x :: l).
Proof.
  induction l as [| y l IH]; simpl; [reflexivity |].
  destruct (fit_leb (snd x) (snd y)); [reflexivity |].
  rewrite IH. apply perm_swap.
Qed.

Lemma stable_sort_perm {A} (l : list (A * F)) :
  Permutation (stable_sort l) l.
Proof.
  induction l as [| x l IH]; simpl; [reflexivity |].
  rewrite insert_sorted_perm. now constructor.
Qed.

Lemma map_fst_combine {A B} (a : list A) : forall (b : list B),
  length a = length b -> map fst (combine a b) = a.
Proof.
  induction a as [| x a IH]; intros [| y b] H; simpl in *;
    try discriminate; [reflexivity |].
  f_equal. apply IH. lia.
Qed.

(** [argsort] on evaluated individuals returns every index once: after
    the first of them come all the others. *)
Lemma argsort_first {A} (key : A -> option F) (l : list A) fs :
  l <> [] -> keyed key l fs ->
  exists h tl,
    argsort (map key l) = Ok (h :: tl) /\
    (h < length l)%nat /\
    (forall j, In j tl <-> (j < length l)%nat /\ j <> h).
Proof.
  intros Hne Hk.
  assert (Hlen := keyed_length Hk).
  destruct l as [| x [| y l']]; [congruence | |].
  - exists 0%nat, []. simpl. split; [reflexivity |].
    split; [lia |]. intros j. simpl. lia.
  - pose proof (argsort_perm fs) as Hperm.
    destruct (argsort_order fs) as [| h tl] eqn:Hsort.
    { apply Permutation_nil in Hperm.
      destruct fs as [| f fs']; [discriminate | discriminate]. }
    exists h, tl.
    unfold argsort.
    change (map key (x :: y :: l')) with (key x :: key y :: map key l') at 1.
    change (key x :: key y :: map key l') with (map key (x :: y :: l')).
    rewrite (keyed_all_some Hk), Hsort.
    split; [reflexivity |].
    assert (Hnd : NoDup (h :: tl)).
    { eapply Permutation_NoDup; [symmetry; exact Hperm | apply seq_NoDup]. }
    assert (Hrange : forall j, In j (h :: tl) <-> (j < length fs)%nat).
    { intros j. split.
      - intros Hj. eapply Permutation_in in Hj; [| exact Hperm].
        apply in_seq in Hj. lia.
      - intros Hj. eapply Permutation_in; [symmetry; exact Hperm |].
        apply in_seq. lia. }
    rewrite Hlen. split; [apply Hrange; now left |].
    intros j. split.
    + intros Hj. split; [apply Hrange; now right |].
      intros ->. inversion Hnd; contradiction.
    + intros [Hj Hne'].
      apply Hrange in Hj as [Hj | Hj]; [congruence | assumption].
Qed.

End MinFacts.

(* ================================================================== *)
(** * The two sorting routines are sorting routines *)

Section SortFacts.

Context {F : Type} `{FO : FitnessOrder F} {FT : FitnessTotalOrder F}.

Local Abbreviation by_key :=
  (fun p q : nat * F => fit_leb (snd p) (snd q) = true).

Lemma insert_sorted_sorted (x : nat * F) (l : list (nat * F)) :
  StronglySorted by_key l -> StronglySorted by_key (insert_sorted x l).
Proof.
  induction 1 as [| y l Hl IH Hy]; simpl.
  - repeat constructor.
  - destruct (fit_leb (snd x) (snd y)) eqn:Hxy.
    + constructor; [constructor; assumption |].
      constructor; [exact Hxy |].
      rewrite Forall_forall in Hy |- *. intros z Hz.
      eapply fit_leb_trans; [exact Hxy | exact (Hy z Hz)].
    + constructor; [assumption |].
      rewrite Forall_forall in Hy |- *. intros z Hz.
      apply (Permutation_in _ (insert_sorted_perm x l)) in Hz.
      destruct Hz as [<- | Hz]; [| exact (Hy z Hz)].
      destruct (fit_leb_total (snd x) (snd y)); congruence.
Qed.

Lemma stable_sort_sorted (l : list (nat * F)) :
  StronglySorted by_key (stable_sort l).
Proof.
  induction l as [| x l IH]; simpl; [constructor |].
  now apply insert_sorted_sorted.
Qed.

Lemma StronglySorted_nth (l : list (nat * F)) :
  StronglySorted by_key l ->
  forall i j p q,
    (i < j)%nat -> nth_error l i = Some p -> nth_error l j = Some q ->
    fit_leb (snd p) (snd q) = true.
Proof.
  induction 1 as [| y l Hl IH Hy]; intros i j p q Hij Hp Hq.
  - destruct i; discriminate.
  - destruct j as [| j]; [lia |]. simpl in Hq.
    destruct i as [| i].
    + simpl in Hp. injection Hp as <-.
      rewrite Forall_forall in Hy. apply Hy.
      eapply nth_error_In; eassumption.
    + simpl in Hp. apply (IH i j); [lia | assumption | assumption].
Qed.

Lemma combine_seq_In (fs : list F) :
  forall s a x,
    In (a, x) (combine (seq s (length fs)) fs) ->
    (s <= a)%nat /\ nth_error fs (a - s) = Some x.
Proof.
  induction fs as [| f fs IH]; intros s a x Hin; [destruct Hin |].
  simpl in Hin. destruct Hin as [E | Hin].
  - injection E as <- <-. rewrite Nat.sub_diag. auto.
  - apply IH in Hin as (Hle & Hn).
    split; [lia |].
    replace (a - s)%nat with (S (a - S s)) by lia. exact Hn.
Qed.

(** The indices of pairs of an index and its key, sorted by key. *)
Lemma sorted_pairs_order (fs : list F) (l : list (nat * F)) :
  (forall a x, In (a, x) l -> nth_error fs a = Some x) ->
  forall i j a b x y,
    (i <= j)%nat ->
    nth_error (map fst (stable_sort l)) i = Some a ->
    nth_error (map fst (stable_sort l)) j = Some b ->
    nth_error fs a = Some x -> nth_error fs b = Some y ->
    fit_leb x y = true.
Proof.
  intros Hpairs i j a b x y Hij Ha Hb Hx Hy.
  rewrite nth_error_map in Ha, Hb.
  destruct (nth_error (stable_sort l) i) as [[a' x'] |] eqn:Hp;
    [| discriminate].
  destruct (nth_error (stable_sort l) j) as [[b' y'] |] eqn:Hq;
    [| discriminate].
  simpl in Ha, Hb. injection Ha as ->. injection Hb as ->.
  assert (Hx' : nth_error fs a = Some x').
  { apply Hpairs. apply (Permutation_in _ (stable_sort_perm l)).
    eapply nth_error_In; eassumption. }
  assert (Hy' : nth_error fs b = Some y').
  { apply Hpairs. apply (Permutation_in _ (stable_sort_perm l)).
    eapply nth_error_In; eassumption. }
  assert (x' = x) as -> by congruence.
  assert (y' = y) as -> by congruence.
  destruct (Nat.eq_dec i j) as [-> | Hne].
  - assert (x = y) as -> by congruence. apply fit_leb_refl.
  - apply (StronglySorted_nth (stable_sort_sorted l) (i := i) (j := j)
             (p := (a, x)) (q := (b, y))); [lia | assumption | assumption].
Qed.

Lemma indexed_pairs (fs : list F) (a : nat) (x : F) :
  In (a, x) (combine (seq 0 (length fs)) fs) -> nth_error fs a = Some x.
Proof.
  intros Hin. apply combine_seq_In in Hin as (_ & Hn).
  now rewrite Nat.sub_0_r in Hn.
Qed.

Lemma stable_order_perm (fs : list F) :
  Permutation (stable_order fs) (seq 0 (length fs)).
Proof.
  unfold stable_order.
  rewrite <- (map_fst_combine (seq 0 (length fs)) fs) at 2
    by apply length_seq.
  apply Permutation_map, stable_sort_perm.
Qed.

Lemma ties_reversed_order_perm (fs : list F) :
  Permutation (ties_reversed_order fs) (seq 0 (length fs)).
Proof.
  unfold ties_reversed_order.
  rewrite <- (map_fst_combine (seq 0 (length fs)) fs) at 2
    by apply length_seq.
  apply Permutation_map. rewrite stable_sort_perm.
  symmetry. apply Permutation_rev.
Qed.

End SortFacts.

#[export] Instance Z_ArgSortCorrect : ArgSortCorrect Z.
Proof.
  split.
  - intros fs. apply stable_order_perm.
  - intros fs. apply sorted_pairs_order. apply indexed_pairs.
Qed.

Lemma ties_reversed_correct : @ArgSortCorrect Z _ ties_reversed.
Proof.
  split.
  - intros fs. apply ties_reversed_order_perm.
  - intros fs. apply sorted_pairs_order.
    intros a x Hin. apply in_rev in Hin. now apply indexed_pairs.
Qed.

Section DictFacts.

Lemma dict_keys_set (d : dict) (k v k' : nat) :
  In k' (dict_keys (dict_set d k v)) <-> In k' (dict_keys d) \/ k' = k.
Proof.
  unfold dict_keys. induction d as [| [k0 v0] d IH]; simpl.
  - intuition congruence.
  - destruct (Nat.eqb_spec k0 k) as [-> | Hne]; simpl.
    + intuition congruence.
    + rewrite IH. tauto.
Qed.

Lemma dict_get_set (d : dict) (k v k' : nat) :
  dict_get (dict_set d k v) k'
  = if Nat.eqb k k' then Some v else dict_get d k'.
Proof.
  induction d as [| [k0 v0] d IH]; simpl; [reflexivity |].
  destruct (Nat.eqb_spec k0 k) as [-> | Hne]; simpl.
  - destruct (Nat.eqb k k'); reflexivity.
  - rewrite IH. destruct (Nat.eqb_spec k0 k'), (Nat.eqb_spec k k');
      try reflexivity; congruence.
Qed.

Lemma dict_get_key (d : dict) (k : nat) :
  In k (dict_keys d) -> exists v, dict_get d k = Some v.
Proof.
  unfold dict_keys. induction d as [| [k0 v0] d IH]; simpl; [tauto |].
  intros [-> | Hin].
  - rewrite Nat.eqb_refl. eauto.
  - destruct (Nat.eqb k0 k); eauto.
Qed.

Lemma dict_values_keyed (d : dict) (ks : list nat) :
  (forall k, In k ks -> In k (dict_keys d)) ->
  exists vs, keyed (dict_get d) ks vs.
Proof.
  unfold keyed. induction ks as [| k ks IH]; intros H.
  - now exists [].
  - destruct IH as (vs & Hvs); [intros; apply H; now right |].
    destruct (dict_get_key d k) as (v & Hv); [apply H; now left |].
    exists (v :: vs). simpl. now rewrite Hv, Hvs.
Qed.

Lemma py_min_from_ext {A K} (lt lt' : K -> K -> res bool) (key : A -> K)
    (rest : list A) :
  (forall a b, lt a b = lt' a b) ->
  forall best, py_min_from lt key best rest = py_min_from lt' key best rest.
Proof.
  intros H. induction rest as [| x rest IH]; intros best; simpl;
    [reflexivity |].
  rewrite H. destruct (lt' (key x) (key best)) as [[|] | e]; auto.
Qed.

Lemma opt_nat_lt_fitness_lt (a b : option nat) :
  opt_nat_lt a b = fitness_lt a b.
Proof.
  destruct a as [x |], b as [y |]; simpl; try reflexivity.
  unfold fit_ltb. simpl. now rewrite Nat.ltb_antisym.
Qed.

(** The least value of a non-empty dictionary is found at one of its
    keys. *)
Lemma dict_min_key (d : dict) :
  d <> [] ->
  exists k m,
    py_min opt_nat_lt (dict_get d) (dict_keys d) = Ok k /\
    In k (dict_keys d) /\
    dict_get d k = Some m /\
    (forall k' v', dict_get d k' = Some v' -> In k' (dict_keys d) ->
                   (m <= v')%nat).
Proof.
  intros Hne.
  destruct (dict_values_keyed d (dict_keys d)) as (vs & Hvs); [auto |].
  assert (Hkne : dict_keys d <> []) by (destruct d; [congruence | discriminate]).
  destruct (py_min_first Hkne Hvs) as (k & i & m & Hmin & Hnth & Hfm).
  exists k, m.
  destruct (keyed_nth _ Hvs Hnth) as (m0 & Hm0 & Hget).
  assert (m0 = m) as -> by (destruct Hfm as (Hfm & _); congruence).
  split; [| split; [| split]].
  - destruct (dict_keys d) as [| k0 ks]; [congruence |]. simpl in *.
    rewrite <- Hmin. apply py_min_from_ext. apply opt_nat_lt_fitness_lt.
  - eapply nth_error_In; eassumption.
  - assumption.
  - intros k' v' Hget' Hin.
    apply In_nth_error in Hin as (j & Hj).
    destruct (keyed_nth _ Hvs Hj) as (v0 & Hv0 & Hget0).
    assert (v0 = v') as -> by congruence.
    destruct Hfm as (_ & Hle & _). specialize (Hle _ _ Hv0).
    simpl in Hle. now apply Nat.leb_le.
Qed.

End DictFacts.

Section BestIndividual.

Context {F : Type} `{FO : FitnessOrder F} {FT : FitnessTotalOrder F}
        {AS : ArgSort F} {AC : ArgSortCorrect F}.

Local Abbreviation Chain := (@Chain F).


Lemma simpler_equivalents_loop_spec (l : list Chain) (best : Chain)
    (sort_inds : list nat) :
  forall d,
    (forall i, In i sort_inds -> (i < length l)%nat) ->
    exists d',
      simpler_equivalents_loop l best sort_inds d = Ok d' /\
      (forall k, In k (dict_keys d') <->
                 In k (dict_keys d) \/
                 (In k sort_inds /\ simpler_equivalent l best k)) /\
      (forall k v, dict_get d' k = Some v ->
                   dict_get d k = Some v \/
                   exists c, nth_error l k = Some c /\
                             v = length (nodes c)).
Proof.
  induction sort_inds as [| i rest IH]; intros d Hin.
  - exists d. simpl. split; [reflexivity |]. split; [tauto | auto].
  - assert (Hi : (i < length l)%nat) by (apply Hin; now left).
    destruct (nth_error l i) as [c |] eqn:Hc;
      [| apply nth_error_None in Hc; lia].
    assert (Hrest : forall j, In j rest -> (j < length l)%nat)
      by (intros; apply Hin; now right).
    simpl. unfold py_index. rewrite Hc. simpl.
    destruct (is_equal_fitness (fitness best) (fitness c)
              && (length (nodes c) <? length (nodes best))%nat) eqn:Hb.
    + apply andb_true_iff in Hb as [Heq Hlt].
      apply is_equal_fitness_eq in Heq. apply Nat.ltb_lt in Hlt.
      destruct (IH (dict_set d i (length (nodes c))) Hrest)
        as (d' & Hrun & Hkeys & Hvals).
      exists d'. split; [assumption |]. split.
      * intros k. rewrite Hkeys, dict_keys_set. simpl. split.
        -- intros [[H | ->] | [H1 H2]]; auto.
           right. split; [now left |]. exists c. auto.
        -- intros [H | [[<- | H1] H2]]; auto.
      * intros k v Hget. apply Hvals in Hget as [Hget | Hget]; [| now right].
        rewrite dict_get_set in Hget.
        destruct (Nat.eqb_spec i k) as [<- | Hne]; [| now left].
        right. exists c. split; congruence.
    + destruct (IH d Hrest) as (d' & Hrun & Hkeys & Hvals).
      exists d'. split; [assumption |]. split; [| assumption].
      intros k. rewrite Hkeys. simpl. split.
      * intros [H | [H1 H2]]; auto.
      * intros [H | [[<- | H1] H2]]; auto.
        destruct H2 as (c' & Hc' & Hfit & Hlt).
        assert (c' = c) as -> by congruence.
        apply andb_false_iff in Hb as [Hb | Hb].
        -- assert (is_equal_fitness (fitness best) (fitness c) = true)
             by now apply is_equal_fitness_eq.
           congruence.
        -- apply Nat.ltb_ge in Hb. lia.
Qed.

Lemma evaluated_keyed (l : list Chain) :
  (forall c, In c l -> fitness c <> None) ->
  exists fs, keyed fitness l fs.
Proof.
  unfold keyed. induction l as [| c l IH]; intros H.
  - now exists [].
  - destruct IH as (fs & Hfs); [intros; apply H; now right |].
    destruct (fitness c) as [f |] eqn:Hf.
    + exists (f :: fs). simpl. now rewrite Hf, Hfs.
    + exfalso. apply (H c); [now left | assumption].
Qed.

End BestIndividual.

Section BestIndividualSpec.

Context {F : Type} `{FO : FitnessOrder F} {FT : FitnessTotalOrder F}
        {AS : ArgSort F} {AC : ArgSortCorrect F}.

Local Abbreviation Chain := (@Chain F).

(** What [get_best_individual] returns when the equivalents are sought
    in the list it is given: an individual of the least fitness, with no
    more nodes than the first individual of that fitness ([b], the one
    [min] finds) and than any other individual of that fitness, except
    possibly the one whose index [argsort] puts first ([h]), which the
    slice [[1:]] leaves out. *)
Lemma get_best_individual_spec (population l : list Chain) (flag : bool)
    (fs : list F) :
  l <> [] -> keyed fitness l fs ->
  (flag = true -> population = l) ->
  exists best m b ib h tl k,
    get_best_individual population l flag = Ok best /\
    In best l /\
    fitness best = Some m /\
    (forall f, In f fs -> fit_leb m f = true) /\
    nth_error l ib = Some b /\
    first_min_at fs ib m /\
    (length (nodes best) <= length (nodes b))%nat /\
    argsort (map fitness l) = Ok (h :: tl) /\
    (forall j c, j <> h -> nth_error l j = Some c -> fitness c = Some m ->
                 (length (nodes best) <= length (nodes c))%nat) /\
    nth_error l k = Some best /\
    (k = ib \/ k <> h).
Proof.
  intros Hne Hk Hpop.
  destruct (py_min_first Hne Hk) as (b & ib & m & Hmin & Hb & Hfm).
  destruct (argsort_first Hne Hk) as (h & tl & Hsort & Hh & Htl).
  destruct (keyed_nth _ Hk Hb) as (m0 & Hm0 & Hfb).
  assert (m0 = m) as -> by (destruct Hfm as (Hfm & _); congruence).
  assert (Hmin_all : forall f, In f fs -> fit_leb m f = true).
  { intros f Hf. apply In_nth_error in Hf as (j & Hj).
    destruct Hfm as (_ & Hle & _). eauto. }
  assert (Heqv :
    (if flag
     then simpler_equivalents_of_best_ind population b None
     else simpler_equivalents_of_best_ind population b (Some l))
    = simpler_equivalents_loop l b tl []).
  { unfold simpler_equivalents_of_best_ind.
    destruct flag; [rewrite (Hpop eq_refl) |]; now rewrite Hsort. }
  destruct (simpler_equivalents_loop_spec l b tl [])
    as (d & Hrun & Hkeys & Hvals).
  { intros i Hi. now apply Htl in Hi. }
  unfold get_best_individual. rewrite Hmin. simpl res_bind.
  rewrite Heqv, Hrun. simpl res_bind.
  assert (Hother : forall j c, nth_error l j = Some c ->
            fitness c = Some m -> j <> h ->
            ~ In j (dict_keys d) ->
            (length (nodes b) <= length (nodes c))%nat).
  { intros j c Hj Hfc Hne' Hnot.
    destruct (Nat.le_gt_cases (length (nodes b)) (length (nodes c)))
      as [Hle | Hgt]; [assumption |].
    exfalso. apply Hnot, Hkeys. right. split.
    - apply Htl. split; [| assumption].
      apply nth_error_Some. congruence.
    - exists c. repeat split; [assumption | congruence | assumption]. }
  assert (Hcase : d = [] \/ d <> [])
    by (destruct d; [left | right]; congruence).
  destruct Hcase as [-> | Hdne].
  - exists b, m, b, ib, h, tl, ib. split; [reflexivity |].
    split; [eapply nth_error_In; eassumption |].
    split; [assumption |]. split; [assumption |].
    split; [assumption |]. split; [assumption |].
    split; [lia |]. split; [assumption |].
    split; [| split; [assumption | now left]].
    intros j c Hne' Hj Hfc. apply (Hother j c); auto.
  - assert (Hm : forall X Y : res Chain,
              match d with [] => X | _ :: _ => Y end = Y)
      by (destruct d; [congruence | reflexivity]).
    rewrite Hm. clear Hm.
    destruct (dict_min_key Hdne) as (k & v & Hk1 & Hk2 & Hk3 & Hk4).
    assert (Hse : simpler_equivalent l b k).
    { apply Hkeys in Hk2 as [Hk2 | [_ Hk2]]; [destruct Hk2 | assumption]. }
    destruct Hse as (ck & Hck & Hfck & Hltk).
    assert (Hv : v = length (nodes ck)).
    { apply Hvals in Hk3 as [Hk3 | (c' & Hc' & ->)]; [discriminate |].
      congruence. }
    assert (Hkh : k <> h).
    { apply Hkeys in Hk2 as [Hk2 | [Hk2 _]]; [destruct Hk2 |].
      now apply Htl in Hk2. }
    exists ck, m, b, ib, h, tl, k.
    rewrite Hk1. simpl res_bind. unfold py_index. rewrite Hck.
    split; [reflexivity |].
    split; [eapply nth_error_In; eassumption |].
    split; [congruence |]. split; [assumption |].
    split; [assumption |]. split; [assumption |].
    split; [lia |]. split; [assumption |].
    split; [| split; [reflexivity | now right]].
    intros j c Hne' Hj Hfc.
    destruct (in_dec Nat.eq_dec j (dict_keys d)) as [Hin | Hnot].
    + destruct (dict_get_key d j Hin) as (vj & Hvj).
      specialize (Hk4 _ _ Hvj Hin).
      apply Hvals in Hvj as [Hvj | (c' & Hc' & ->)]; [discriminate |].
      assert (c' = c) as -> by congruence. lia.
    + specialize (Hother j c Hj Hfc Hne' Hnot). lia.
Qed.

End BestIndividualSpec.

(* ================================================================== *)
(** * Reasoning about runs *)

Section RunFacts.

Context {F : Type} `{FO : FitnessOrder F} {FT : FitnessTotalOrder F}
        {AS : ArgSort F} {AC : ArgSortCorrect F}.
Variables W Archive Objective : Type.

Local Abbreviation Chain := (@Chain F).
Local Abbreviation Machine := (@Machine F W Archive).
Local Abbreviation M := (M Machine).
Local Abbreviation GPChainOptimiser := (@GPChainOptimiser F Archive).

Variable ops : @Operators F W Archive Objective.

Local Open Scope opt_scope.

Lemma bind_Done {A B} (c : M A) (k : A -> M B) (m m' : Machine) (b : B) :
  bind c k m = Done b m' ->
  exists a m1, c m = Done a m1 /\ k a m1 = Done b m'.
Proof.
  unfold bind. destruct (c m) as [a m1 | e m1 |]; try discriminate. eauto.
Qed.

Lemma ret_Done {A} (a b : A) (m m' : Machine) :
  ret a m = Done b m' -> b = a /\ m' = m.
Proof. unfold ret. intros H. injection H as <- <-. auto. Qed.

Lemma lift_Done {A} (r : res A) (a : A) (m m' : Machine) :
  lift r m = Done a m' -> r = Ok a /\ m' = m.
Proof.
  unfold lift. destruct r; intros H; [| discriminate].
  injection H as <- <-. auto.
Qed.

Lemma get_Done (s : GPChainOptimiser) (m m' : Machine) :
  get m = Done s m' -> s = self m /\ m' = m.
Proof. unfold get. intros H. injection H as <- <-. auto. Qed.

Lemma now_Done (w : W) (m m' : Machine) :
  now m = Done w m' -> w = world m /\ m' = m.
Proof. unfold now. intros H. injection H as <- <-. auto. Qed.

Lemma modify_Done (f : GPChainOptimiser -> GPChainOptimiser) (u : unit)
    (m m' : Machine) :
  modify f m = Done u m' ->
  m' = mkMachine (f (self m)) (world m) (trace m).
Proof. unfold modify. intros H. injection H as _ <-. reflexivity. Qed.

Lemma emit_Done (ev : Event) (u : unit) (m m' : Machine) :
  emit ev m = Done u m' ->
  m' = mkMachine (self m) (world m) (trace m ++ [ev]).
Proof. unfold emit. intros H. injection H as _ <-. reflexivity. Qed.

Lemma ext_Done {A} (f : W -> A * W) (a : A) (m m' : Machine) :
  ext f m = Done a m' ->
  exists w, f (world m) = (a, w) /\ m' = mkMachine (self m) w (trace m).
Proof.
  unfold ext. destruct (f (world m)) as [a0 w] eqn:E. intros H.
  injection H as <- <-. eauto.
Qed.

Lemma raise_Done {A} (e : exn) (a : A) (m m' : Machine) :
  raise e m = Done a m' -> False.
Proof. discriminate. Qed.

Lemma out_of_fuel_Done {A} (a : A) (m m' : Machine) :
  out_of_fuel m = Done a m' -> False.
Proof. discriminate. Qed.

End RunFacts.

Arguments bind : simpl never.
Arguments ret : simpl never.
Arguments raise : simpl never.
Arguments out_of_fuel : simpl never.
Arguments lift : simpl never.
Arguments get : simpl never.
Arguments modify : simpl never.
Arguments now : simpl never.
Arguments ext : simpl never.
Arguments emit : simpl never.

(** Takes a completed run apart, statement by statement. *)
Ltac run_step H :=
  lazymatch type of H with
  | bind _ _ _ = Done _ _ =>
      let a := fresh "a" in
      let m1 := fresh "m" in
      let H1 := fresh "R" in
      apply bind_Done in H; destruct H as (a & m1 & H1 & H);
      cbv beta in H; run_step H1
  | ret _ _ = Done _ _ =>
      apply ret_Done in H; destruct H as [? ?]; subst
  | lift _ _ = Done _ _ =>
      apply lift_Done in H;
      let E := fresh "E" in destruct H as [E ?]; subst
  | get _ = Done _ _ =>
      apply get_Done in H; destruct H as [? ?]; subst
  | now _ = Done _ _ =>
      apply now_Done in H; destruct H as [? ?]; subst
  | modify _ _ = Done _ _ =>
      apply modify_Done in H; subst
  | emit _ _ = Done _ _ =>
      apply emit_Done in H; subst
  | ext _ _ = Done _ _ =>
      let w := fresh "w" in
      let E := fresh "X" in
      apply ext_Done in H; destruct H as (w & E & ?); subst
  | Done _ _ = Done _ _ => injection H as ? ?; subst
  | Fail _ _ = Done _ _ => discriminate H
  | OutOfFuel = Done _ _ => discriminate H
  | raise _ _ = Done _ _ => exfalso; exact (raise_Done H)
  | out_of_fuel _ = Done _ _ => exfalso; exact (out_of_fuel_Done H)
  | _ => idtac
  end.

Ltac run_steps H := repeat (progress (run_step H)); try (simpl in H).

Section PhaseFacts.

Context {F : Type} `{FO : FitnessOrder F} {FT : FitnessTotalOrder F}
        {AS : ArgSort F} {AC : ArgSortCorrect F}.
Variables W Archive Objective : Type.

Local Abbreviation Chain := (@Chain F).
Local Abbreviation Machine := (@Machine F W Archive).
Local Abbreviation M := (M Machine).
Local Abbreviation GPChainOptimiser := (@GPChainOptimiser F Archive).

Variable ops : @Operators F W Archive Objective.

Local Open Scope opt_scope.

Lemma best_individual_single (s : GPChainOptimiser) (b : Best Archive) :
  multi_objective (parameters s) = false ->
  best_individual s = Ok b ->
  exists pop c,
    population s = Some pop /\
    get_best_individual pop pop true = Ok c /\
    b = BestChain c.
Proof.
  unfold best_individual, the_population. intros -> H.
  destruct (population s) as [pop |]; simpl in H; [| discriminate].
  destruct (get_best_individual pop pop true) as [c | e] eqn:Hc;
    simpl in H; [| discriminate].
  injection H as <-. eauto.
Qed.

Lemma best_individual_multi (s : GPChainOptimiser) :
  multi_objective (parameters s) = true ->
  best_individual s = Ok (BestArchive (archive s)).
Proof. unfold best_individual. now intros ->. Qed.

Lemma mapM_ext_frame {A B} (f : A -> W -> B * W) (l : list A) :
  forall (m m' : Machine) (r : list B),
    mapM (fun x => ext (f x)) l m = Done r m' ->
    self m' = self m /\ trace m' = trace m /\ length r = length l.
Proof.
  induction l as [| x l IH]; intros m m' r H; simpl in H.
  - run_steps H. auto.
  - run_steps H.
    match goal with
    | R : mapM _ _ _ = Done _ _ |- _ => apply IH in R as (-> & -> & Hlen)
    end.
    simpl. auto.
Qed.

Lemma reproduce_frame (first : Chain) (second : option Chain)
    (m m' : Machine) (r : list Chain) :
  reproduce ops first second m = Done r m' ->
  self m' = self m /\ trace m' = trace m.
Proof.
  unfold reproduce. intros H.
  apply bind_Done in H as (s & m1 & Hs & H). run_step Hs.
  apply bind_Done in H as (new_inds & m2 & Hn & H).
  apply mapM_ext_frame in H as (-> & -> & _).
  destruct second as [snd_ |]; run_step Hn; auto.
Qed.

Lemma reproduction_loop_frame (selected : list Chain)
    (parent_nums : list nat) :
  forall (acc : list Chain) (m m' : Machine) (r : list Chain),
    reproduction_loop ops selected parent_nums acc m = Done r m' ->
    self m' = self m /\ trace m' = trace m.
Proof.
  induction parent_nums as [| i rest IH]; intros acc m m' r H; simpl in H.
  - run_steps H. auto.
  - apply bind_Done in H as (first & m1 & H1 & H). run_step H1.
    apply bind_Done in H as (second & m2 & H2 & H). run_step H2.
    apply bind_Done in H as (new_inds & m3 & H3 & H).
    apply reproduce_frame in H3 as (E1 & E2).
    apply IH in H as (-> & ->). auto.
Qed.

Lemma add_to_history_Done (inds : list Chain) (u : unit) (m m' : Machine) :
  add_to_history inds m = Done u m' ->
  m' = mkMachine
         (with_history (self m)
            (mkHistory (individuals (history (self m)) ++ [inds])
               (archive_history (history (self m)))))
         (world m) (trace m ++ [RecordHistory]).
Proof. unfold add_to_history. intros H. run_steps H. reflexivity. Qed.

Lemma log_info_about_best_Done (u : unit) (m m' : Machine) :
  log_info_about_best m = Done u m' ->
  m' = m /\
  (multi_objective (parameters (self m)) = false ->
   exists c, best_individual (self m) = Ok (BestChain c)).
Proof.
  unfold log_info_about_best. intros H. run_steps H.
  destruct (multi_objective (parameters (self m))) eqn:Hmo.
  - destruct (archive (self m)); run_steps H. split; [reflexivity | discriminate].
  - run_steps H. split; [reflexivity |]. intros _.
    match goal with
    | E : best_individual _ = Ok _ |- _ =>
        destruct (best_individual_single _ Hmo E) as (pop & c & _ & _ & ->)
    end.
    eauto.
Qed.

Lemma budget_check_Done (t : W) (b : bool) (m m' : Machine) :
  budget_check ops t m = Done b m' ->
  b = is_time_limit_reached ops t (max_lead_time (requirements (self m)))
        (generation_num (self m)) (world m) /\
  m' = mkMachine (self m) (world m)
         (trace m ++ [BudgetCheck (generation_num (self m)) b]).
Proof. unfold budget_check. intros H. run_steps H. auto. Qed.

Lemma breed_Done (objective_function : Objective) (n : Z)
    (new_population : list Chain) (m m' : Machine) :
  breed ops objective_function n m = Done new_population m' ->
  self m' = self m /\
  trace m' = trace m ++ [Regularize; Select; Reproduce; EvaluateOffspring] /\
  exists offspring w0,
    evaluate_individuals ops offspring objective_function
      (multi_objective (parameters (self m))) w0
    = (new_population, world m').
Proof.
  unfold breed. intros H. run_steps H.
  match goal with
  | R : reproduction_loop _ _ _ _ _ = Done _ _ |- _ =>
      apply reproduction_loop_frame in R as (E1 & E2); simpl in E1, E2
  end.
  simpl. rewrite E1, E2.
  split; [reflexivity |]. split; [now rewrite <- !app_assoc |].
  eauto.
Qed.



Lemma update_archive_Done (u : unit) (m m' : Machine) :
  update_archive ops m = Done u m' ->
  config (self m') = config (self m) /\
  stock (self m') = stock (self m) /\
  max_depth (self m') = max_depth (self m) /\
  num_of_gens_without_improvements (self m')
  = num_of_gens_without_improvements (self m) /\
  world m' = world m /\
  exists archived : bool,
    trace m' = trace m ++ (if archived then [ArchiveUpdate] else []).
Proof.
  unfold update_archive. intros H.
  apply bind_Done in H as (s & m1 & Hs & H). run_step Hs.
  destruct (archive (self m)) as [a |].
  - run_steps H. repeat split; try reflexivity. now exists true.
  - run_step H. repeat split; try reflexivity. exists false.
    now rewrite app_nil_r.
Qed.

Lemma update_stagnation_counter_Done (v : Z) (m m' : Machine) :
  update_stagnation_counter ops m = Done v m' ->
  m' = m /\
  (v = 0%Z \/
   generation_num (self m) <> 0%Z /\
   num_of_gens_without_improvements (self m) = Some (v - 1)%Z).
Proof.
  unfold update_stagnation_counter. intros H.
  apply bind_Done in H as (s & m1 & Hs & H). run_step Hs.
  destruct (Z.eqb_spec (generation_num (self m)) 0) as [Hg | Hg];
    simpl in H.
  - run_step H. auto.
  - apply bind_Done in H as (equal_best & m1 & He & H).
    assert (m1 = m) as ->.
    { destruct (multi_objective (parameters (self m)));
        destruct (prev_best (self m)); run_steps He; reflexivity. }
    destruct equal_best.
    + destruct (num_of_gens_without_improvements (self m)) as [n |];
        run_step H.
      split; [reflexivity |]. right. split; [assumption |].
      f_equal. lia.
    + run_step H. auto.
Qed.

Lemma max_depth_recount_Done (u : unit) (m m' : Machine) :
  max_depth_recount m = Done u m' ->
  exists n,
    num_of_gens_without_improvements (self m) = Some n /\
    m' = mkMachine
           (with_max_depth (self m)
              (if (n =? depth_increase_step (parameters (self m)))%Z
                  && (max_depth (self m) + 1
                      <=? req_max_depth (requirements (self m)))%Z
               then (max_depth (self m) + 1)%Z
               else max_depth (self m)))
           (world m) (trace m).
Proof.
  unfold max_depth_recount. intros H.
  apply bind_Done in H as (s & m1 & Hs & H). run_step Hs.
  destruct (num_of_gens_without_improvements (self m)) as [n |];
    [| run_step H].
  exists n. split; [reflexivity |].
  destruct ((n =? depth_increase_step (parameters (self m)))%Z
            && (max_depth (self m) + 1
                <=? req_max_depth (requirements (self m)))%Z);
    run_step H; [reflexivity |].
  destruct m as [[] ? ?]. reflexivity.
Qed.

Lemma adapt_depth_Done (u : unit) (m m' : Machine) :
  adapt_depth ops m = Done u m' ->
  config (self m') = config (self m) /\
  stock (self m') = stock (self m) /\
  archive (self m') = archive (self m) /\
  world m' = world m /\
  exists adjusted : bool,
    trace m' = trace m ++ StagnationCheck
                 :: (if adjusted then [DepthAdjust] else []).
Proof.
  unfold adapt_depth. intros H.
  apply bind_Done in H as (u0 & m1 & H0 & H). run_step H0.
  apply bind_Done in H as (v & m1 & Hv & H).
  apply update_stagnation_counter_Done in Hv as (-> & _).
  apply bind_Done in H as (u1 & m1 & H1 & H). run_step H1.
  apply bind_Done in H as (s & m1 & Hs & H). run_step Hs. simpl in H.
  destruct (with_auto_depth_configuration (parameters (self m))
            && negb (generation_num (self m) =? 0)%Z).
  - apply bind_Done in H as (u2 & m1 & H2 & H). run_step H2.
    apply max_depth_recount_Done in H as (n & _ & ->). simpl.
    repeat split; try reflexivity. exists true.
    now rewrite <- app_assoc.
  - run_step H. simpl. repeat split; try reflexivity. now exists false.
Qed.


Lemma with_elitism_config (s s' : GPChainOptimiser) :
  config s' = config s -> with_elitism s' = with_elitism s.
Proof.
  unfold config, with_elitism, req_pop_size. intros H.
  injection H as _ -> -> _. reflexivity.
Qed.

Lemma num_of_inds_in_next_pop_config (s s' : GPChainOptimiser) :
  config s' = config s ->
  num_of_inds_in_next_pop s' = num_of_inds_in_next_pop s.
Proof.
  intros H. unfold num_of_inds_in_next_pop.
  rewrite (with_elitism_config H). unfold config in H.
  unfold req_pop_size. injection H as _ -> -> _. reflexivity.
Qed.


Lemma inherit_Done (new_population : list Chain) (u : unit)
    (m m' : Machine) :
  inherit ops new_population m = Done u m' ->
  exists pop best size elitism next,
    population (self m) = Some pop /\
    best_individual (self m) = Ok best /\
    num_of_inds_in_next_pop (self m) = Ok size /\
    with_elitism (self m) = Ok elitism /\
    inheritance ops (genetic_scheme_type (parameters (self m)))
      (selection_types (parameters (self m))) pop new_population size
      (world m) = (next, world m') /\
    let pop' := next_population (multi_objective (parameters (self m)))
                  elitism best next in
    self m'
    = with_history
        (with_population (with_prev_best (self m) (Some best)) (Some pop'))
        (mkHistory (individuals (history (self m)) ++ [pop'])
           (archive_history (history (self m)))) /\
    trace m' = trace m ++ [Inherit; RecordHistory] /\
    (multi_objective (parameters (self m)) = false ->
     exists c, get_best_individual pop' pop' true = Ok c).
Proof.
  unfold inherit. intros H.
  apply bind_Done in H as (s & m1 & Hs & H). run_step Hs.
  apply bind_Done in H as (best & m1 & Hb & H). run_step Hb.
  apply bind_Done in H as (u1 & m1 & H1 & H). run_step H1.
  apply bind_Done in H as (u2 & m1 & H2 & H). run_step H2.
  apply bind_Done in H as (s & m1 & Hs & H). run_step Hs. simpl in H.
  apply bind_Done in H as (pop & m1 & Hp & H). run_step Hp.
  apply bind_Done in H as (size & m1 & Hz & H). run_step Hz.
  apply bind_Done in H as (next & m1 & Hn & H). run_step Hn.
  apply bind_Done in H as (u3 & m1 & H3 & H). run_step H3.
  apply bind_Done in H as (s & m1 & Hs & H). run_step Hs. simpl in H.
  apply bind_Done in H as (elitism & m1 & He & H). run_step He.
  apply bind_Done in H as (u4 & m1 & H4 & H).
  apply bind_Done in H as (s & m2 & Hs & H). run_step Hs.
  apply bind_Done in H as (pop' & m2 & Hp' & H). run_step Hp'.
  apply bind_Done in H as (u5 & m2 & H5 & H).
  apply add_to_history_Done in H5. subst m2.
  apply log_info_about_best_Done in H as (-> & Hlog).
  exists pop, best, size, elitism, next.
  match goal with
  | E : the_population _ = Ok pop |- _ =>
      unfold the_population in E; simpl in E;
      destruct (population (self m)) as [pop0 |] eqn:Hpop;
      [injection E as -> | discriminate E]
  end.
  split; [reflexivity |]. split; [assumption |].
  split; [assumption |]. split; [assumption |].
  assert (Hshape :
    m1 = mkMachine
           (with_population (with_prev_best (self m) (Some best))
              (Some (next_population
                       (multi_objective (parameters (self m))) elitism
                       best next)))
           w (trace m ++ [Inherit])).
  { unfold next_population.
    destruct (negb (multi_objective (parameters (self m))) && elitism);
      simpl in H4.
    - destruct best as [c | a]; run_step H4. reflexivity.
    - run_step H4. reflexivity. }
  subst m1. simpl in *.
  match goal with
  | E : the_population _ = Ok pop' |- _ =>
      unfold the_population in E; simpl in E; injection E as <-
  end.
  split; [assumption |]. split; [reflexivity |].
  split; [now rewrite <- app_assoc |].
  intros Hmo. destruct (Hlog Hmo) as (c & Hc).
  apply best_individual_single in Hc as (p & c' & Hp & Hc' & Heq);
    [| exact Hmo].
  simpl in Hp. injection Hp as <-. exists c'. assumption.
Qed.


Lemma best_individual_stock (s s' : GPChainOptimiser) :
  multi_objective (parameters s) = false ->
  config s' = config s -> stock s' = stock s ->
  best_individual s' = best_individual s.
Proof.
  unfold config, stock, best_individual, the_population.
  intros Hmo Hc Hs. injection Hc as _ _ Hp _. injection Hs as Hs _ _ _.
  now rewrite Hp, Hs, Hmo.
Qed.

Lemma generation_Done (objective_function : Objective) (t : W) (n : Z)
    (b : bool) (m m' : Machine) :
  generation ops objective_function t n m = Done b m' ->
  exists pop best size elitism new_population next w
         (archived adjusted : bool),
    population (self m) = Some pop /\
    (multi_objective (parameters (self m)) = false ->
     exists c, best = BestChain c /\
               get_best_individual pop pop true = Ok c) /\
    (exists offspring w0,
        evaluate_individuals ops offspring objective_function
          (multi_objective (parameters (self m))) w0
        = (new_population, w)) /\
    num_of_inds_in_next_pop (self m) = Ok size /\
    with_elitism (self m) = Ok elitism /\
    inheritance ops (genetic_scheme_type (parameters (self m)))
      (selection_types (parameters (self m))) pop new_population size w
    = (next, world m') /\
    let pop' := next_population (multi_objective (parameters (self m)))
                  elitism best next in
    config (self m') = config (self m) /\
    generation_num (self m') = generation_num (self m) /\
    population (self m') = Some pop' /\
    individuals (history (self m'))
    = individuals (history (self m)) ++ [pop'] /\
    prev_best (self m') = Some best /\
    trace m'
    = trace m ++ generation_events archived adjusted
                   (generation_num (self m)) b /\
    (multi_objective (parameters (self m)) = false ->
     exists c, get_best_individual pop' pop' true = Ok c).
Proof.
  unfold generation. intros H.
  apply bind_Done in H as (u1 & m1 & H1 & H).
  apply update_archive_Done in H1
    as (Hc1 & Hs1 & _ & _ & Hw1 & archived & Ht1).
  apply bind_Done in H as (u2 & m2 & H2 & H).
  apply adapt_depth_Done in H2 as (Hc2 & Hs2 & _ & Hw2 & adjusted & Ht2).
  apply bind_Done in H as (new_population & m3 & H3 & H).
  apply breed_Done in H3 as (Hself3 & Ht3 & offspring & w0 & Hoff).
  apply bind_Done in H as (u4 & m4 & H4 & H).
  apply inherit_Done in H4
    as (pop & best & size & elitism & next & Hpop & Hbest & Hsize & Helit
        & Hinh & Hself4 & Ht4 & Hlog).
  apply budget_check_Done in H as (Hb & ->).
  assert (Hc : config (self m3) = config (self m)) by congruence.
  assert (Hs : stock (self m3) = stock (self m)) by congruence.
  assert (Hpar : parameters (self m3) = parameters (self m))
    by (unfold config in Hc; congruence).
  rewrite (num_of_inds_in_next_pop_config Hc) in Hsize.
  rewrite (with_elitism_config Hc) in Helit.
  rewrite Hpar in *.
  exists pop, best, size, elitism, new_population, next, (world m3),
    archived, adjusted.
  simpl. rewrite Hself4. simpl.
  split; [unfold stock in Hs; congruence |].
  split.
  { intros Hmo. rewrite (best_individual_stock Hmo Hc Hs) in Hbest.
    destruct (best_individual_single _ Hmo Hbest) as (p & c & Hp & Hc' & ->).
    exists c. split; [reflexivity |].
    assert (p = pop) as -> by (unfold stock in Hs; congruence).
    assumption. }
  split.
  { exists offspring, w0. rewrite <- Hoff. do 2 f_equal.
    unfold config in Hc2, Hc1. congruence. }
  split; [assumption |]. split; [assumption |]. split; [assumption |].
  split; [unfold config in *; simpl; congruence |].
  split; [unfold stock in Hs; congruence |].
  split; [reflexivity |].
  split; [unfold stock in Hs; congruence |].
  split; [reflexivity |].
  split; [| assumption].
  rewrite Ht4, Ht3, Ht2, Ht1. unfold generation_events.
  assert (Hg : generation_num (self m3) = generation_num (self m))
    by (unfold stock in Hs; congruence).
  rewrite Hg. rewrite <- !app_assoc. simpl.
  destruct adjusted; reflexivity.
Qed.


Lemma successor_config (s s' : GPChainOptimiser) (pop pop' : list Chain) :
  config s' = config s ->
  successor ops s pop pop' -> successor ops s' pop pop'.
Proof.
  intros Hc (best & size & elitism & new_population & next & w & w'
             & H1 & H0 & H2 & H3 & H4 & H5 & H6).
  assert (Hp : parameters s' = parameters s)
    by (unfold config in Hc; congruence).
  exists best, size, elitism, new_population, next, w, w'.
  rewrite (num_of_inds_in_next_pop_config Hc), (with_elitism_config Hc), Hp.
  auto 10.
Qed.

Lemma succession_impl (R R' : list Chain -> list Chain -> Prop)
    (pops : list (list Chain)) :
  (forall p q, R p q -> R' p q) ->
  forall p0, succession R p0 pops -> succession R' p0 pops.
Proof.
  intros HR. induction pops as [| p pops IH]; simpl; [auto |].
  intros p0 [H1 H2]. auto.
Qed.

Lemma last_cons_default {A} (l : list A) :
  forall x d, last (x :: l) d = last l x.
Proof.
  induction l as [| y l IH]; intros x d; [reflexivity |].
  change (last (x :: y :: l) d) with (last (y :: l) d).
  now rewrite !IH.
Qed.

Lemma generations_Done (objective_function : Objective) (t : W) (n : Z)
    (gs : list Z) :
  forall (u : unit) (m m' : Machine) (p0 : list Chain),
    generations ops objective_function t n gs m = Done u m' ->
    population (self m) = Some p0 ->
    exists pops evs,
      config (self m') = config (self m) /\
      individuals (history (self m'))
      = individuals (history (self m)) ++ pops /\
      population (self m') = Some (last pops p0) /\
      succession (successor ops (self m)) p0 pops /\
      trace m' = trace m ++ evs /\
      loop_events gs evs (length pops).
Proof.
  induction gs as [| g gs IH]; intros u m m' p0 H Hp0; simpl in H.
  - run_step H. exists [], []. rewrite !app_nil_r. simpl.
    repeat split; try assumption. constructor.
  - apply bind_Done in H as (u1 & m1 & H1 & H). run_step H1.
    apply bind_Done in H as (reached & m1 & Hg & H).
    apply generation_Done in Hg
      as (pop & best & size & elitism & new_population & next & w
          & archived & adjusted & Hpop & Hbest & Hoff & Hsize & Helit
          & Hinh & Hc & Hgn & Hpop' & Hhist & Hprev & Htr & Hlog).
    simpl in *. clear Hgn.
    change (config (with_generation_num (self m) g))
      with (config (self m)) in Hc.
    assert (pop = p0) as -> by congruence.
    set (pop' := next_population (multi_objective (parameters (self m)))
                   elitism best next) in *.
    assert (Hsucc : successor ops (self m) p0 pop').
    { exists best, size, elitism, new_population, next, w, (world m1).
      rewrite <- Hsize, <- Helit.
      destruct Hoff as (offspring & w0 & Hoff).
      split; [assumption |]. split; [eauto |]. auto 10. }
    destruct reached.
    + run_step H. exists [pop'], (generation_events archived adjusted g true).
      simpl. repeat split; try assumption. constructor.
    + destruct (IH _ _ _ _ H Hpop')
        as (pops & evs & Hc' & Hhist' & Hpop'' & Hsucc' & Htr' & Hev).
      exists (pop' :: pops), (generation_events archived adjusted g false ++ evs).
      split; [congruence |].
      split; [rewrite Hhist', Hhist, <- app_assoc; reflexivity |].
      split.
      { rewrite Hpop''. f_equal. symmetry. apply last_cons_default. }
      split.
      { simpl. split; [assumption |].
        eapply succession_impl; [| exact Hsucc'].
        intros p q. apply successor_config. symmetry. exact Hc. }
      split; [rewrite Htr', Htr, <- app_assoc; reflexivity |].
      simpl. now constructor.
Qed.

End PhaseFacts.

Section OptimiseFacts.

Context {F : Type} `{FO : FitnessOrder F} {FT : FitnessTotalOrder F}
        {AS : ArgSort F} {AC : ArgSortCorrect F}.
Variables W Archive Objective : Type.

Local Abbreviation Chain := (@Chain F).
Local Abbreviation Machine := (@Machine F W Archive).
Local Abbreviation M := (M Machine).
Local Abbreviation GPChainOptimiser := (@GPChainOptimiser F Archive).

Variable ops : @Operators F W Archive Objective.

Local Open Scope opt_scope.

Lemma mapM_lift_frame {A B C} (f : A -> res B) (g : B -> C) (l : list A) :
  forall (m m' : Machine) (r : list C),
    mapM (fun x => y <- lift (f x) ;; ret (g y)) l m = Done r m' -> m' = m.
Proof.
  induction l as [| x l IH]; intros m m' r H; simpl in H.
  - run_step H. reflexivity.
  - apply bind_Done in H as (y & m1 & Hy & H).
    apply bind_Done in Hy as (y' & m2 & Hy' & Hy). run_step Hy'. run_step Hy.
    apply bind_Done in H as (ys & m1 & Hys & H). apply IH in Hys as ->.
    run_step H. reflexivity.
Qed.

Lemma make_population_loop_frame (fuel : nat) (size : Z) :
  forall (acc : list Chain) (m m' : Machine) (r : list Chain),
    make_population_loop ops fuel size acc m = Done r m' ->
    self m' = self m /\ trace m' = trace m.
Proof.
  induction fuel as [| fuel IH]; intros acc m m' r H; simpl in H.
  - destruct (Z.of_nat (length acc) <? size)%Z; run_step H. auto.
  - destruct (Z.of_nat (length acc) <? size)%Z; [| run_step H; auto].
    apply bind_Done in H as (s & m1 & Hs & H). run_step Hs.
    apply bind_Done in H as (chain & m1 & Hc & H). run_step Hc.
    destruct (constraint_function ops chain);
      apply IH in H as (-> & ->); auto.
Qed.

Lemma single_models_loop_frame (objective_function : Objective)
    (models : list ModelType) :
  forall (acc : list Chain) (m m' : Machine) (r : list Chain),
    single_models_loop ops objective_function models acc m = Done r m' ->
    self m' = self m /\ trace m' = trace m.
Proof.
  induction models as [| model models IH]; intros acc m m' r H; simpl in H.
  - run_step H. auto.
  - apply bind_Done in H as (s & m1 & Hs & H). run_step Hs.
    apply bind_Done in H as (fit & m1 & Hf & H). run_step Hf.
    destruct fit; apply IH in H as (-> & ->); auto.
Qed.

Lemma best_single_models_frame (objective_function : Objective)
    (r : Chain * list ModelType) (m m' : Machine) :
  best_single_models ops objective_function m = Done r m' ->
  self m' = self m /\ trace m' = trace m.
Proof.
  unfold best_single_models. intros H.
  apply bind_Done in H as (s & m1 & Hs & H). run_step Hs.
  apply bind_Done in H as (inds & m1 & Hi & H).
  apply single_models_loop_frame in Hi as (E1 & E2).
  apply bind_Done in H as (best_inds & m2 & Hb & H). run_step Hb.
  apply bind_Done in H as (best & m2 & Hb & H). run_step Hb.
  apply bind_Done in H as (types & m2 & Ht & H).
  apply mapM_lift_frame in Ht as ->. run_step H. auto.
Qed.

Lemma set_primary_same (r : ComposerRequirements) :
  set_primary r (primary r) = r.
Proof. now destruct r. Qed.

Lemma optimise_setup_Done (fuel : nat) (offspring_rate : option Q)
    (n : Z) (m m' : Machine) :
  optimise_setup ops fuel offspring_rate m = Done n m' ->
  offspring_size (self m) offspring_rate = Ok n /\
  config (self m') = config (self m) /\
  history (self m') = history (self m) /\
  archive (self m') = archive (self m) /\
  trace m' = trace m /\
  (forall pop, population (self m) = Some pop ->
               population (self m') = Some pop /\ world m' = world m).
Proof.
  unfold optimise_setup. intros H.
  apply bind_Done in H as (s & m1 & Hs & H). run_step Hs.
  apply bind_Done in H as (u & m1 & Hp & H).
  apply bind_Done in H as (s & m2 & Hs & H). run_step Hs. run_step H.
  destruct (population (self m)) as [pop |] eqn:Hpop.
  - run_step Hp. rewrite Hpop.
    repeat split; try assumption; try reflexivity;
      intros p Hp; now injection Hp as <-.
  - apply bind_Done in Hp as (size & m2 & Hz & Hp). run_step Hz.
    apply bind_Done in Hp as (pop & m2 & Hm & Hp).
    apply make_population_loop_frame in Hm as (E1 & E2).
    run_step Hp. simpl in *. rewrite E1, E2.
    repeat split; try assumption; try discriminate.
    rewrite E1 in *. exact E.
Qed.

Lemma evaluate_initial_Done (objective_function : Objective) (u : unit)
    (m m' : Machine) :
  evaluate_initial ops objective_function m = Done u m' ->
  exists pop p0 prim,
    population (self m) = Some pop /\
    population (self m') = Some p0 /\
    individuals (history (self m'))
    = individuals (history (self m)) ++ [p0] /\
    parameters (self m') = parameters (self m) /\
    requirements (self m') = set_primary (requirements (self m)) prim /\
    archive (self m') = archive (self m) /\
    trace m' = trace m ++ [EvaluateInitial; RecordHistory] /\
    (exists w0 w1,
        evaluate_individuals ops pop objective_function
          (multi_objective (parameters (self m))) w0
        = (p0, w1)) /\
    (multi_objective (parameters (self m)) = false ->
     exists c, get_best_individual p0 p0 true = Ok c).
Proof.
  unfold evaluate_initial. intros H.
  apply bind_Done in H as (s & m1 & Hs & H). run_step Hs.
  apply bind_Done in H as (u1 & m1 & H1 & H).
  assert (Hm1 : exists prim single w1,
            m1 = mkMachine
                   (with_requirements
                      (with_best_single_model (self m) single)
                      (set_primary (requirements (self m)) prim))
                   w1 (trace m)).
  { destruct (add_single_model_chains (requirements (self m))).
    - apply bind_Done in H1 as (r & m2 & Hr & H1).
      apply best_single_models_frame in Hr as (E1 & E2).
      run_step H1. simpl. rewrite E1, E2. eauto.
    - run_step H1. exists (primary (requirements (self m))),
        (best_single_model (self m)), (world m).
      rewrite set_primary_same. destruct m as [[] ? ?]. reflexivity. }
  destruct Hm1 as (prim & single & w1 & ->).
  apply bind_Done in H as (u2 & m2 & H2 & H). run_step H2.
  apply bind_Done in H as (s & m2 & Hs & H). run_step Hs. simpl in H.
  apply bind_Done in H as (pop & m2 & Hp & H). run_step Hp.
  apply bind_Done in H as (p0 & m2 & He & H). run_step He.
  apply bind_Done in H as (u3 & m2 & H3 & H). run_step H3.
  apply bind_Done in H as (u4 & m2 & H4 & H).
  apply add_to_history_Done in H4. subst m2.
  apply log_info_about_best_Done in H as (-> & Hlog). simpl in *.
  match goal with
  | E : the_population _ = Ok pop |- _ =>
      unfold the_population in E; simpl in E;
      destruct (population (self m)) as [pop0 |] eqn:Hpop;
      [injection E as -> | discriminate E]
  end.
  exists pop, p0, prim.
  split; [reflexivity |]. split; [reflexivity |]. split; [reflexivity |].
  split; [reflexivity |]. split; [reflexivity |]. split; [reflexivity |].
  split; [now rewrite <- app_assoc |]. split; [eauto |].
  intros Hmo. destruct (Hlog Hmo) as (c & Hc).
  apply best_individual_single in Hc as (p & c' & Hp & Hc' & _);
    [| exact Hmo].
  simpl in Hp. injection Hp as <-. eauto.
Qed.


Lemma optimise_Done (fuel : nat) (objective_function : Objective)
    (offspring_rate : option Q) (r : Best Archive * OptimiserHistory Archive)
    (m m' : Machine) :
  optimise ops fuel objective_function offspring_rate m = Done r m' ->
  exists n p0 pops evs (archived : bool) prim,
    offspring_size (self m) offspring_rate = Ok n /\
    parameters (self m') = parameters (self m) /\
    requirements (self m') = set_primary (requirements (self m)) prim /\
    individuals (history (self m'))
    = individuals (history (self m)) ++ p0 :: pops /\
    population (self m') = Some (last pops p0) /\
    succession (successor ops (self m')) p0 pops /\
    (exists pop w0 w1,
        evaluate_individuals ops pop objective_function
          (multi_objective (parameters (self m))) w0
        = (p0, w1)) /\
    (multi_objective (parameters (self m)) = false ->
     exists c, get_best_individual p0 p0 true = Ok c) /\
    trace m'
    = trace m ++ [EvaluateInitial; RecordHistory] ++ evs
      ++ Finalize :: (if archived then [ArchiveUpdate] else []) /\
    loop_events (Zrange (num_of_generations (requirements (self m)) - 1))
      evs (length pops) /\
    result_individual (self m') = Ok (fst r) /\
    snd r = history (self m').
Proof.
  unfold optimise. intros H.
  apply bind_Done in H as (n & m1 & H1 & H).
  apply optimise_setup_Done in H1 as (Hn & Hc1 & Hh1 & Ha1 & Ht1 & _).
  apply bind_Done in H as (t & m2 & Ht & H). run_step Ht.
  apply bind_Done in H as (u2 & m2 & H2 & H).
  apply evaluate_initial_Done in H2
    as (pop & p0 & prim & Hpop & Hp0 & Hh2 & Hpar2 & Hreq2 & Ha2 & Ht2
        & Heval0 & Hbest0).
  apply bind_Done in H as (s & m3 & Hs & H). run_step Hs.
  apply bind_Done in H as (u3 & m3 & H3 & H).
  eapply generations_Done in H3; [| exact Hp0].
  destruct H3 as (pops & evs & Hc3 & Hh3 & Hp3 & Hsucc & Ht3 & Hev).
  apply bind_Done in H as (u4 & m4 & H4 & H). run_step H4.
  apply bind_Done in H as (u5 & m4 & H5 & H).
  apply update_archive_Done in H5
    as (Hc5 & Hs5 & _ & _ & _ & archived & Ht5).
  simpl in Hc5, Hs5, Ht5.
  apply bind_Done in H as (s & m5 & Hs & H). run_step Hs.
  apply bind_Done in H as (best & m5 & Hb & H). run_step Hb.
  apply bind_Done in H as (u6 & m5 & H6 & H).
  apply log_info_about_best_Done in H6 as (-> & _).
  apply bind_Done in H as (s & m5 & Hs & H). run_step Hs. run_step H.
  assert (Hpar1 : parameters (self m1) = parameters (self m))
    by (unfold config in Hc1; congruence).
  assert (Hreq1 : requirements (self m1) = requirements (self m))
    by (unfold config in Hc1; congruence).
  assert (Hc : config (self m4) = config (self m2)) by congruence.
  exists n, p0, pops, evs, archived, prim. simpl.
  split; [assumption |].
  split; [unfold config in Hc; congruence |].
  split; [unfold config in Hc; congruence |].
  split.
  { unfold stock in Hs5. injection Hs5 as _ -> _ _.
    rewrite Hh3, Hh2, Hh1, <- app_assoc. reflexivity. }
  split; [unfold stock in Hs5; congruence |].
  split.
  { eapply succession_impl; [| exact Hsucc].
    intros p q. apply successor_config. exact Hc. }
  split.
  { destruct Heval0 as (w0 & w1 & Heval0). exists pop, w0, w1.
    rewrite <- Hpar1. exact Heval0. }
  split; [rewrite <- Hpar1; assumption |].
  split.
  { rewrite Ht5, Ht3, Ht2, Ht1, <- !app_assoc. reflexivity. }
  split; [rewrite Hreq2, Hreq1 in Hev; exact Hev |].
  split; [assumption | reflexivity].
Qed.

End OptimiseFacts.

(* ================================================================== *)
(** * Successive populations *)

Section SuccessorFacts.

Context {F : Type} `{FO : FitnessOrder F} {FT : FitnessTotalOrder F}
        {AS : ArgSort F} {AC : ArgSortCorrect F}.
Variables W Archive Objective : Type.

Local Abbreviation Chain := (@Chain F).
Local Abbreviation GPChainOptimiser := (@GPChainOptimiser F Archive).

Variable ops : @Operators F W Archive Objective.

Lemma succession_Forall (R : list Chain -> list Chain -> Prop)
    (P : list Chain -> Prop) (pops : list (list Chain)) :
  (forall p q, R p q -> P q) ->
  forall p0, succession R p0 pops -> Forall P pops.
Proof.
  intros HR. induction pops as [| p pops IH]; intros p0 H; [constructor |].
  destruct H as [H1 H2]. constructor; eauto.
Qed.

Lemma succession_consecutive (R : list Chain -> list Chain -> Prop)
    (pops : list (list Chain)) :
  forall p0 i p q,
    succession R p0 pops ->
    nth_error (p0 :: pops) i = Some p ->
    nth_error (p0 :: pops) (S i) = Some q ->
    R p q.
Proof.
  induction pops as [| p1 pops IH]; intros p0 i p q H Hp Hq.
  - destruct i; discriminate.
  - destruct H as [H1 H2]. destruct i as [| i].
    + simpl in Hp, Hq. congruence.
    + exact (IH p1 i p q H2 Hp Hq).
Qed.

(** The size of a successor: inheritance is asked for [pop_size]
    individuals less the slot of the elite, and the successor is what it
    returned followed by the elite. *)
Lemma successor_size (s : GPChainOptimiser) (pop pop' : list Chain)
    (p : Z) :
  pop_size (requirements s) = Some p ->
  successor ops s pop pop' ->
  exists offspring next w w',
    let elite := negb (multi_objective (parameters s)) && (1 <? p)%Z in
    let slot := if elite then 1%Z else 0%Z in
    inheritance ops (genetic_scheme_type (parameters s))
      (selection_types (parameters s)) pop offspring (p - slot) w
    = (next, w') /\
    length pop' = (length next + Z.to_nat slot)%nat.
Proof.
  intros Hp
    (best & size & elitism & new_population & next & w & w'
     & Hbest & _ & Hsize & Helit & Hinh & -> & _).
  exists new_population, next, w, w'.
  unfold num_of_inds_in_next_pop in Hsize. rewrite Helit in Hsize.
  unfold with_elitism, req_pop_size in Helit.
  unfold req_pop_size in Hsize. rewrite Hp in *.
  unfold next_population. simpl in Hsize.
  destruct (multi_objective (parameters s)) eqn:Hmo; simpl in *.
  - injection Helit as <-. simpl in *. injection Hsize as <-.
    rewrite Z.sub_0_r. split; [assumption | lia].
  - injection Helit as <-.
    destruct (Z.ltb_spec 1 p) as [Hgt | Hle]; simpl in *;
      injection Hsize as <-.
    + destruct (Hbest eq_refl) as (c & -> & _).
      split; [assumption |]. rewrite length_app. simpl. lia.
    + rewrite Z.sub_0_r. split; [assumption | lia].
Qed.

Lemma py_min_from_evaluated {A} (key : A -> option F) (rest : list A) :
  forall best b,
    rest <> [] ->
    py_min_from fitness_lt key best rest = Ok b ->
    key best <> None /\ (forall c, In c rest -> key c <> None).
Proof.
  induction rest as [| x rest IH]; intros best b Hne H; [congruence |].
  simpl in H.
  destruct (key x) as [fx |] eqn:Hx; [| discriminate].
  destruct (key best) as [fb |] eqn:Hb; [| discriminate].
  simpl in H. split; [discriminate |].
  destruct rest as [| y rest'].
  - intros c [<- | []]. congruence.
  - destruct (fit_ltb fx fb);
      apply IH in H as [H1 H2]; try discriminate;
      intros c [<- | Hc]; auto; congruence.
Qed.

Lemma succession_invariant (R : list Chain -> list Chain -> Prop)
    (P : list Chain -> Prop) (pops : list (list Chain)) :
  (forall p q, P p -> R p q -> P q) ->
  forall p0, P p0 -> succession R p0 pops -> Forall P pops.
Proof.
  intros HR. induction pops as [| p pops IH]; intros p0 H0 H;
    [constructor |].
  destruct H as [H1 H2]. constructor; eauto.
Qed.

Lemma py_min_from_In {A K} (lt : K -> K -> res bool) (key : A -> K)
    (rest : list A) :
  forall best b,
    py_min_from lt key best rest = Ok b -> In b (best :: rest).
Proof.
  induction rest as [| x rest IH]; intros best b H; simpl in H.
  - injection H as <-. now left.
  - destruct (lt (key x) (key best)) as [[|] | e]; [| | discriminate];
      apply IH in H as [<- | H]; simpl; auto.
Qed.

(** The best individual is a member of the list it is sought in. *)
Lemma get_best_individual_In (population l : list Chain) (flag : bool)
    (b : Chain) :
  get_best_individual population l flag = Ok b -> In b l.
Proof.
  unfold get_best_individual. intros H.
  destruct (py_min fitness_lt fitness l) as [b0 | e] eqn:Hmin;
    [| discriminate].
  simpl in H.
  assert (Hb0 : In b0 l).
  { destruct l as [| x rest]; [discriminate |].
    exact (py_min_from_In _ _ _ _ Hmin). }
  destruct (if flag
            then simpler_equivalents_of_best_ind population b0 None
            else simpler_equivalents_of_best_ind population b0 (Some l))
    as [d | e]; [| discriminate].
  simpl in H. destruct d as [| e d].
  - injection H as <-. assumption.
  - destruct (py_min opt_nat_lt (dict_get (e :: d)) (dict_keys (e :: d)))
      as [k | e']; [| discriminate].
    simpl in H. unfold py_index in H.
    destruct (nth_error l k) as [c |] eqn:Hc; [| discriminate].
    injection H as <-. eapply nth_error_In; eassumption.
Qed.

(** With an evaluation that leaves no individual without a fitness and
    an inheritance that takes from what it is given, the successor of an
    evaluated population is evaluated. *)
Lemma successor_evaluated (s : GPChainOptimiser) (pop pop' : list Chain) :
  evaluation_complete ops -> inheritance_selects ops ->
  Forall (fun c => fitness c <> None) pop ->
  successor ops s pop pop' ->
  Forall (fun c => fitness c <> None) pop'.
Proof.
  intros Heval Hsel Hpop
    (best & size & elitism & new_population & next & w & w'
     & Hbest & (offspring & objective_function & w0 & Hoff) & _ & _ & Hinh
     & -> & _).
  assert (Hnew : forall c, In c new_population -> fitness c <> None).
  { intros c Hc.
    apply (Heval offspring objective_function
             (multi_objective (parameters s)) w0).
    now rewrite Hoff. }
  assert (Hnext : Forall (fun c => fitness c <> None) next).
  { apply Forall_forall. intros c Hc.
    destruct (Hsel (genetic_scheme_type (parameters s))
                (selection_types (parameters s)) pop new_population size w c)
      as [H | H].
    - now rewrite Hinh.
    - rewrite Forall_forall in Hpop. auto.
    - auto. }
  unfold next_population.
  destruct (multi_objective (parameters s)) eqn:Hmo; simpl; [assumption |].
  destruct elitism; [| assumption].
  destruct (Hbest eq_refl) as (c & -> & Hc).
  apply Forall_app. split; [assumption |].
  constructor; [| constructor].
  rewrite Forall_forall in Hpop. apply Hpop.
  eapply get_best_individual_In; eassumption.
Qed.

(** Whenever the best individual of a population is found, its fitness
    is not worse than that of any member. *)
Lemma get_best_individual_not_worse (l : list Chain) (b c : Chain) :
  get_best_individual l l true = Ok b ->
  In c l ->
  not_worse (fitness b) (fitness c).
Proof.
  intros Hb Hc.
  destruct l as [| x [| y l']]; [destruct Hc | |].
  - destruct Hc as [<- | []].
    assert (b = x) as -> by (cbv in Hb; congruence).
    unfold not_worse. destruct (fitness x); [apply fit_leb_refl | exact I].
  - assert (Heval : forall c, In c (x :: y :: l') -> fitness c <> None).
    { unfold get_best_individual in Hb.
      destruct (py_min fitness_lt fitness (x :: y :: l')) as [b0 | e] eqn:Hmin;
        [| discriminate].
      unfold py_min in Hmin. apply py_min_from_evaluated in Hmin as [H1 H2];
        [| discriminate].
      intros c0 [<- | Hc0]; auto. }
    destruct (evaluated_keyed _ Heval) as (fs & Hk).
    assert (Hne : x :: y :: l' <> []) by discriminate.
    destruct (get_best_individual_spec Hne Hk (fun _ : true = true => eq_refl))
      as (b' & m & b0 & ib & h & tl & k & Hrun & Hin & Hfit & Hleast & _).
    assert (b' = b) as -> by congruence.
    apply In_nth_error in Hc as (j & Hj).
    destruct (keyed_nth _ Hk Hj) as (f & Hf & Hcf).
    unfold not_worse. rewrite Hfit, Hcf. apply Hleast.
    eapply nth_error_In; eassumption.
Qed.

(** Under elitism in single-objective mode the best of a population is
    a member of its successor, whose best is therefore not worse. *)
Lemma successor_keeps_best (s : GPChainOptimiser) (pop pop' : list Chain)
    (p : Z) :
  multi_objective (parameters s) = false ->
  pop_size (requirements s) = Some p -> (1 < p)%Z ->
  successor ops s pop pop' ->
  exists best best',
    get_best_individual pop pop true = Ok best /\
    get_best_individual pop' pop' true = Ok best' /\
    In best pop' /\
    not_worse (fitness best') (fitness best).
Proof.
  intros Hmo Hp Hgt
    (best & size & elitism & new_population & next & w & w'
     & Hbest & _ & Hsize & Helit & Hinh & -> & Hbest').
  destruct (Hbest Hmo) as (c & -> & Hc).
  destruct (Hbest' Hmo) as (c' & Hc').
  unfold with_elitism, req_pop_size in Helit. rewrite Hmo, Hp in Helit.
  simpl in Helit. injection Helit as <-.
  assert (Hlt : (1 <? p)%Z = true) by (apply Z.ltb_lt; assumption).
  unfold next_population in *. rewrite Hmo, Hlt in *. simpl in *.
  exists c, c'. repeat split; try assumption.
  - apply in_or_app. right. now left.
  - eapply get_best_individual_not_worse; [eassumption |].
    apply in_or_app. right. now left.
Qed.

End SuccessorFacts.

(* ================================================================== *)
(** * The claims *)

Section Claims.

Context {F : Type} `{FO : FitnessOrder F} {FT : FitnessTotalOrder F}
        {AS : ArgSort F} {AC : ArgSortCorrect F}.
Variables W Archive Objective : Type.

Local Abbreviation Chain := (@Chain F).
Local Abbreviation Machine := (@Machine F W Archive).
Local Abbreviation M := (M Machine).
Local Abbreviation GPChainOptimiser := (@GPChainOptimiser F Archive).

Variable ops : @Operators F W Archive Objective.

Local Open Scope opt_scope.

(** C1.  In a run of [optimise], every generation asks inheritance for
    [requirements.pop_size] individuals less the slot of the elite (one
    slot, in single-objective mode with a population size above one),
    and the population it records is what inheritance returned followed
    by the elite.  So the recorded population has exactly
    [requirements.pop_size] individuals whenever inheritance returned as
    many as it was asked for in that generation. *)
Theorem population_size_after_inheritance (fuel : nat)
    (objective_function : Objective) (offspring_rate : option Q)
    (r : Best Archive * OptimiserHistory Archive) (m m' : Machine) (p : Z) :
  pop_size (requirements (self m)) = Some p ->
  optimise ops fuel objective_function offspring_rate m = Done r m' ->
  exists initial generations_,
    individuals (snd r)
    = individuals (history (self m)) ++ initial :: generations_ /\
    forall i previous current,
      nth_error (initial :: generations_) i = Some previous ->
      nth_error generations_ i = Some current ->
      exists offspring next w w',
        let elite :=
          negb (multi_objective (parameters (self m))) && (1 <? p)%Z in
        let slot := if elite then 1%Z else 0%Z in
        inheritance ops (genetic_scheme_type (parameters (self m)))
          (selection_types (parameters (self m))) previous offspring
          (p - slot) w
        = (next, w') /\
        length current = (length next + Z.to_nat slot)%nat /\
        (Z.of_nat (length next) = (p - slot)%Z ->
         Z.of_nat (length current) = p).
Proof.
  intros Hp Hrun.
  apply optimise_Done in Hrun
    as (n & p0 & pops & evs & archived & prim & _ & Hpar & Hreq & Hhist & _
        & Hsucc & _ & _ & _ & _ & _ & Hsnd).
  exists p0, pops. rewrite Hsnd. split; [assumption |].
  intros i previous current Hprev Hcur.
  pose proof (succession_consecutive _ _ _ _ Hsucc Hprev Hcur) as Hstep.
  assert (Hp' : pop_size (requirements (self m')) = Some p)
    by (rewrite Hreq; exact Hp).
  destruct (successor_size Hp' Hstep)
    as (offspring & next & w & w' & Hinh & Hlen).
  rewrite Hpar in Hinh, Hlen. cbv zeta in Hinh, Hlen.
  exists offspring, next, w, w'. cbv zeta.
  split; [exact Hinh |]. split; [exact Hlen |].
  intros Hnext. rewrite Hlen, Nat2Z.inj_add, Hnext.
  destruct (negb (multi_objective (parameters (self m))) && (1 <? p)%Z);
    simpl; lia.
Qed.

(** C4.  In a single-objective run with a population size above one (so
    that elitism is on), for any two consecutive recorded populations the
    best individual of the earlier one is a member of the later one, and
    the best fitness of the later one is not worse (not greater) than
    that of the earlier one. *)
Theorem elitism_best_never_worse (fuel : nat)
    (objective_function : Objective) (offspring_rate : option Q)
    (r : Best Archive * OptimiserHistory Archive) (m m' : Machine) (p : Z) :
  multi_objective (parameters (self m)) = false ->
  pop_size (requirements (self m)) = Some p ->
  (1 < p)%Z ->
  optimise ops fuel objective_function offspring_rate m = Done r m' ->
  exists recorded,
    individuals (snd r) = individuals (history (self m)) ++ recorded /\
    forall i generation_n generation_n1,
      nth_error recorded i = Some generation_n ->
      nth_error recorded (S i) = Some generation_n1 ->
      exists best_n best_n1,
        get_best_individual generation_n generation_n true = Ok best_n /\
        get_best_individual generation_n1 generation_n1 true = Ok best_n1 /\
        In best_n generation_n1 /\
        not_worse (fitness best_n1) (fitness best_n).
Proof.
  intros Hmo Hp Hgt Hrun.
  apply optimise_Done in Hrun
    as (n & p0 & pops & evs & archived & prim & _ & Hpar & Hreq & Hhist & _
        & Hsucc & _ & _ & _ & _ & _ & Hsnd).
  exists (p0 :: pops). rewrite Hsnd. split; [assumption |].
  intros i gn gn1 Hn Hn1.
  pose proof (succession_consecutive _ _ _ _ Hsucc Hn Hn1) as Hstep.
  eapply successor_keeps_best with (s := self m');
    [| | exact Hgt | exact Hstep].
  - now rewrite Hpar.
  - rewrite Hreq. exact Hp.
Qed.

End Claims.

(* ================================================================== *)
(** * Where the tie-break on the number of nodes misses *)

Section TieBreak.

Context {F : Type} `{FO : FitnessOrder F} {FT : FitnessTotalOrder F}
        {AS : ArgSort F} {AC : ArgSortCorrect F}.

Local Abbreviation Chain := (@Chain F).

(** [simpler_equivalents_of_best_ind] drops the first index of
    [np.argsort]'s result, taking it for the best individual itself.
    Among equal keys the sort may put another index first: when that is
    the index of the simplest individual of the least fitness, and the
    individual [min] finds comes earlier in the population, the simplest
    one is never looked at and [get_best_individual] returns an
    individual of the same fitness with more nodes. *)
Lemma get_best_individual_misses_simplest_sorted_first
    (population : list Chain) (h j : nat) (tl : list nat)
    (simplest earlier : Chain) :
  (forall c, In c population -> fitness c <> None) ->
  argsort (map fitness population) = Ok (h :: tl) ->
  nth_error population h = Some simplest ->
  (forall c, In c population ->
             not_worse (fitness simplest) (fitness c)) ->
  (j < h)%nat ->
  nth_error population j = Some earlier ->
  fitness earlier = fitness simplest ->
  (forall k c, k <> h -> nth_error population k = Some c ->
               fitness c = fitness simplest ->
               (length (nodes simplest) < length (nodes c))%nat) ->
  exists best,
    get_best_individual population population true = Ok best /\
    fitness best = fitness simplest /\
    (length (nodes simplest) < length (nodes best))%nat.
Proof.
  intros Heval Hsort Hh Hleast Hj Hearlier Hsame Hstrict.
  assert (Hne : population <> []) by (intros ->; destruct h; discriminate).
  destruct (evaluated_keyed population Heval) as (fs & Hk).
  destruct (get_best_individual_spec Hne Hk
              (fun _ : true = true => eq_refl))
    as (best & m & b & ib & h' & tl' & k & Hrun & Hin & Hfit & Hmin & Hb
        & Hfm & _ & Hsort' & _ & Hbest & Hk').
  assert (h' = h) as -> by congruence.
  destruct (keyed_nth _ Hk Hh) as (ms & Hms & Hfs).
  assert (ms = m) as ->.
  { apply fit_leb_antisym.
    - specialize (Hleast best Hin). rewrite Hfs, Hfit in Hleast.
      exact Hleast.
    - apply Hmin. eapply nth_error_In; eassumption. }
  assert (Hib : ib <> h).
  { intros ->. destruct (keyed_nth _ Hk Hearlier) as (me & Hme & Hfe).
    assert (me = m) as -> by congruence.
    destruct Hfm as (_ & _ & Hfirst).
    pose proof (Hfirst j m Hj Hme) as Hf.
    rewrite fit_leb_refl in Hf. discriminate. }
  assert (Hkh : k <> h) by (destruct Hk' as [-> | Hk']; assumption).
  exists best. split; [exact Hrun |]. split; [congruence |].
  apply (Hstrict k best Hkh Hbest). congruence.
Qed.

End TieBreak.

(** For two distinct keys in increasing order there is one order of the
    indices. *)
Lemma argsort_order_increasing_pair (sorter : ArgSort Z)
    (correct : ArgSortCorrect Z) (x y : Z) :
  (x < y)%Z -> argsort_order [x; y] = [0; 1]%nat.
Proof.
  intros Hxy.
  pose proof (argsort_perm [x; y]) as Hperm.
  apply Permutation_sym, Permutation_length_2_inv in Hperm
    as [Hperm | Hperm]; [exact Hperm |].
  exfalso.
  pose proof (argsort_sorted [x; y] (i := 0%nat) (j := 1%nat)
                (a := 1%nat) (b := 0%nat) (x := y) (y := x)) as Hsorted.
  rewrite Hperm in Hsorted. simpl in Hsorted.
  specialize (Hsorted (Nat.le_succ_diag_r 0) eq_refl eq_refl eq_refl eq_refl).
  apply Z.leb_le in Hsorted. lia.
Qed.

(** C5.  [get_best_individual] does not always return an individual of
    the least fitness of the list it is given.  With the flag at its
    default the simpler equivalents are looked up in the optimiser's
    population and come back as indices into it, but the individual
    returned is taken at that index from the list given.  For the
    population [[fitness 0, 1 node; fitness 1, 1 node]] and the list
    [[fitness 1, 2 nodes; fitness 5, 3 nodes]] the result is the
    individual of fitness 5, although the list holds one of fitness 1,
    whatever the sorting routine behind [np.argsort]. *)
Theorem get_best_individual_of_another_list (sorter : ArgSort Z)
    (correct : ArgSortCorrect Z) :
  let population :=
    [Sample.chain_of 1 (Some 0%Z); Sample.chain_of 1 (Some 1%Z)] in
  let individuals :=
    [Sample.chain_of 2 (Some 1%Z); Sample.chain_of 3 (Some 5%Z)] in
  exists best better,
    get_best_individual population individuals true = Ok best /\
    fitness best = Some 5%Z /\
    In better individuals /\
    fitness better = Some 1%Z /\
    ~ not_worse (fitness best) (fitness better).
Proof.
  intros population individuals.
  exists (Sample.chain_of 3 (Some 5%Z)), (Sample.chain_of 2 (Some 1%Z)).
  split.
  - unfold get_best_individual, simpler_equivalents_of_best_ind, argsort.
    simpl.
    rewrite (argsort_order_increasing_pair correct (x := 0%Z) (y := 1%Z))
      by lia.
    reflexivity.
  - split; [reflexivity |]. split; [left; reflexivity |].
    split; [reflexivity | discriminate].
Qed.

(** A population of two individuals of the same fitness under the two
    sorting routines: sorted in index order the simpler one is found,
    sorted with the ties reversed it is not. *)
Example get_best_individual_depends_on_the_sort :
  let population :=
    [Sample.chain_of 2 (Some 1%Z); Sample.chain_of 1 (Some 1%Z)] in
  @get_best_individual Z _ Z_ArgSort population population true
  = Ok (Sample.chain_of 1 (Some 1%Z)) /\
  @get_best_individual Z _ ties_reversed population population true
  = Ok (Sample.chain_of 2 (Some 1%Z)).
Proof. split; reflexivity. Qed.

Section DepthClaims.

Context {F : Type} `{FO : FitnessOrder F} {FT : FitnessTotalOrder F}
        {AS : ArgSort F} {AC : ArgSortCorrect F}.
Variables W Archive Objective : Type.

Local Abbreviation Chain := (@Chain F).
Local Abbreviation Machine := (@Machine F W Archive).
Local Abbreviation M := (M Machine).
Local Abbreviation GPChainOptimiser := (@GPChainOptimiser F Archive).

Variable ops : @Operators F W Archive Objective.

Local Open Scope opt_scope.

(** In single-objective mode, after the first generation, the counter
    goes up by one when the best fitness equals that of the previous
    best, and back to zero otherwise. *)
Lemma update_stagnation_counter_single (v : Z) (m m' : Machine) :
  update_stagnation_counter ops m = Done v m' ->
  multi_objective (parameters (self m)) = false ->
  generation_num (self m) <> 0%Z ->
  exists prev best,
    prev_best (self m) = Some (BestChain prev) /\
    best_individual (self m) = Ok (BestChain best) /\
    if is_equal_fitness (fitness prev) (fitness best)
    then num_of_gens_without_improvements (self m) = Some (v - 1)%Z
    else v = 0%Z.
Proof.
  unfold update_stagnation_counter. intros H Hmo Hg.
  apply bind_Done in H as (s & m1 & Hs & H). run_step Hs.
  destruct (Z.eqb_spec (generation_num (self m)) 0) as [Hg' | _];
    [contradiction |].
  simpl in H. rewrite Hmo in H.
  apply bind_Done in H as (equal_best & m1 & He & H).
  destruct (prev_best (self m)) as [pb |]; [| run_step He].
  apply bind_Done in He as (prev_fit & m2 & H1 & He). run_step H1.
  apply bind_Done in He as (best & m2 & H2 & He). run_step H2.
  apply bind_Done in He as (best_fit & m2 & H3 & He). run_step H3.
  run_step He.
  destruct pb as [prev | a]; [| discriminate].
  destruct best as [c | a]; [| discriminate].
  simpl in *.
  repeat match goal with
         | E : Ok _ = Ok _ |- _ => injection E as <-
         end.
  exists prev, c. split; [reflexivity |]. split; [assumption |].
  destruct (is_equal_fitness (fitness prev) (fitness c)).
  - destruct (num_of_gens_without_improvements (self m)) as [n |];
      run_step H. f_equal. lia.
  - run_step H. reflexivity.
Qed.

(** C3.  With automated depth configuration and a step of 3: on the
    generation where the stagnation counter reaches 3 (it goes up by one
    for each generation whose best fitness equals the previous best, and
    is reset otherwise) while the depth bound is below
    [requirements.max_depth], the bound goes up by exactly one; when the
    counter is not 3 or the bound is at the maximum it stays. *)
Theorem auto_depth_increase_on_third_stagnation (u : unit) (m m' : Machine) :
  with_auto_depth_configuration (parameters (self m)) = true ->
  depth_increase_step (parameters (self m)) = 3%Z ->
  adapt_depth ops m = Done u m' ->
  exists counter,
    num_of_gens_without_improvements (self m') = Some counter /\
    (counter = 0%Z \/
     generation_num (self m) <> 0%Z /\
     num_of_gens_without_improvements (self m) = Some (counter - 1)%Z) /\
    (multi_objective (parameters (self m)) = false ->
     generation_num (self m) <> 0%Z ->
     exists prev best,
       prev_best (self m) = Some (BestChain prev) /\
       best_individual (self m) = Ok (BestChain best) /\
       if is_equal_fitness (fitness prev) (fitness best)
       then num_of_gens_without_improvements (self m)
            = Some (counter - 1)%Z
       else counter = 0%Z) /\
    (counter = 3%Z ->
     (max_depth (self m) < req_max_depth (requirements (self m)))%Z ->
     max_depth (self m') = (max_depth (self m) + 1)%Z) /\
    (counter <> 3%Z
     \/ (req_max_depth (requirements (self m)) <= max_depth (self m))%Z ->
     max_depth (self m') = max_depth (self m)).
Proof.
  intros Hauto Hstep H. unfold adapt_depth in H.
  apply bind_Done in H as (u0 & m1 & H0 & H). run_step H0.
  apply bind_Done in H as (v & m1 & Hv & H).
  pose proof (update_stagnation_counter_single _ Hv) as Hsingle.
  apply update_stagnation_counter_Done in Hv as (-> & Hcount).
  apply bind_Done in H as (u1 & m1 & H1 & H). run_step H1.
  apply bind_Done in H as (s & m1 & Hs & H). run_step Hs.
  simpl in H, Hsingle, Hcount. rewrite Hauto in H. simpl in H.
  exists v.
  destruct (Z.eqb_spec (generation_num (self m)) 0) as [Hg | Hg];
    simpl in H.
  - run_step H. simpl.
    destruct Hcount as [-> | [Hne _]]; [| contradiction].
    split; [reflexivity |]. split; [now left |].
    split; [intros _ Hne; contradiction |].
    split; [intros Hv; discriminate | reflexivity].
  - apply bind_Done in H as (u2 & m1 & H2 & H). run_step H2.
    apply max_depth_recount_Done in H as (n & Hn & ->). simpl in *.
    injection Hn as <-. rewrite Hstep.
    split; [reflexivity |]. split; [assumption |].
    split; [intros Hmo _; now apply Hsingle |].
    split.
    + intros -> Hlt. simpl.
      destruct (Z.leb_spec (max_depth (self m) + 1)
                  (req_max_depth (requirements (self m)))); [reflexivity | lia].
    + intros [Hv | Hmax].
      * destruct (Z.eqb_spec v 3); [contradiction | reflexivity].
      * destruct (Z.leb_spec (max_depth (self m) + 1)
                    (req_max_depth (requirements (self m)))); [lia |].
        now rewrite andb_false_r.
Qed.

End DepthClaims.

(* ================================================================== *)
(** * The phases of the loop *)

Section LoopEvents.

Lemma generation_events_split (archived adjusted : bool) (g : Z)
    (reached : bool) :
  generation_events archived adjusted g reached
  = opening_events archived adjusted
    ++ [EvaluateOffspring; Inherit; RecordHistory; BudgetCheck g reached].
Proof. destruct archived, adjusted; reflexivity. Qed.

Lemma opening_events_quiet (archived adjusted : bool) :
  Forall (fun ev => is_budget_check ev = false)
    (opening_events archived adjusted).
Proof. destruct archived, adjusted; repeat constructor. Qed.

Lemma filter_quiet (l : list Event) :
  Forall (fun ev => is_budget_check ev = false) l ->
  filter is_budget_check l = [].
Proof.
  induction 1 as [| ev l Hev _ IH]; simpl; [reflexivity |].
  now rewrite Hev.
Qed.

Lemma nth_error_after_quiet (q rest : list Event) (i : nat) (ev : Event) :
  Forall (fun ev => is_budget_check ev = false) q ->
  nth_error (q ++ rest) i = Some ev ->
  is_budget_check ev = true ->
  (length q <= i)%nat /\ nth_error rest (i - length q) = Some ev.
Proof.
  intros Hq Hi Hev.
  destruct (Nat.lt_ge_cases i (length q)) as [Hlt | Hge].
  - rewrite nth_error_app1 in Hi by assumption.
    apply nth_error_In in Hi. rewrite Forall_forall in Hq.
    specialize (Hq _ Hi). congruence.
  - rewrite nth_error_app2 in Hi by assumption. auto.
Qed.

(** Where a budget check stands in the events of a generation followed
    by [evs]: it is the one that ends the generation, four places after
    its opening, or one of [evs]. *)
Lemma budget_check_position (archived adjusted : bool) (g : Z)
    (reached : bool) (evs : list Event) (i : nat) (g' : Z) (b' : bool) :
  nth_error (generation_events archived adjusted g reached ++ evs) i
  = Some (BudgetCheck g' b') ->
  let n := length (opening_events archived adjusted) in
  (i = (n + 3)%nat /\ g' = g /\ b' = reached) \/
  ((n + 4 <= i)%nat /\
   nth_error evs (i - (n + 4)) = Some (BudgetCheck g' b')).
Proof.
  intros H n. rewrite generation_events_split, <- app_assoc in H.
  apply nth_error_after_quiet in H as [Hle H];
    [| apply opening_events_quiet | reflexivity].
  fold n in Hle, H.
  destruct (i - n)%nat as [| [| [| [| k]]]] eqn:Hk; simpl in H;
    try discriminate.
  - left. injection H as -> ->. split; [lia | auto].
  - right. split; [lia |]. replace (i - (n + 4))%nat with k by lia.
    exact H.
Qed.

Lemma generation_events_tail (archived adjusted : bool) (g : Z)
    (reached : bool) (evs : list Event) (k : nat) :
  let n := length (opening_events archived adjusted) in
  nth_error (generation_events archived adjusted g reached ++ evs)
    (n + 4 + k)
  = nth_error evs k.
Proof.
  intros n. rewrite generation_events_split, <- app_assoc.
  rewrite nth_error_app2 by (fold n; lia). fold n.
  replace (n + 4 + k - n)%nat with (4 + k)%nat by lia. reflexivity.
Qed.

Lemma generation_events_closing (archived adjusted : bool) (g : Z)
    (reached : bool) (evs : list Event) :
  let n := length (opening_events archived adjusted) in
  let l := generation_events archived adjusted g reached ++ evs in
  nth_error l n = Some EvaluateOffspring /\
  nth_error l (n + 1) = Some Inherit /\
  nth_error l (n + 2) = Some RecordHistory /\
  length l = (n + 4 + length evs)%nat.
Proof.
  intros n l. unfold l. rewrite generation_events_split, <- app_assoc.
  assert (Hnth : forall k,
            nth_error
              (opening_events archived adjusted
               ++ [EvaluateOffspring; Inherit; RecordHistory;
                   BudgetCheck g reached] ++ evs) (n + k)
            = nth_error
                ([EvaluateOffspring; Inherit; RecordHistory;
                  BudgetCheck g reached] ++ evs) k).
  { intros k. rewrite nth_error_app2 by (fold n; lia). fold n.
    f_equal. lia. }
  rewrite <- (Nat.add_0_r n) at 1. rewrite !Hnth.
  rewrite length_app. fold n. simpl. repeat split. lia.
Qed.

(** There is one budget check for each generation completed. *)
Lemma loop_events_checks (gs : list Z) (evs : list Event) (k : nat) :
  loop_events gs evs k ->
  length (filter is_budget_check evs) = k.
Proof.
  induction 1 as [| g gs a d | g gs a d evs k _ IH]; [reflexivity | |].
  - rewrite generation_events_split, filter_app,
      (filter_quiet (opening_events_quiet a d)). reflexivity.
  - rewrite filter_app, generation_events_split, filter_app,
      (filter_quiet (opening_events_quiet a d)), length_app, IH.
    reflexivity.
Qed.

(** Each budget check comes right after the offspring were evaluated,
    the next population inherited and recorded. *)
Lemma loop_events_check_follows (gs : list Z) (evs : list Event) (k : nat) :
  loop_events gs evs k ->
  forall i g b,
    nth_error evs i = Some (BudgetCheck g b) ->
    exists j,
      i = (j + 3)%nat /\
      nth_error evs j = Some EvaluateOffspring /\
      nth_error evs (j + 1) = Some Inherit /\
      nth_error evs (j + 2) = Some RecordHistory.
Proof.
  induction 1 as [| g gs a d | g gs a d evs k _ IH]; intros i g' b' Hi.
  - destruct i; discriminate.
  - rewrite <- (app_nil_r (generation_events a d g true)) in Hi |- *.
    destruct (generation_events_closing a d g true []) as (E1 & E2 & E3 & _).
    apply budget_check_position in Hi as [(-> & _) | (_ & Hi)].
    + eexists. split; [reflexivity |]. auto.
    + destruct (i - _)%nat; discriminate.
  - destruct (generation_events_closing a d g false evs)
      as (E1 & E2 & E3 & _).
    pose proof (generation_events_tail a d g false evs) as Htail.
    apply budget_check_position in Hi as [(-> & _) | (Hle & Hi)].
    + eexists. split; [reflexivity |]. auto.
    + destruct (IH _ _ _ Hi) as (j & Hj & H1 & H2 & H3).
      exists (length (opening_events a d) + 4 + j)%nat.
      split; [lia |].
      rewrite <- !Nat.add_assoc, !Nat.add_assoc. simpl in Htail.
      rewrite <- (Nat.add_assoc _ j 1), <- (Nat.add_assoc _ j 2), !Htail.
      auto.
Qed.

(** A budget check that says the limit is reached is the last event of
    the loop. *)
Lemma loop_events_reached_last (gs : list Z) (evs : list Event) (k : nat) :
  loop_events gs evs k ->
  forall i g,
    nth_error evs i = Some (BudgetCheck g true) ->
    S i = length evs.
Proof.
  induction 1 as [| g gs a d | g gs a d evs k _ IH]; intros i g' Hi.
  - destruct i; discriminate.
  - rewrite <- (app_nil_r (generation_events a d g true)) in Hi |- *.
    destruct (generation_events_closing a d g true []) as (_ & _ & _ & E).
    apply budget_check_position in Hi as [(-> & _) | (_ & Hi)].
    + rewrite E. simpl. lia.
    + destruct (i - _)%nat; discriminate.
  - destruct (generation_events_closing a d g false evs) as (_ & _ & _ & E).
    apply budget_check_position in Hi as [(_ & _ & Hb) | (Hle & Hi)];
      [discriminate |].
    apply IH in Hi. rewrite E. lia.
Qed.

(** The loop completes every generation number, unless a budget check
    said the limit is reached. *)
Lemma loop_events_stops (gs : list Z) (evs : list Event) (k : nat) :
  loop_events gs evs k ->
  (k <= length gs)%nat /\
  ((k < length gs)%nat ->
   exists i g, nth_error evs i = Some (BudgetCheck g true)).
Proof.
  induction 1 as [| g gs a d | g gs a d evs k _ [IH1 IH2]]; simpl.
  - split; [lia | intros; lia].
  - split; [lia |]. intros _.
    destruct (generation_events_split a d g true) as [].
    exists (length (opening_events a d) + 3)%nat, g.
    rewrite generation_events_split, nth_error_app2 by lia.
    replace (length (opening_events a d) + 3 - length (opening_events a d))%nat
      with 3%nat by lia.
    reflexivity.
  - split; [lia |]. intros Hlt.
    destruct IH2 as (i & g' & Hi); [lia |].
    exists (length (opening_events a d) + 4 + i)%nat, g'.
    now rewrite (generation_events_tail a d g false evs).
Qed.

End LoopEvents.

Section RunClaims.

Context {F : Type} `{FO : FitnessOrder F} {FT : FitnessTotalOrder F}
        {AS : ArgSort F} {AC : ArgSortCorrect F}.
Variables W Archive Objective : Type.

Local Abbreviation Chain := (@Chain F).
Local Abbreviation Machine := (@Machine F W Archive).
Local Abbreviation M := (M Machine).
Local Abbreviation GPChainOptimiser := (@GPChainOptimiser F Archive).

Variable ops : @Operators F W Archive Objective.

Local Open Scope opt_scope.

Lemma length_Zrange (n : Z) : length (Zrange n) = Z.to_nat n.
Proof. unfold Zrange. now rewrite length_map, length_seq. Qed.

(** C6.  In a run of [optimise] that returns, the loop passes one budget
    check for each generation it records; each check comes right after
    the evaluation of the offspring, the inheritance and the record of
    that generation in the history; a check that finds the limit reached
    is the last event of the loop, and the loop stops short of the
    configured generations only on such a check.  The population held at
    the end is the last one recorded in the history; and when evaluation
    leaves no individual without a fitness and inheritance takes from
    what it is given, every recorded population (so the one held at the
    end) is fully evaluated. *)
Theorem budget_checked_between_generations (fuel : nat)
    (objective_function : Objective) (offspring_rate : option Q)
    (r : Best Archive * OptimiserHistory Archive) (m m' : Machine) :
  optimise ops fuel objective_function offspring_rate m = Done r m' ->
  exists initial generations_ evs (archived : bool),
    trace m'
    = trace m ++ [EvaluateInitial; RecordHistory] ++ evs
      ++ Finalize :: (if archived then [ArchiveUpdate] else []) /\
    individuals (snd r)
    = individuals (history (self m)) ++ initial :: generations_ /\
    population (self m') = Some (last generations_ initial) /\
    length (filter is_budget_check evs) = length generations_ /\
    (forall i g b,
        nth_error evs i = Some (BudgetCheck g b) ->
        exists j,
          i = (j + 3)%nat /\
          nth_error evs j = Some EvaluateOffspring /\
          nth_error evs (j + 1) = Some Inherit /\
          nth_error evs (j + 2) = Some RecordHistory) /\
    (forall i g,
        nth_error evs i = Some (BudgetCheck g true) ->
        S i = length evs) /\
    (length generations_
     <= Z.to_nat (num_of_generations (requirements (self m)) - 1))%nat /\
    ((length generations_
      < Z.to_nat (num_of_generations (requirements (self m)) - 1))%nat ->
     exists i g, nth_error evs i = Some (BudgetCheck g true)) /\
    (evaluation_complete ops -> inheritance_selects ops ->
     Forall (Forall (fun c => fitness c <> None))
       (initial :: generations_)).
Proof.
  intros Hrun.
  apply optimise_Done in Hrun
    as (n & p0 & pops & evs & archived & prim & _ & _ & _ & Hhist & Hpop
        & Hsucc & (pop & w0 & w1 & Heval0) & _ & Htrace & Hev & _ & Hsnd).
  exists p0, pops, evs, archived. rewrite Hsnd.
  assert (Hevaluated :
    evaluation_complete ops -> inheritance_selects ops ->
    Forall (Forall (fun c => fitness c <> None)) (p0 :: pops)).
  { intros Hcomplete Hselects.
    assert (H0 : Forall (fun c => fitness c <> None) p0).
    { apply Forall_forall. intros c Hc.
      apply (Hcomplete pop objective_function
               (multi_objective (parameters (self m))) w0).
      now rewrite Heval0. }
    constructor; [assumption |].
    eapply succession_invariant; [| exact H0 | exact Hsucc].
    intros p q Hp Hq. eapply successor_evaluated; eassumption. }
  destruct (loop_events_stops Hev) as [Hle Hstop].
  rewrite length_Zrange in Hle, Hstop.
  split; [assumption |]. split; [assumption |]. split; [assumption |].
  split; [exact (loop_events_checks Hev) |].
  split; [exact (loop_events_check_follows Hev) |].
  split; [exact (loop_events_reached_last Hev) |].
  split; [assumption |]. split; assumption.
Qed.

(** C7.  In multi-objective mode the result is the archive.  In
    single-objective mode with single-model chains configured, the result
    is the best single model when its fitness is at most that of the best
    evolved individual (a tie goes to the single model), and the best
    evolved individual otherwise; without single-model chains it is the
    best evolved individual. *)
Theorem result_individual_prefers_baseline (s : GPChainOptimiser) :
  (multi_objective (parameters s) = true ->
   result_individual s = Ok (BestArchive (archive s))) /\
  (multi_objective (parameters s) = false ->
   forall best f_best,
     best_individual s = Ok (BestChain best) ->
     fitness best = Some f_best ->
     (add_single_model_chains (requirements s) = false ->
      result_individual s = Ok (BestChain best)) /\
     (add_single_model_chains (requirements s) = true ->
      forall single f_single,
        best_single_model s = Some single ->
        fitness single = Some f_single ->
        (fit_leb f_single f_best = true ->
         result_individual s = Ok (BestChain single)) /\
        (fit_leb f_single f_best = false ->
         result_individual s = Ok (BestChain best)))).
Proof.
  unfold result_individual. split.
  - intros ->. reflexivity.
  - intros -> best f_best -> Hf. simpl. split.
    + intros ->. reflexivity.
    + intros -> single f_single -> Hs. simpl. rewrite Hs, Hf. simpl.
      split; intros ->; reflexivity.
Qed.

End RunClaims.

Section Construction.

Context {F : Type} `{FO : FitnessOrder F} {FT : FitnessTotalOrder F}
        {AS : ArgSort F} {AC : ArgSortCorrect F}.
Variable Archive : Type.

Local Abbreviation Chain := (@Chain F).
Local Abbreviation GPChainOptimiser := (@GPChainOptimiser F Archive).

(** C8.  The construction of the optimiser raises [AttributeError] if and
    only if the chain class lacks one of the five necessary attributes,
    and it raises nothing else: a chain class with all of them always
    yields an optimiser, one without never does. *)
Theorem init_fails_iff_attribute_missing
    (initial_chain : option (InitialChain (F := F)))
    (requirements_ : ComposerRequirements)
    (chain_generation_params_ : ChainGenerationParams)
    (parameters_ : option GPChainOptimiserParameters)
    (archive_type : option Archive) :
  (GPChainOptimiser_init initial_chain requirements_
     chain_generation_params_ parameters_ archive_type
   = Raise AttributeError
   <->
   exists attr,
     In attr ["add_node"; "root_node"; "replace_node_with_parents";
              "update_node"; "node_childs"]%string /\
     hasattr (chain_class chain_generation_params_) attr = false) /\
  (forall e,
      GPChainOptimiser_init initial_chain requirements_
        chain_generation_params_ parameters_ archive_type
      = Raise e ->
      e = AttributeError) /\
  ((forall attr,
       In attr ["add_node"; "root_node"; "replace_node_with_parents";
                "update_node"; "node_childs"]%string ->
       hasattr (chain_class chain_generation_params_) attr = true) ->
   exists s : GPChainOptimiser,
     GPChainOptimiser_init initial_chain requirements_
       chain_generation_params_ parameters_ archive_type
     = Ok s).
Proof.
  unfold GPChainOptimiser_init.
  change ["add_node"; "root_node"; "replace_node_with_parents";
          "update_node"; "node_childs"]%string with necessary_attrs.
  destruct (forallb (hasattr (chain_class chain_generation_params_))
              necessary_attrs) eqn:Hall; simpl.
  - rewrite forallb_forall in Hall. split; [split |].
    + discriminate.
    + intros (attr & Hin & Hno). rewrite (Hall _ Hin) in Hno. discriminate.
    + split; [discriminate |]. intros _. eauto.
  - split; [split |].
    + intros _.
      assert (Hex : existsb
                (fun a => negb (hasattr (chain_class chain_generation_params_) a))
                necessary_attrs = true).
      { clear -Hall. induction necessary_attrs as [| a l IH]; simpl in *;
          [discriminate |].
        destruct (hasattr (chain_class chain_generation_params_) a); simpl in *;
          auto. }
      apply existsb_exists in Hex as (attr & Hin & Hno).
      exists attr. split; [assumption |].
      now apply negb_true_iff in Hno.
    + reflexivity.
    + split; [intros e He; congruence |].
      intros Hhas. exfalso.
      assert (forallb (hasattr (chain_class chain_generation_params_))
                necessary_attrs = true)
        by (apply forallb_forall; exact Hhas).
      congruence.
Qed.

End Construction.

(* ================================================================== *)
(** * Runs that raise *)

Section Failures.

Context {F : Type} `{FO : FitnessOrder F} {FT : FitnessTotalOrder F}
        {AS : ArgSort F} {AC : ArgSortCorrect F}.
Variables W Archive Objective : Type.

Local Abbreviation Chain := (@Chain F).
Local Abbreviation Machine := (@Machine F W Archive).
Local Abbreviation M := (M Machine).
Local Abbreviation GPChainOptimiser := (@GPChainOptimiser F Archive).

Variable ops : @Operators F W Archive Objective.

Local Open Scope opt_scope.

Lemma bind_Done_fwd {A B} (c : M A) (k : A -> M B) (m m1 : Machine) (a : A) :
  c m = Done a m1 -> bind c k m = k a m1.
Proof. unfold bind. now intros ->. Qed.

Lemma bind_Fail_fwd {A B} (c : M A) (k : A -> M B) (m m1 : Machine)
    (e : exn) :
  c m = Fail e m1 -> bind c k m = Fail e m1.
Proof. unfold bind. now intros ->. Qed.

Lemma mapM_ext_total {A B} (f : A -> W -> B * W) (l : list A) :
  forall m : Machine,
    exists r m',
      mapM (fun x => ext (f x)) l m = Done r m' /\
      self m' = self m /\ trace m' = trace m.
Proof.
  induction l as [| x l IH]; intros m; simpl.
  - exists [], m. auto.
  - unfold ext at 1. unfold bind at 1.
    destruct (f x (world m)) as [y w].
    destruct (IH (mkMachine (self m) w (trace m))) as (ys & m' & Hys & E1 & E2).
    unfold bind. rewrite Hys. exists (y :: ys), m'. auto.
Qed.

(** Reproduction of two individuals, or of one, always returns. *)
Lemma reproduce_total (first : Chain) (second : option Chain) (m : Machine) :
  exists r m',
    reproduce ops first second m = Done r m' /\
    self m' = self m /\ trace m' = trace m.
Proof.
  unfold reproduce. unfold bind at 1. unfold get at 1.
  destruct second as [snd_ |].
  - unfold bind at 1. unfold ext at 1.
    destruct (crossover ops (crossover_types (parameters (self m))) first snd_
                (crossover_prob (requirements (self m))) (max_depth (self m))
                (world m)) as [new_inds w].
    apply (mapM_ext_total _ new_inds (mkMachine (self m) w (trace m))).
  - unfold bind at 1. unfold ret at 1.
    apply (mapM_ext_total _ [first] m).
Qed.

(** With a single individual, reproduction is mutation alone. *)
Lemma reproduce_asexual (first : Chain) (m : Machine) :
  reproduce ops first None m
  = let (mutant, w) :=
      mutation ops (mutation_types (parameters (self m)))
        (chain_generation_params (self m)) first (requirements (self m))
        (max_depth (self m)) (world m) in
    Done [mutant] (mkMachine (self m) w (trace m)).
Proof.
  unfold reproduce, bind, get, ret, ext. simpl. unfold bind, ext, ret. simpl.
  destruct (mutation ops (mutation_types (parameters (self m)))
              (chain_generation_params (self m)) first (requirements (self m))
              (max_depth (self m)) (world m)).
  reflexivity.
Qed.

Lemma reproduction_loop_unpaired (selected : list Chain) (count : nat) :
  forall (start : nat) (acc : list Chain) (m : Machine),
    (start + 2 * count = length selected + 1)%nat ->
    (1 <= count)%nat ->
    exists m',
      reproduction_loop ops selected (range_from start count 2) acc m
      = Fail IndexError m' /\
      self m' = self m /\ trace m' = trace m.
Proof.
  induction count as [| count IH]; intros start acc m Hlen Hpos; [lia |].
  simpl range_from. simpl reproduction_loop.
  destruct (nth_error selected start) as [x |] eqn:Hx;
    [| apply nth_error_None in Hx; lia].
  erewrite bind_Done_fwd;
    [| unfold lift, py_index; rewrite Hx; reflexivity].
  destruct count as [| count'].
  - assert (Hy : nth_error selected (start + 1) = None)
      by (apply nth_error_None; lia).
    exists m. split; [| auto].
    apply bind_Fail_fwd. unfold lift, py_index. now rewrite Hy.
  - destruct (nth_error selected (start + 1)) as [y |] eqn:Hy;
      [| apply nth_error_None in Hy; lia].
    erewrite bind_Done_fwd;
      [| unfold lift, py_index; rewrite Hy; reflexivity].
    destruct (reproduce_total x (Some y) m) as (r & m1 & Hr & E1 & E2).
    erewrite bind_Done_fwd; [| exact Hr].
    destruct (IH (start + 2)%nat (acc ++ r) m1) as (m' & Hrun & E1' & E2');
      [lia | lia |].
    exists m'. split; [assumption |]. split; congruence.
Qed.

(** C2.  When selection returns an odd number of individuals, the loop
    of [optimise] over the pairs of parents raises [IndexError] at the
    last, unpaired parent (the pairs before it have reproduced): the
    unpaired individual is never handed to [reproduce] alone. *)
Theorem reproduction_raises_on_odd_selection
    (selected_individuals : list Chain) (m : Machine) :
  Nat.odd (length selected_individuals) = true ->
  exists m',
    reproduction_loop ops selected_individuals
      (py_range 0 (length selected_individuals) 2) [] m
    = Fail IndexError m' /\
    self m' = self m /\ trace m' = trace m.
Proof.
  intros Hodd. unfold py_range.
  apply Nat.odd_spec in Hodd as (k & Hk).
  replace ((length selected_individuals - 0 + (2 - 1)) / 2)%nat
    with (S k).
  - apply reproduction_loop_unpaired; lia.
  - rewrite Hk.
    replace (2 * k + 1 - 0 + (2 - 1))%nat with (S k * 2)%nat by lia.
    now rewrite Nat.div_mul.
Qed.


Lemma optimise_setup_ready (fuel : nat) (offspring_rate : option Q)
    (m : Machine) (pop : list Chain) (p : Z) :
  population (self m) = Some pop ->
  pop_size (requirements (self m)) = Some p ->
  exists n, optimise_setup ops fuel offspring_rate m = Done n m.
Proof.
  intros Hpop Hp. unfold optimise_setup.
  unfold bind, get. rewrite Hpop. unfold ret, get, lift.
  unfold offspring_size, req_pop_size. rewrite Hp. simpl.
  destruct (GeneticScheme_eqb (genetic_scheme_type (parameters (self m)))
              steady_state); eauto.
Qed.

(** A run on an empty population, in single-objective mode without
    single-model chains: the population is evaluated and recorded, and
    the first search for the best individual raises [ValueError]. *)
Lemma optimise_empty_population (fuel : nat)
    (objective_function : Objective) (offspring_rate : option Q)
    (m : Machine) (p : Z) :
  population (self m) = Some [] ->
  pop_size (requirements (self m)) = Some p ->
  multi_objective (parameters (self m)) = false ->
  add_single_model_chains (requirements (self m)) = false ->
  fst (evaluate_individuals ops [] objective_function false (world m)) = [] ->
  exists m',
    optimise ops fuel objective_function offspring_rate m
    = Fail ValueError m' /\
    trace m' = trace m ++ [EvaluateInitial; RecordHistory] /\
    individuals (history (self m')) = individuals (history (self m)) ++ [[]] /\
    population (self m') = Some [].
Proof.
  intros Hpop Hp Hmo Hsingle Heval.
  destruct (optimise_setup_ready fuel offspring_rate m Hpop Hp) as (n & Hn).
  unfold optimise. erewrite bind_Done_fwd; [| exact Hn].
  erewrite bind_Done_fwd; [| reflexivity].
  destruct (evaluate_individuals ops [] objective_function false (world m))
    as [l w] eqn:Hev.
  simpl in Heval. subst l.
  eexists. split.
  - apply bind_Fail_fwd.
    unfold evaluate_initial, add_to_history, log_info_about_best.
    unfold bind, get, emit, modify, lift, ext, ret; simpl.
    rewrite Hsingle. unfold the_population; simpl. rewrite Hpop, Hmo.
    cbn [world self trace]. rewrite Hev.
    simpl. unfold best_individual, the_population. simpl. rewrite Hmo.
    simpl. reflexivity.
  - simpl. rewrite <- app_assoc. auto.
Qed.

Lemma py_index_lt {A} (l : list A) (i : nat) :
  (i < length l)%nat -> exists x, py_index l i = Ok x /\ nth_error l i = Some x.
Proof.
  intros Hi. unfold py_index.
  destruct (nth_error l i) as [x |] eqn:E.
  - exists x. auto.
  - apply nth_error_None in E. lia.
Qed.

Lemma reproduction_loop_paired (selected : list Chain) (count : nat) :
  forall (start : nat) (acc : list Chain) (m : Machine),
    (start + 2 * count <= length selected)%nat ->
    exists children m',
      reproduction_loop ops selected (range_from start count 2) acc m
      = Done (acc ++ children) m' /\
      self m' = self m /\ trace m' = trace m /\
      ((forall ts a b p d w,
           length (fst (crossover ops ts a b p d w)) = 2%nat) ->
       length children = (2 * count)%nat).
Proof.
  induction count as [| count IH]; intros start acc m Hlen; simpl.
  - exists [], m. rewrite app_nil_r. auto.
  - destruct (@py_index_lt _ selected start) as (first & Hf & _); [lia |].
    destruct (@py_index_lt _ selected (start + 1)) as (second & Hs & _);
      [lia |].
    rewrite Hf, Hs. unfold lift at 1. unfold bind at 1.
    unfold lift at 1. unfold bind at 1.
    destruct (reproduce_total first (Some second) m)
      as (new_inds & m1 & Hr & E1 & E2).
    unfold bind at 1. rewrite Hr.
    destruct (IH (start + 2)%nat (acc ++ new_inds) m1)
      as (children & m' & Hloop & E3 & E4 & Hcount); [lia |].
    exists (new_inds ++ children), m'.
    rewrite app_assoc. split; [exact Hloop |].
    split; [congruence |]. split; [congruence |].
    intros Htwo. rewrite length_app, (Hcount Htwo).
    enough (length new_inds = 2%nat) by lia.
    unfold reproduce in Hr.
    apply bind_Done in Hr as (s & m2 & Hs2 & Hr). run_step Hs2.
    apply bind_Done in Hr as (crossed & m2 & Hc & Hr).
    apply mapM_ext_frame in Hr as (_ & _ & ->).
    unfold ext in Hc.
    specialize (Htwo (crossover_types (parameters (self m))) first second
                  (crossover_prob (requirements (self m)))
                  (max_depth (self m)) (world m)).
    destruct (crossover ops (crossover_types (parameters (self m))) first
                second (crossover_prob (requirements (self m)))
                (max_depth (self m)) (world m)) as [l w].
    injection Hc as <- _. exact Htwo.
Qed.

Lemma py_range_even (k : nat) :
  py_range 0 (2 * k) 2 = range_from 0 k 2.
Proof.
  unfold py_range. f_equal.
  replace (2 * k - 0 + (2 - 1))%nat with (1 + k * 2)%nat by lia.
  rewrite Nat.div_add by lia. reflexivity.
Qed.

(** A reproduction loop that returns has paired every selected
    individual. *)
Lemma reproduction_loop_even (selected children : list Chain)
    (m m' : Machine) :
  reproduction_loop ops selected (py_range 0 (length selected) 2) [] m
  = Done children m' ->
  Nat.even (length selected) = true /\
  ((forall ts a b p d w,
       length (fst (crossover ops ts a b p d w)) = 2%nat) ->
   length children = length selected).
Proof.
  intros H.
  destruct (Nat.even (length selected)) eqn:Heven.
  - split; [reflexivity |].
    apply Nat.even_spec in Heven as (k & Hk).
    rewrite Hk, py_range_even in H.
    destruct (@reproduction_loop_paired selected k 0%nat [] m)
      as (children' & m1 & H' & _ & _ & Hcount); [lia |].
    rewrite H' in H. simpl in H. injection H as <- _.
    intros Htwo. rewrite (Hcount Htwo). lia.
  - exfalso.
    assert (Hodd : Nat.odd (length selected) = true)
      by (unfold Nat.odd; now rewrite Heven).
    apply Nat.odd_spec in Hodd as (k & Hk).
    assert (Hr : py_range 0 (length selected) 2 = range_from 0 (S k) 2).
    { unfold py_range. f_equal. rewrite Hk.
      replace (2 * k + 1 - 0 + (2 - 1))%nat with (S k * 2)%nat by lia.
      now rewrite Nat.div_mul. }
    rewrite Hr in H.
    destruct (@reproduction_loop_unpaired selected (S k) 0%nat [] m)
      as (m1 & H' & _); [lia | lia |].
    rewrite H' in H. discriminate.
Qed.

(** What [breed] does with the number of new individuals it is given:
    it goes to [num_of_parents_in_crossover], whose result is the number
    of parents asked of the selection; the selected parents reproduce in
    pairs, and the offspring are evaluated. *)
Lemma breed_shape (objective_function : Objective) (n : Z)
    (offspring : list Chain) (m m' : Machine) :
  breed ops objective_function n m = Done offspring m' ->
  exists pool selected children w w' w0 m1 m2,
    selection ops (selection_types (parameters (self m))) pool
      (num_of_parents_in_crossover ops n) w
    = (selected, w') /\
    reproduction_loop ops selected (py_range 0 (length selected) 2) [] m1
    = Done children m2 /\
    evaluate_individuals ops children objective_function
      (multi_objective (parameters (self m))) w0
    = (offspring, world m').
Proof.
  unfold breed. intros H.
  apply bind_Done in H as (u0 & m0 & H0 & H). run_step H0.
  apply bind_Done in H as (s & m0 & Hs & H). run_step Hs.
  apply bind_Done in H as (pop & m0 & Hp & H). run_step Hp.
  apply bind_Done in H as (pool & m0 & Hr & H). run_step Hr.
  cbv zeta in H.
  apply bind_Done in H as (u1 & m1 & H1 & H). run_step H1.
  apply bind_Done in H as (selected & m1 & Hsel & H).
  apply ext_Done in Hsel as (w' & Hsel & ->).
  apply bind_Done in H as (u2 & m2 & H2 & H). run_step H2.
  apply bind_Done in H as (children & m3 & Hloop & H).
  apply bind_Done in H as (u3 & m4 & H3 & H). run_step H3.
  apply ext_Done in H as (w2 & Hev & ->).
  simpl in *.
  eexists _, selected, children, _, w', _, _, m3.
  split; [exact Hsel |]. split; [exact Hloop |]. exact Hev.
Qed.

End Failures.

Section EmptyPopulation.

Context {F : Type} `{FO : FitnessOrder F} {FT : FitnessTotalOrder F}
        {AS : ArgSort F} {AC : ArgSortCorrect F}.
Variables W Archive Objective : Type.

Local Abbreviation Chain := (@Chain F).
Local Abbreviation Machine := (@Machine F W Archive).

Variable ops : @Operators F W Archive Objective.

(** C9, as the code has it.  An empty list given as the initial
    population is accepted by the construction and kept as the
    population; [optimise] does not replace it (only a missing population
    is generated) and hands it to the evaluation.  In single-objective
    mode without single-model chains, when the evaluation leaves it
    empty, it is recorded in the history and the run then raises
    [ValueError] from the first search for the best individual. *)
Theorem empty_initial_population_fails_at_best
    (requirements_ : ComposerRequirements)
    (chain_generation_params_ : ChainGenerationParams)
    (parameters_ : option GPChainOptimiserParameters)
    (archive_type : option Archive) (fuel : nat)
    (objective_function : Objective) (offspring_rate : option Q) (w : W) :
  forallb (hasattr (chain_class chain_generation_params_)) necessary_attrs
  = true ->
  multi_objective
    (match parameters_ with
     | Some p => p
     | None => default_parameters
     end) = false ->
  add_single_model_chains requirements_ = false ->
  fst (evaluate_individuals ops [] objective_function false w) = [] ->
  exists s m',
    GPChainOptimiser_init (Some (chain_list [])) requirements_
      chain_generation_params_ parameters_ archive_type
    = Ok s /\
    population s = Some [] /\
    optimise ops fuel objective_function offspring_rate (mkMachine s w [])
    = Fail ValueError m' /\
    trace m' = [EvaluateInitial; RecordHistory] /\
    individuals (history (self m')) = [[]] /\
    population (self m') = Some [].
Proof.
  intros Hattrs Hmo Hsingle Heval.
  unfold GPChainOptimiser_init. rewrite Hattrs. simpl.
  eexists. 
  match goal with
  | |- exists m', Ok ?s = Ok _ /\ _ =>
      destruct (@optimise_empty_population F FO AS W Archive Objective ops fuel
                  objective_function offspring_rate (mkMachine s w [])
                  (match pop_size requirements_ with
                   | Some z => if (z =? 0)%Z then 10%Z else z
                   | None => 10%Z
                   end))
        as (m' & Hrun & Htr & Hhist & Hpop)
  end; simpl; try assumption; try reflexivity.
  - destruct (pop_size requirements_) as [z |] eqn:E; simpl;
      [| reflexivity].
    destruct (z =? 0)%Z; simpl; [reflexivity | exact E].
  - destruct (negb (truthy (pop_size requirements_))); assumption.
  - exists m'. simpl in *. auto 10.
Qed.

End EmptyPopulation.

(* ================================================================== *)
(** * The number of new individuals: asked for and produced *)

Section Offspring.

Context {F : Type} `{FO : FitnessOrder F} {FT : FitnessTotalOrder F}
        {AS : ArgSort F} {AC : ArgSortCorrect F}.
Variables W Archive Objective : Type.

Local Abbreviation Chain := (@Chain F).
Local Abbreviation Machine := (@Machine F W Archive).
Local Abbreviation M := (M Machine).
Local Abbreviation GPChainOptimiser := (@GPChainOptimiser F Archive).

Variable ops : @Operators F W Archive Objective.

Local Open Scope opt_scope.

(** C10.  The number of new individuals that [optimise] computes before
    the loop is the number it asks for, not the number produced.  It is
    [pop_size - 1] under the generational scheme whatever the offspring
    rate, and under the steady-state scheme [math.ceil] of the float
    product of [pop_size] and the rate, a rate of zero (or none) being
    replaced by one half.  Each generation hands it to
    [num_of_parents_in_crossover], whose result is the number of parents
    asked of the selection; the new individuals are the chains that the
    pairs of selected parents give: in a generation that completes the
    parents are even in number, and the chains as many as the parents
    when crossover gives two for two. *)
Theorem offspring_size_by_scheme (fuel : nat) (offspring_rate : option Q)
    (n : Z) (m m' : Machine) (p : Z) :
  pop_size (requirements (self m)) = Some p ->
  optimise_setup ops fuel offspring_rate m = Done n m' ->
  (genetic_scheme_type (parameters (self m)) = generational ->
   n = (p - 1)%Z) /\
  (genetic_scheme_type (parameters (self m)) = steady_state ->
   match offspring_rate with
   | Some rate =>
       if Qeq_bool (binary64 rate) 0
       then n = ceil_mul p (1 # 2)
       else n = ceil_mul p (binary64 rate)
   | None => n = ceil_mul p (1 # 2)
   end) /\
  (forall objective_function g offspring g',
      breed ops objective_function n g = Done offspring g' ->
      exists pool selected children w w' w0 g1 g2,
        selection ops (selection_types (parameters (self g))) pool
          (num_of_parents_in_crossover ops n) w
        = (selected, w') /\
        reproduction_loop ops selected (py_range 0 (length selected) 2) []
          g1
        = Done children g2 /\
        evaluate_individuals ops children objective_function
          (multi_objective (parameters (self g))) w0
        = (offspring, world g') /\
        Nat.even (length selected) = true /\
        ((forall ts a b q d v,
             length (fst (crossover ops ts a b q d v)) = 2%nat) ->
         length children = length selected)).
Proof.
  intros Hp H. apply optimise_setup_Done in H as (Hn & _).
  unfold offspring_size, req_pop_size in Hn. rewrite Hp in Hn. simpl in Hn.
  split; [| split].
  - intros Hs. rewrite Hs in Hn. simpl in Hn. congruence.
  - intros Hs. rewrite Hs in Hn. simpl in Hn.
    destruct offspring_rate as [rate |]; [| congruence].
    destruct (Qeq_bool (binary64 rate) 0); congruence.
  - intros objective_function g offspring g' Hbreed.
    apply breed_shape in Hbreed
      as (pool & selected & children & w & w' & w0 & g1 & g2 & Hsel & Hloop
          & Hev).
    destruct (reproduction_loop_even ops _ _ Hloop) as (Heven & Hcount).
    exists pool, selected, children, w, w', w0, g1, g2. auto 10.
Qed.

End Offspring.

(** The float product and its ceiling where it differs from the ceiling
    of the exact product: 25 * 0.28 is 7.000000000000001 as a float, and
    10 * 0.1 is 1.0 although the float 0.1 is above one tenth. *)
Example ceil_mul_rounds_as_floats :
  ceil_mul 25 (binary64 (28 # 100)) = 8%Z /\
  Qceiling (inject_Z 25 * (28 # 100)) = 7%Z /\
  ceil_mul 10 (binary64 (1 # 10)) = 1%Z /\
  Qceiling (inject_Z 10 * binary64 (1 # 10)) = 2%Z /\
  Qeq_bool (binary64 (1 # 10)) (3602879701896397 # 36028797018963968)
  = true.
Proof. vm_compute. repeat split; reflexivity. Qed.

(* ================================================================== *)
(** * The claims on the deterministic instance *)

Lemma population_size_after_inheritance_witness :
  let m := Sample.start Sample.plain in
  exists r m',
    pop_size (requirements (self m)) = Some 4%Z /\
    optimise Sample.operators 10 Sample.node_count (Some (1 # 2)) m
    = Done r m' /\
    exists initial generations_,
      individuals (snd r)
      = individuals (history (self m)) ++ initial :: generations_ /\
      forall i previous current,
        nth_error (initial :: generations_) i = Some previous ->
        nth_error generations_ i = Some current ->
        exists offspring next w w',
          let elite :=
            negb (multi_objective (parameters (self m))) && (1 <? 4)%Z in
          let slot := if elite then 1%Z else 0%Z in
          inheritance Sample.operators
            (genetic_scheme_type (parameters (self m)))
            (selection_types (parameters (self m))) previous offspring
            (4 - slot) w
          = (next, w') /\
          length current = (length next + Z.to_nat slot)%nat /\
          (Z.of_nat (length next) = (4 - slot)%Z ->
           Z.of_nat (length current) = 4%Z).
Proof.
  intros m.
  assert (H : exists r m',
             optimise Sample.operators 10 Sample.node_count (Some (1 # 2)) m
             = Done r m')
    by (vm_compute; do 2 eexists; reflexivity).
  destruct H as (r & m' & H). exists r, m'.
  split; [reflexivity |]. split; [exact H |].
  exact (population_size_after_inheritance Sample.operators 10
           Sample.node_count (Some (1 # 2)) m (p := 4%Z) eq_refl H).
Defined.

(** The populations recorded by the run of the sample all have the
    configured size. *)
Example recorded_sizes_of_the_sample_run :
  match optimise Sample.operators 10 Sample.node_count (Some (1 # 2))
          (Sample.start Sample.plain) with
  | Done r _ => map (@length _) (individuals (snd r))
  | _ => []
  end = [4; 4; 4; 4]%nat.
Proof. vm_compute. reflexivity. Qed.

Lemma elitism_best_never_worse_witness :
  exists r m',
    multi_objective (parameters (self (Sample.start Sample.plain))) = false /\
    pop_size (requirements (self (Sample.start Sample.plain))) = Some 4%Z /\
    (1 < 4)%Z /\
    optimise Sample.operators 10 Sample.node_count (Some (1 # 2))
      (Sample.start Sample.plain) = Done r m' /\
    exists recorded,
      individuals (snd r)
      = individuals (history (self (Sample.start Sample.plain))) ++ recorded /\
      forall i generation_n generation_n1,
        nth_error recorded i = Some generation_n ->
        nth_error recorded (S i) = Some generation_n1 ->
        exists best_n best_n1,
          get_best_individual generation_n generation_n true = Ok best_n /\
          get_best_individual generation_n1 generation_n1 true = Ok best_n1 /\
          In best_n generation_n1 /\
          not_worse (fitness best_n1) (fitness best_n).
Proof.
  assert (H : exists r m',
             optimise Sample.operators 10 Sample.node_count (Some (1 # 2))
               (Sample.start Sample.plain) = Done r m')
    by (vm_compute; do 2 eexists; reflexivity).
  destruct H as (r & m' & H). exists r, m'.
  split; [reflexivity |]. split; [reflexivity |]. split; [lia |].
  split; [exact H |].
  eapply elitism_best_never_worse with (ops := Sample.operators);
    [reflexivity | reflexivity | lia | exact H].
Defined.

Lemma get_best_individual_of_another_list_witness :
  let population :=
    [Sample.chain_of 1 (Some 0%Z); Sample.chain_of 1 (Some 1%Z)] in
  let individuals :=
    [Sample.chain_of 2 (Some 1%Z); Sample.chain_of 3 (Some 5%Z)] in
  @ArgSortCorrect Z _ Z_ArgSort /\
  exists best better,
    @get_best_individual Z _ Z_ArgSort population individuals true
    = Ok best /\
    fitness best = Some 5%Z /\
    In better individuals /\
    fitness better = Some 1%Z /\
    ~ not_worse (fitness best) (fitness better).
Proof.
  intros population individuals.
  split; [exact Z_ArgSortCorrect |].
  exact (@get_best_individual_of_another_list Z_ArgSort Z_ArgSortCorrect).
Defined.

(** The tie-break misses the simplest individual on a population of two
    when the sort reverses the ties. *)
Lemma get_best_individual_misses_simplest_under_reversed_ties :
  let population :=
    [Sample.chain_of 2 (Some 1%Z); Sample.chain_of 1 (Some 1%Z)] in
  let simplest := Sample.chain_of 1 (Some 1%Z) in
  let earlier := Sample.chain_of 2 (Some 1%Z) in
  @ArgSortCorrect Z _ ties_reversed /\
  (forall c, In c population -> fitness c <> None) /\
  @argsort Z ties_reversed (map fitness population) = Ok [1; 0]%nat /\
  nth_error population 1 = Some simplest /\
  (forall c, In c population ->
             not_worse (fitness simplest) (fitness c)) /\
  (0 < 1)%nat /\
  nth_error population 0 = Some earlier /\
  fitness earlier = fitness simplest /\
  (forall k c, k <> 1%nat -> nth_error population k = Some c ->
               fitness c = fitness simplest ->
               (length (nodes simplest) < length (nodes c))%nat) /\
  exists best,
    @get_best_individual Z _ ties_reversed population population true
    = Ok best /\
    fitness best = fitness simplest /\
    (length (nodes simplest) < length (nodes best))%nat.
Proof.
  intros population simplest earlier.
  assert (Heval : forall c, In c population -> fitness c <> None).
  { intros c [<- | [<- | []]]; discriminate. }
  assert (Hleast : forall c, In c population ->
                             not_worse (fitness simplest) (fitness c)).
  { intros c [<- | [<- | []]]; reflexivity. }
  assert (Hstrict : forall k c, k <> 1%nat ->
            nth_error population k = Some c ->
            fitness c = fitness simplest ->
            (length (nodes simplest) < length (nodes c))%nat).
  { intros [| [| k]] c Hk Hc _; [| congruence | destruct k; discriminate].
    injection Hc as <-. simpl. lia. }
  split; [exact ties_reversed_correct |]. split; [exact Heval |].
  split; [reflexivity |]. split; [reflexivity |]. split; [exact Hleast |].
  split; [lia |]. split; [reflexivity |]. split; [reflexivity |].
  split; [exact Hstrict |].
  exact (@get_best_individual_misses_simplest_sorted_first Z _ _
           ties_reversed ties_reversed_correct population 1%nat 0%nat
           [0%nat] simplest earlier Heval eq_refl eq_refl Hleast
           (Nat.lt_0_succ 0) eq_refl eq_refl Hstrict).
Defined.

Lemma auto_depth_increase_on_third_stagnation_witness :
  exists u m',
    with_auto_depth_configuration
      (parameters (self (Sample.start Sample.stagnant))) = true /\
    depth_increase_step (parameters (self (Sample.start Sample.stagnant)))
    = 3%Z /\
    adapt_depth Sample.operators (Sample.start Sample.stagnant) = Done u m' /\
    max_depth (self (Sample.start Sample.stagnant)) = 2%Z /\
    num_of_gens_without_improvements (self m') = Some 3%Z /\
    max_depth (self m') = 3%Z.
Proof.
  assert (H : exists u m',
             adapt_depth Sample.operators (Sample.start Sample.stagnant)
             = Done u m' /\
             num_of_gens_without_improvements (self m') = Some 3%Z)
    by (vm_compute; do 2 eexists; split; reflexivity).
  destruct H as (u & m' & H & Hcount). exists u, m'.
  split; [reflexivity |]. split; [reflexivity |]. split; [exact H |].
  split; [reflexivity |]. split; [exact Hcount |].
  destruct (auto_depth_increase_on_third_stagnation
              Sample.operators (Sample.start Sample.stagnant)
              eq_refl eq_refl H)
    as (counter & Hc & _ & _ & Hup & _).
  assert (counter = 3%Z) as -> by congruence.
  rewrite Hup; [reflexivity | reflexivity | vm_compute; reflexivity].
Defined.

(** With a best fitness that never changes, the counter reaches 3 in the
    fourth generation and the depth bound goes from 1 to 2 there; later
    generations of the same plateau leave it. *)
Example depth_on_a_plateau :
  map Sample.depth_after [3; 4; 5; 6]%Z
  = [Some (1, Some 2); Some (2, Some 3); Some (2, Some 4);
     Some (2, Some 5)]%Z.
Proof. vm_compute. reflexivity. Qed.

Lemma careful_evaluation_complete : evaluation_complete Sample.careful.
Proof.
  intros l f multi w c Hc. simpl in Hc. unfold Sample.evaluated in Hc.
  apply filter_In in Hc as [_ Hc]. destruct (fitness c); congruence.
Qed.

Lemma In_firstn {A} (n : nat) : forall (l : list A) (x : A),
  In x (firstn n l) -> In x l.
Proof.
  induction n as [| n IH]; intros [| y l] x H; simpl in *; try tauto.
  destruct H as [H | H]; auto.
Qed.

Lemma careful_inheritance_selects : inheritance_selects Sample.careful.
Proof.
  intros scheme sel prev new size w c Hc. simpl in Hc.
  apply In_firstn, in_app_or in Hc. tauto.
Qed.

Lemma budget_checked_between_generations_witness :
  exists r m',
    optimise Sample.careful 10 Sample.node_count (Some (1 # 2))
      (Sample.start Sample.hurried) = Done r m' /\
    exists initial generations_ evs (archived : bool),
      trace m'
      = trace (Sample.start Sample.hurried)
        ++ [EvaluateInitial; RecordHistory] ++ evs
        ++ Finalize :: (if archived then [ArchiveUpdate] else []) /\
      individuals (snd r)
      = individuals (history (self (Sample.start Sample.hurried)))
        ++ initial :: generations_ /\
      population (self m') = Some (last generations_ initial) /\
      length (filter is_budget_check evs) = length generations_ /\
      (forall i g b,
          nth_error evs i = Some (BudgetCheck g b) ->
          exists j,
            i = (j + 3)%nat /\
            nth_error evs j = Some EvaluateOffspring /\
            nth_error evs (j + 1) = Some Inherit /\
            nth_error evs (j + 2) = Some RecordHistory) /\
      (forall i g,
          nth_error evs i = Some (BudgetCheck g true) ->
          S i = length evs) /\
      (length generations_
       <= Z.to_nat
            (num_of_generations
               (requirements (self (Sample.start Sample.hurried))) - 1))%nat /\
      ((length generations_
        < Z.to_nat
            (num_of_generations
               (requirements (self (Sample.start Sample.hurried))) - 1))%nat ->
       exists i g, nth_error evs i = Some (BudgetCheck g true)) /\
      Forall (Forall (fun c => fitness c <> None))
        (initial :: generations_).
Proof.
  assert (H : exists r m',
             optimise Sample.careful 10 Sample.node_count (Some (1 # 2))
               (Sample.start Sample.hurried) = Done r m')
    by (vm_compute; do 2 eexists; reflexivity).
  destruct H as (r & m' & H). exists r, m'. split; [exact H |].
  destruct (budget_checked_between_generations Sample.careful 10
              Sample.node_count (Some (1 # 2)) (Sample.start Sample.hurried)
              H)
    as (initial & generations_ & evs & archived & H1 & H2 & H3 & H4 & H5
        & H6 & H7 & H8 & H9).
  exists initial, generations_, evs, archived.
  repeat (split; [assumption |]).
  exact (H9 careful_evaluation_complete careful_inheritance_selects).
Defined.

(** The events of that run: the limit is found reached at the end of the
    second generation, out of the five the loop could make. *)
Example hurried_run_events :
  match optimise Sample.careful 10 Sample.node_count (Some (1 # 2))
          (Sample.start Sample.hurried) with
  | Done r m' =>
      trace m'
      = [EvaluateInitial; RecordHistory;
         StagnationCheck; Regularize; Select; Reproduce;
         EvaluateOffspring; Inherit; RecordHistory; BudgetCheck 0 false;
         StagnationCheck; Regularize; Select; Reproduce;
         EvaluateOffspring; Inherit; RecordHistory; BudgetCheck 1 true;
         Finalize] /\
      length (individuals (snd r)) = 3%nat
  | _ => False
  end.
Proof. vm_compute. split; reflexivity. Qed.

Lemma offspring_size_by_scheme_witness :
  (exists n m',
      pop_size (requirements (self (Sample.start Sample.plain)))
      = Some 4%Z /\
      optimise_setup Sample.operators 10 (Some (0 # 1))
        (Sample.start Sample.plain) = Done n m' /\
      genetic_scheme_type (parameters (self (Sample.start Sample.plain)))
      = generational /\
      n = (4 - 1)%Z) /\
  (exists n m',
      pop_size (requirements (self (Sample.start Sample.steady)))
      = Some 4%Z /\
      optimise_setup Sample.operators 10 (Some (28 # 100))
        (Sample.start Sample.steady) = Done n m' /\
      genetic_scheme_type (parameters (self (Sample.start Sample.steady)))
      = steady_state /\
      n = ceil_mul 4 (binary64 (28 # 100)) /\
      n = 2%Z).
Proof.
  split.
  - assert (H : exists n m',
               optimise_setup Sample.operators 10 (Some (0 # 1))
                 (Sample.start Sample.plain) = Done n m')
      by (vm_compute; do 2 eexists; reflexivity).
    destruct H as (n & m' & H). exists n, m'.
    split; [reflexivity |]. split; [exact H |]. split; [reflexivity |].
    exact (proj1 (offspring_size_by_scheme Sample.operators 10
                    (Some (0 # 1)) (Sample.start Sample.plain) eq_refl H)
             eq_refl).
  - assert (H : exists n m',
               optimise_setup Sample.operators 10 (Some (28 # 100))
                 (Sample.start Sample.steady) = Done n m')
      by (vm_compute; do 2 eexists; reflexivity).
    destruct H as (n & m' & H). exists n, m'.
    split; [reflexivity |]. split; [exact H |]. split; [reflexivity |].
    assert (Hn : n = ceil_mul 4 (binary64 (28 # 100))).
    { exact (proj1 (proj2 (offspring_size_by_scheme Sample.operators 10
                             (Some (28 # 100)) (Sample.start Sample.steady)
                             eq_refl H))
               eq_refl). }
    split; [exact Hn |]. rewrite Hn. vm_compute. reflexivity.
Defined.

(** C10 as stated fails on the number produced.  The run of the sample
    up to the evaluation of the offspring of its first generation: three
    new individuals are asked for (a population of four under the
    generational scheme) and four are produced, since the parents
    reproduce in pairs. *)
Lemma offspring_produced_differs_from_requested :
  let m := Sample.start Sample.plain in
  genetic_scheme_type (parameters (self m)) = generational /\
  pop_size (requirements (self m)) = Some 4%Z /\
  exists offspring m',
    bind (optimise_setup Sample.operators 10 (Some (1 # 2)))
      (fun n =>
         bind (@now Z nat (list (@Chain Z)))
           (fun _ =>
              bind (evaluate_initial Sample.operators Sample.node_count)
                (fun _ =>
                   bind (@modify Z nat (list (@Chain Z))
                           (fun s => with_generation_num s 0))
                     (fun _ =>
                        bind (update_archive Sample.operators)
                          (fun _ =>
                             bind (adapt_depth Sample.operators)
                               (fun _ =>
                                  breed Sample.operators Sample.node_count
                                    n)))))) m
    = Done offspring m' /\
    length offspring = 4%nat /\
    Z.of_nat (length offspring) <> (4 - 1)%Z.
Proof.
  intros m. split; [reflexivity |]. split; [reflexivity |].
  vm_compute. do 2 eexists. split; [reflexivity |].
  split; [reflexivity | discriminate].
Qed.

Lemma reproduction_raises_on_odd_selection_witness :
  let selected :=
    [Sample.chain_of 3 (Some 3%Z); Sample.chain_of 2 (Some 2%Z);
     Sample.chain_of 4 (Some 4%Z)] in
  Nat.odd (length selected) = true /\
  exists m',
    reproduction_loop Sample.operators selected
      (py_range 0 (length selected) 2) [] (Sample.start Sample.plain)
    = Fail IndexError m' /\
    self m' = self (Sample.start Sample.plain) /\
    trace m' = trace (Sample.start Sample.plain).
Proof.
  intros selected. split; [reflexivity |].
  exact (reproduction_raises_on_odd_selection Sample.operators selected
           (Sample.start Sample.plain) eq_refl).
Defined.

(** The code at the failing input of C2: three selected individuals.
    The first two reproduce (the clock has moved), the third raises. *)
Example reproduction_of_three_selected :
  reproduction_loop Sample.operators
    [Sample.chain_of 3 (Some 3%Z); Sample.chain_of 2 (Some 2%Z);
     Sample.chain_of 4 (Some 4%Z)]
    (py_range 0 3 2) [] (Sample.start Sample.plain)
  = Fail IndexError (mkMachine Sample.plain 3%nat []).
Proof. vm_compute. reflexivity. Qed.

(** C9 as stated fails: an empty initial population is accepted by the
    construction, and the run raises only after it has evaluated and
    recorded the empty population. *)
Lemma empty_population_not_rejected :
  ~ empty_population_rejected Sample.operators
      (Sample.requirements_of (Some 4%Z) None 4 None false)
      Sample.generation_params None None 10 Sample.node_count
      (Some (1 # 2)) 0%nat.
Proof.
  intros [(e & H) | (s & e & m' & H1 & H2 & H3)].
  - vm_compute in H. discriminate H.
  - vm_compute in H1. injection H1 as <-.
    vm_compute in H2. injection H2 as _ <-.
    apply H3. simpl. now left.
Qed.

Lemma empty_initial_population_fails_at_best_witness :
  forallb (hasattr (chain_class Sample.generation_params)) necessary_attrs
  = true /\
  multi_objective default_parameters = false /\
  add_single_model_chains
    (Sample.requirements_of (Some 4%Z) None 4 None false) = false /\
  fst (evaluate_individuals Sample.operators [] Sample.node_count false
         0%nat) = [] /\
  exists s m',
    GPChainOptimiser_init (Some (chain_list []))
      (Sample.requirements_of (Some 4%Z) None 4 None false)
      Sample.generation_params None None
    = Ok s /\
    population s = Some [] /\
    optimise Sample.operators 10 Sample.node_count (Some (1 # 2))
      (mkMachine s 0%nat [])
    = Fail ValueError m' /\
    trace m' = [EvaluateInitial; RecordHistory] /\
    individuals (history (self m')) = [[]] /\
    population (self m') = Some [].
Proof.
  split; [reflexivity |]. split; [reflexivity |]. split; [reflexivity |].
  split; [reflexivity |].
  exact (empty_initial_population_fails_at_best Sample.operators
           (Sample.requirements_of (Some 4%Z) None 4 None false)
           Sample.generation_params None None 10 Sample.node_count
           (Some (1 # 2)) 0%nat eq_refl eq_refl eq_refl eq_refl).
Defined.

Lemma result_individual_prefers_baseline_witness :
  let s :=
    with_best_single_model
      (with_requirements
         (with_population Sample.plain
            (Some [Sample.chain_of 2 (Some 2%Z);
                   Sample.chain_of 3 (Some 3%Z)]))
         (Sample.requirements_of (Some 4%Z) None 4 None true))
      (Some (Sample.chain_of 1 (Some 2%Z))) in
  multi_objective (parameters s) = false /\
  best_individual s = Ok (BestChain (Sample.chain_of 2 (Some 2%Z))) /\
  result_individual s = Ok (BestChain (Sample.chain_of 1 (Some 2%Z))).
Proof.
  intros s. split; [reflexivity |]. split; [reflexivity |].
  exact (proj1
           (proj2
              (proj2 (result_individual_prefers_baseline s) eq_refl
                 (Sample.chain_of 2 (Some 2%Z)) 2%Z eq_refl eq_refl)
              eq_refl (Sample.chain_of 1 (Some 2%Z)) 2%Z eq_refl eq_refl)
           eq_refl).
Defined.

Lemma init_fails_iff_attribute_missing_witness :
  GPChainOptimiser_init (F := Z) (Archive := list (@Chain Z)) None
    (Sample.requirements_of (Some 4%Z) None 4 None false)
    (mkGenerationParams mkNode mkNode
       ["add_node"; "root_node"; "update_node"; "node_childs"]%string)
    None None
  = Raise AttributeError.
Proof.
  apply (proj2 (proj1 (init_fails_iff_attribute_missing
                         (F := Z) (Archive := list (@Chain Z)) None _ _ None
                         None))).
  exists "replace_node_with_parents"%string.
  split; [simpl; tauto | reflexivity].
Defined.

(* ================================================================== *)
(** * Further properties of the best individual *)

Section BestIndividualMore.

Context {F : Type} `{FO : FitnessOrder F} {FT : FitnessTotalOrder F}
        {AS : ArgSort F} {AC : ArgSortCorrect F}.

Local Abbreviation Chain := (@Chain F).

Lemma py_min_from_unevaluated {A} (key : A -> option F) (rest : list A) :
  forall best,
    rest <> [] ->
    key best = None \/ (exists c, In c rest /\ key c = None) ->
    py_min_from fitness_lt key best rest = Raise TypeError.
Proof.
  induction rest as [| x rest IH]; intros best Hne Hnone; [congruence |].
  simpl.
  destruct (key x) as [fx |] eqn:Hx; [| reflexivity].
  destruct (key best) as [fb |] eqn:Hb; [| reflexivity].
  simpl.
  assert (Hrest : exists c, In c rest /\ key c = None).
  { destruct Hnone as [H | (c & [<- | Hc] & Hn)];
      [discriminate | congruence | eauto]. }
  assert (rest <> []) by (destruct Hrest as (c & Hc & _); destruct rest;
                          [destruct Hc | discriminate]).
  destruct (fit_ltb fx fb); apply IH; auto.
Qed.

Lemma keyed_In {A} (key : A -> option F) (l : list A) (fs : list F) (c : A) :
  keyed key l fs -> In c l -> exists f, key c = Some f /\ In f fs.
Proof.
  intros Hk Hc. apply In_nth_error in Hc as (j & Hj).
  destruct (keyed_nth _ Hk Hj) as (f & Hf & Hcf).
  exists f. split; [assumption |]. eapply nth_error_In; eassumption.
Qed.

(** X1.  The errors of [get_best_individual]: an empty list raises
    [ValueError] (from [min]); a list of two or more individuals one of
    which has no fitness raises [TypeError]; a lone individual is
    returned without any comparison, evaluated or not. *)
Theorem get_best_individual_errors (population individuals : list Chain)
    (equivalents_from_current_pop : bool) :
  (individuals = [] ->
   get_best_individual population individuals equivalents_from_current_pop
   = Raise ValueError) /\
  ((2 <= length individuals)%nat ->
   (exists c, In c individuals /\ fitness c = None) ->
   get_best_individual population individuals equivalents_from_current_pop
   = Raise TypeError) /\
  (forall c, individuals = [c] ->
             get_best_individual population individuals false = Ok c).
Proof.
  split; [| split].
  - intros ->. reflexivity.
  - intros Hlen (c & Hc & Hnone). unfold get_best_individual.
    destruct individuals as [| x [| y rest]]; simpl in Hlen; try lia.
    unfold py_min.
    rewrite (@py_min_from_unevaluated Chain fitness (y :: rest) x);
      [reflexivity | discriminate |].
    destruct Hc as [<- | Hc]; [now left | right; eauto].
  - intros c ->. reflexivity.
Qed.

(** X2.  The fitness of the best individual does not depend on the
    order of the population, nor on the sorting routine: for two
    orderings of the same evaluated individuals, [get_best_individual]
    returns individuals of the same fitness, which no individual of the
    population improves on.  (The number of nodes of the result can
    differ from one ordering to the other.) *)
Theorem get_best_individual_fitness_order_independent
    (l l' : list Chain) :
  Permutation l l' ->
  l <> [] ->
  (forall c, In c l -> fitness c <> None) ->
  exists b b',
    get_best_individual l l true = Ok b /\
    get_best_individual l' l' true = Ok b' /\
    fitness b = fitness b' /\
    (forall c, In c l -> not_worse (fitness b) (fitness c)).
Proof.
  intros Hperm Hne Heval.
  assert (Hne' : l' <> []).
  { intros ->. apply Permutation_sym, Permutation_nil in Hperm. congruence. }
  assert (Heval' : forall c, In c l' -> fitness c <> None).
  { intros c Hc. apply Heval. eapply Permutation_in;
      [apply Permutation_sym; exact Hperm | exact Hc]. }
  destruct (evaluated_keyed l Heval) as (fs & Hk).
  destruct (evaluated_keyed l' Heval') as (fs' & Hk').
  destruct (get_best_individual_spec Hne Hk (fun _ : true = true => eq_refl))
    as (b & m & _ & _ & _ & _ & _ & Hb & Hin & Hfit & Hleast & _).
  destruct (get_best_individual_spec Hne' Hk'
              (fun _ : true = true => eq_refl))
    as (b' & m' & _ & _ & _ & _ & _ & Hb' & Hin' & Hfit' & Hleast' & _).
  exists b, b'. split; [assumption |]. split; [assumption |].
  assert (Hbl' : In b l') by (eapply Permutation_in; eassumption).
  assert (Hb'l : In b' l)
    by (eapply Permutation_in; [apply Permutation_sym |]; eassumption).
  assert (m = m') as <-.
  { destruct (keyed_In _ Hk' Hbl') as (f & Hf & Hfin).
    destruct (keyed_In _ Hk Hb'l) as (f' & Hf' & Hfin').
    assert (f = m) as -> by congruence.
    assert (f' = m') as -> by congruence.
    apply fit_leb_antisym; auto. }
  split; [congruence |].
  intros c Hc. destruct (keyed_In _ Hk Hc) as (f & Hf & Hfin).
  rewrite Hfit, Hf. simpl. auto.
Qed.

End BestIndividualMore.


(* ================================================================== *)
(** * Rounding to floats *)

Section FloatFacts.

Local Open Scope Q_scope.

Lemma round_half_even_lower (q : Q) (n : Z) :
  inject_Z n <= q -> (n <= round_half_even q)%Z.
Proof.
  intros H. unfold round_half_even.
  assert (Hf : (n <= Qfloor q)%Z).
  { rewrite <- (Qfloor_Z n). apply Qfloor_resp_le. exact H. }
  destruct (Qcompare _ _); [destruct (Z.even _) | |]; lia.
Qed.

Lemma round_half_even_upper (q : Q) (n : Z) :
  q <= inject_Z n -> (round_half_even q <= n)%Z.
Proof.
  intros H. unfold round_half_even.
  assert (Hf : (Qfloor q <= n)%Z).
  { rewrite <- (Qfloor_Z n). apply Qfloor_resp_le. exact H. }
  destruct (Z.eq_dec (Qfloor q) n) as [E | E].
  - assert (Hz : q - inject_Z (Qfloor q) <= 0) by (rewrite E; lra).
    destruct (Qcompare_spec (q - inject_Z (Qfloor q)) (1 # 2))
      as [Heq | Hlt | Hgt]; [lra | lia | lra].
  - destruct (Qcompare _ _); [destruct (Z.even _) | |]; lia.
Qed.

Lemma two_power_pos (e : Z) : 0 < (2 # 1) ^ e.
Proof. apply Qpower_0_lt. reflexivity. Qed.

Lemma two_power_mono (n m : Z) : (n <= m)%Z -> (2 # 1) ^ n <= (2 # 1) ^ m.
Proof. intros H. apply Qpower_le_compat_l; [exact H | discriminate]. Qed.

Lemma two_power_inject (k : Z) :
  (0 <= k)%Z -> inject_Z (2 ^ k) == (2 # 1) ^ k.
Proof. intros H. exact (Zpower_Qpower 2 k H). Qed.

(** Dividing by a power of two of exponent at most zero multiplies by an
    integer. *)
Lemma two_power_div (x : Q) (e : Z) :
  (e <= 0)%Z -> x / (2 # 1) ^ e == x * inject_Z (2 ^ (- e)).
Proof.
  intros He. unfold Qdiv. apply Qmult_comp; [reflexivity |].
  rewrite two_power_inject by lia.
  rewrite Qpower_opp. reflexivity.
Qed.

Lemma two_power_mul (e : Z) :
  (e <= 0)%Z -> inject_Z (2 ^ (- e)) * (2 # 1) ^ e == 1.
Proof.
  intros He. rewrite two_power_inject by lia.
  rewrite Qpower_opp. rewrite Qmult_comm. apply Qmult_inv_r.
  apply Qpower_not_0. discriminate.
Qed.

(** The binade of a positive number starts below it. *)
Lemma binade_le (x : Q) : 0 < x -> (2 # 1) ^ binade x <= x.
Proof.
  intros Hx. unfold binade.
  destruct (Qle_bool _ x) eqn:E; [now apply Qle_bool_iff in E |].
  clear E. destruct x as [n d].
  assert (Hn : (0 < n)%Z) by (unfold Qlt in Hx; simpl in Hx; lia).
  cbn [Qnum Qden].
  pose proof (Z.log2_spec n Hn) as [Hn1 Hn2].
  pose proof (Z.log2_spec (Zpos d) (Pos2Z.is_pos d)) as [Hd1 Hd2].
  pose proof (Z.log2_nonneg n) as Hln.
  pose proof (Z.log2_nonneg (Zpos d)) as Hld.
  set (ln := Z.log2 n) in *. set (ld := Z.log2 (Zpos d)) in *.
  replace (ln - ld - 1)%Z with (ln - Z.succ ld)%Z by lia.
  rewrite Qpower_minus by discriminate.
  rewrite <- !two_power_inject by lia.
  apply Qle_shift_div_r.
  { change 0 with (inject_Z 0). rewrite <- Zlt_Qlt.
    apply Z.pow_pos_nonneg; lia. }
  rewrite (Qmake_Qdiv n d). unfold Qdiv.
  rewrite <- Qmult_assoc, (Qmult_comm (/ inject_Z (Zpos d))), Qmult_assoc.
  apply Qle_shift_div_l; [reflexivity |].
  rewrite <- !inject_Z_mult, <- Zle_Qle. nia.
Qed.

(** A positive number below [2 ^ 53] is rounded at an exponent that is
    not positive. *)
Lemma binade_small (x : Q) :
  0 < x -> x < inject_Z (2 ^ 53) -> (binade x <= 52)%Z.
Proof.
  intros Hx Hlt.
  destruct (Z.le_gt_cases (binade x) 52) as [H | H]; [exact H |].
  exfalso.
  assert (H53 : (2 # 1) ^ 53 <= (2 # 1) ^ binade x)
    by (apply two_power_mono; lia).
  pose proof (binade_le Hx) as Hb.
  rewrite <- (two_power_inject (k := 53)) in H53 by lia.
  lra.
Qed.

(** ** [binary64] on numbers that are not negative *)

Lemma Qabs_nonneg (x : Q) : 0 <= x -> Qabs x = x.
Proof.
  destruct x as [n d]. unfold Qle, Qabs. simpl. intros H.
  f_equal. apply Z.abs_eq. lia.
Qed.

Lemma binary64_nonneg (x : Q) : 0 <= x -> 0 <= binary64 x.
Proof.
  intros Hx. unfold binary64.
  destruct (Qeq_bool x 0); [lra |].
  assert (Hle : Qle_bool 0 x = true) by now apply Qle_bool_iff.
  rewrite Hle. rewrite (Qabs_nonneg Hx).
  set (e := Z.max (binade x - 52) (-1074)).
  pose proof (two_power_pos e) as He.
  assert (Hm : (0 <= round_half_even (x / (2 # 1) ^ e))%Z).
  { apply round_half_even_lower. apply Qle_shift_div_l; [exact He |].
    change (inject_Z 0) with 0. rewrite Qmult_0_l. exact Hx. }
  apply Qmult_le_0_compat; [| lra].
  change 0 with (inject_Z 0). now rewrite <- Zle_Qle.
Qed.

Lemma binary64_upper (x : Q) (n : Z) :
  0 < x -> x <= inject_Z n -> (n < 2 ^ 53)%Z ->
  binary64 x <= inject_Z n.
Proof.
  intros Hx Hn Hsmall. unfold binary64.
  destruct (Qeq_bool x 0) eqn:Hz; [apply Qeq_bool_iff in Hz; lra |].
  assert (Hle : Qle_bool 0 x = true) by (apply Qle_bool_iff; lra).
  rewrite Hle. rewrite (@Qabs_nonneg x) by lra.
  assert (Hb : (binade x <= 52)%Z).
  { apply binade_small; [exact Hx |].
    apply Qle_lt_trans with (inject_Z n); [exact Hn |].
    now rewrite <- Zlt_Qlt. }
  set (e := Z.max (binade x - 52) (-1074)).
  assert (He : (e <= 0)%Z) by (unfold e; lia).
  assert (Hm : (round_half_even (x / (2 # 1) ^ e) <= n * 2 ^ (- e))%Z).
  { apply round_half_even_upper.
    rewrite (two_power_div x He), inject_Z_mult.
    apply Qmult_le_compat_r; [exact Hn |].
    change 0 with (inject_Z 0). rewrite <- Zle_Qle.
    apply Z.pow_nonneg. lia. }
  apply Qle_trans with (inject_Z (n * 2 ^ (- e)) * (2 # 1) ^ e).
  - apply Qmult_le_compat_r; [| apply Qlt_le_weak, two_power_pos].
    now rewrite <- Zle_Qle.
  - rewrite inject_Z_mult, <- Qmult_assoc, (two_power_mul He). lra.
Qed.

Lemma binary64_lower (x : Q) (n : Z) :
  inject_Z n <= x -> x < inject_Z (2 ^ 53) -> (0 < n)%Z ->
  inject_Z n <= binary64 x.
Proof.
  intros Hn Hsmall Hpos.
  assert (Hx : 0 < x).
  { apply Qlt_le_trans with (inject_Z n); [| exact Hn].
    change 0 with (inject_Z 0). now rewrite <- Zlt_Qlt. }
  unfold binary64.
  destruct (Qeq_bool x 0) eqn:Hz; [apply Qeq_bool_iff in Hz; lra |].
  assert (Hle : Qle_bool 0 x = true) by (apply Qle_bool_iff; lra).
  rewrite Hle. rewrite (@Qabs_nonneg x) by lra.
  pose proof (binade_small Hx Hsmall) as Hb.
  set (e := Z.max (binade x - 52) (-1074)).
  assert (He : (e <= 0)%Z) by (unfold e; lia).
  assert (Hm : (n * 2 ^ (- e) <= round_half_even (x / (2 # 1) ^ e))%Z).
  { apply round_half_even_lower.
    rewrite (two_power_div x He), inject_Z_mult.
    apply Qmult_le_compat_r; [exact Hn |].
    change 0 with (inject_Z 0). rewrite <- Zle_Qle.
    apply Z.pow_nonneg. lia. }
  apply Qle_trans with (inject_Z (n * 2 ^ (- e)) * (2 # 1) ^ e).
  - rewrite inject_Z_mult, <- Qmult_assoc, (two_power_mul He). lra.
  - apply Qmult_le_compat_r; [| apply Qlt_le_weak, two_power_pos].
    now rewrite <- Zle_Qle.
Qed.

(** A float that is not zero is at least the least positive float. *)
Lemma binary64_least (x : Q) :
  0 <= x -> ~ binary64 x == 0 -> (2 # 1) ^ (-1074) <= binary64 x.
Proof.
  intros Hx Hnz. unfold binary64 in *.
  destruct (Qeq_bool x 0); [exfalso; apply Hnz; reflexivity |].
  assert (Hle : Qle_bool 0 x = true) by now apply Qle_bool_iff.
  rewrite Hle in *. rewrite (Qabs_nonneg Hx) in *.
  set (e := Z.max (binade x - 52) (-1074)) in *.
  set (m := round_half_even (x / (2 # 1) ^ e)) in *.
  pose proof (two_power_pos e) as He.
  assert (Hm0 : (0 <= m)%Z).
  { apply round_half_even_lower. apply Qle_shift_div_l; [exact He |].
    change (inject_Z 0) with 0. rewrite Qmult_0_l. exact Hx. }
  assert (Hm : (1 <= m)%Z).
  { destruct (Z.eq_dec m 0) as [E | E]; [| lia].
    exfalso. apply Hnz. rewrite E. apply Qmult_0_l. }
  apply Qle_trans with ((2 # 1) ^ e).
  - apply two_power_mono. unfold e. lia.
  - rewrite <- (Qmult_1_l ((2 # 1) ^ e)) at 1.
    apply Qmult_le_compat_r; [| lra].
    change 1 with (inject_Z 1). now rewrite <- Zle_Qle.
Qed.

(** A number that is at least the least positive float is rounded to a
    positive float. *)
Lemma binary64_pos (x : Q) :
  (2 # 1) ^ (-1074) <= x -> 0 < binary64 x.
Proof.
  intros Hmin.
  assert (Hx : 0 < x)
    by (apply Qlt_le_trans with ((2 # 1) ^ (-1074));
        [apply two_power_pos | exact Hmin]).
  unfold binary64.
  destruct (Qeq_bool x 0) eqn:Hz; [apply Qeq_bool_iff in Hz; lra |].
  assert (Hle : Qle_bool 0 x = true) by (apply Qle_bool_iff; lra).
  rewrite Hle. rewrite (@Qabs_nonneg x) by lra.
  set (e := Z.max (binade x - 52) (-1074)).
  pose proof (two_power_pos e) as He.
  assert (Hxe : (2 # 1) ^ e <= x).
  { unfold e. destruct (Z.max_spec (binade x - 52) (-1074))
      as [[_ ->] | [_ ->]]; [exact Hmin |].
    apply Qle_trans with ((2 # 1) ^ binade x);
      [apply two_power_mono; lia | apply binade_le; exact Hx]. }
  assert (Hm : (1 <= round_half_even (x / (2 # 1) ^ e))%Z).
  { apply round_half_even_lower. apply Qle_shift_div_l; [exact He |].
    change (inject_Z 1) with 1. lra. }
  apply Qlt_le_trans with (1 * (2 # 1) ^ e); [lra |].
  apply Qmult_le_compat_r; [| lra].
  change 1 with (inject_Z 1). now rewrite <- Zle_Qle.
Qed.

End FloatFacts.

(* ================================================================== *)
(** * Construction and sizes *)

Section Sizes.

Context {F : Type} `{FO : FitnessOrder F} {AS : ArgSort F}.
Variable Archive : Type.

Local Abbreviation Chain := (@Chain F).
Local Abbreviation GPChainOptimiser := (@GPChainOptimiser F Archive).

Lemma ceil_mul_bounds (p : Z) (r : Q) :
  (1 <= p)%Z -> (p < 2 ^ 53)%Z ->
  (2 # 1) ^ (-1074) <= r -> r <= 1 ->
  (1 <= ceil_mul p r <= p)%Z.
Proof.
  intros Hp Hsmall Hr0 Hr1. unfold ceil_mul.
  assert (Hp1 : inject_Z 1 <= inject_Z p) by (rewrite <- Zle_Qle; lia).
  assert (Hp53 : inject_Z p < inject_Z (2 ^ 53))
    by (rewrite <- Zlt_Qlt; exact Hsmall).
  assert (Hlow : inject_Z 1 <= binary64 (inject_Z p))
    by (apply binary64_lower; [exact Hp1 | exact Hp53 | lia]).
  assert (Hup : binary64 (inject_Z p) <= inject_Z p).
  { apply binary64_upper; [| apply Qle_refl | exact Hsmall].
    change 0 with (inject_Z 0). rewrite <- Zlt_Qlt. lia. }
  change (inject_Z 1) with 1 in Hlow, Hp1.
  pose proof (two_power_pos (-1074)) as Hmin.
  set (fp := binary64 (inject_Z p)) in *.
  assert (Hx0 : (2 # 1) ^ (-1074) <= fp * r).
  { rewrite <- (Qmult_1_l ((2 # 1) ^ (-1074))).
    apply Qle_trans with (1 * r).
    - apply Qmult_le_l; [reflexivity | exact Hr0].
    - apply Qmult_le_compat_r; [exact Hlow | lra]. }
  assert (Hx1 : fp * r <= inject_Z p).
  { apply Qle_trans with (fp * 1).
    - apply Qmult_le_l; [lra | exact Hr1].
    - lra. }
  pose proof (binary64_pos Hx0) as Hpos.
  assert (Hle : binary64 (fp * r) <= inject_Z p)
    by (apply binary64_upper; [lra | exact Hx1 | exact Hsmall]).
  split.
  - destruct (Z.le_gt_cases 1 (Qceiling (binary64 (fp * r)))) as [H | H];
      [assumption |].
    exfalso. pose proof (Qle_ceiling (binary64 (fp * r))) as Hc.
    assert (Hc0 : inject_Z (Qceiling (binary64 (fp * r))) <= inject_Z 0)
      by (rewrite <- Zle_Qle; lia).
    change (inject_Z 0) with 0 in Hc0. lra.
  - apply Z.le_trans with (Qceiling (inject_Z p));
      [now apply Qceiling_resp_le | rewrite Qceiling_Z; lia].
Qed.

(** X3.  For a population size of at least one that a float holds
    exactly (below [2 ^ 53]) and an offspring rate between 0 and 1 (or
    none), [offspring_size] asks for no more new individuals than the
    population holds, and under the steady-state scheme for at least one
    (a rate of zero counts as one half). *)
Theorem offspring_size_bounds (s : GPChainOptimiser)
    (offspring_rate : option Q) (p : Z) :
  pop_size (requirements s) = Some p ->
  (1 <= p)%Z ->
  (p < 2 ^ 53)%Z ->
  match offspring_rate with
  | Some r => 0 <= r /\ r <= 1
  | None => True
  end ->
  exists n,
    offspring_size s offspring_rate = Ok n /\
    (0 <= n <= p)%Z /\
    (genetic_scheme_type (parameters s) = steady_state -> (1 <= n)%Z).
Proof.
  intros Hp Hpos Hsmall Hrate. unfold offspring_size, req_pop_size.
  rewrite Hp. simpl.
  destruct (genetic_scheme_type (parameters s)); simpl.
  - exists (p - 1)%Z. split; [reflexivity |]. split; [lia | discriminate].
  - assert (Hhalf : (1 <= ceil_mul p (1 # 2) <= p)%Z).
    { apply ceil_mul_bounds; [assumption | assumption | | discriminate].
      apply Qle_trans with ((2 # 1) ^ (-1));
        [apply two_power_mono; lia | discriminate]. }
    destruct offspring_rate as [r |].
    + destruct (Qeq_bool (binary64 r) 0) eqn:Hz.
      * eexists. split; [reflexivity |]. split; [lia | intros _; lia].
      * apply Qeq_bool_neq in Hz. destruct Hrate as [H0 H1].
        assert (Hr : 0 < r).
        { apply Qle_lteq in H0 as [H0 | H0]; [assumption |].
          exfalso. apply Hz. unfold binary64.
          assert (Qeq_bool r 0 = true) as ->
            by (apply Qeq_bool_iff; now symmetry).
          reflexivity. }
        assert (Hf1 : binary64 r <= 1).
        { change 1 with (inject_Z 1).
          apply binary64_upper; [exact Hr | exact H1 | reflexivity]. }
        pose proof (binary64_least H0 Hz) as Hf0.
        pose proof (ceil_mul_bounds Hpos Hsmall Hf0 Hf1).
        eexists. split; [reflexivity |]. split; [lia | intros _; lia].
    + eexists. split; [reflexivity |]. split; [lia | intros _; lia].
Qed.

(** Beyond [2 ^ 53] the population size is itself rounded when it is
    multiplied by the rate, and more can be asked for than the population
    holds. *)
Example offspring_size_beyond_exact_floats :
  ceil_mul (2 ^ 53 + 3) 1 = (2 ^ 53 + 4)%Z.
Proof. vm_compute. reflexivity. Qed.

(** X4.  What the construction leaves, when it succeeds: the population
    size is a non-zero integer, 10 when none or zero was given and the
    given one otherwise; a single initial chain is replicated into as
    many copies as the population size (none for a negative size), a
    list is kept as it is, and no initial chain leaves no population;
    the history is empty. *)
Theorem init_population_and_size
    (initial_chain : option (InitialChain (F := F)))
    (requirements_ : ComposerRequirements)
    (chain_generation_params_ : ChainGenerationParams)
    (parameters_ : option GPChainOptimiserParameters)
    (archive_type : option Archive) (s : GPChainOptimiser) :
  GPChainOptimiser_init initial_chain requirements_
    chain_generation_params_ parameters_ archive_type = Ok s ->
  exists p,
    pop_size (requirements s) = Some p /\
    p <> 0%Z /\
    (truthy (pop_size requirements_) = true ->
     pop_size requirements_ = Some p) /\
    (truthy (pop_size requirements_) = false -> p = 10%Z) /\
    population s
    = match initial_chain with
      | Some (single_chain c) => Some (repeat c (Z.to_nat p))
      | Some (chain_list l) => Some l
      | None => None
      end /\
    individuals (history s) = [] /\
    archive_history (history s) = [].
Proof.
  unfold GPChainOptimiser_init.
  destruct (forallb (hasattr (chain_class chain_generation_params_))
              necessary_attrs); simpl; [| discriminate].
  intros H. injection H as <-. simpl.
  destruct (pop_size requirements_) as [z |] eqn:Hz; simpl.
  - destruct (Z.eqb_spec z 0) as [-> | Hne]; simpl.
    + exists 10%Z. repeat split; auto; discriminate.
    + exists z. rewrite Hz. repeat split; auto. discriminate.
  - exists 10%Z. repeat split; auto; discriminate.
Qed.

(** X5.  [set_default_params] leaves no list of strategy types empty,
    keeps a list that is not empty, and applying it again changes
    nothing. *)
Theorem set_default_params_fills (p : GPChainOptimiserParameters) :
  selection_types (set_default_params p) <> [] /\
  crossover_types (set_default_params p) <> [] /\
  mutation_types (set_default_params p) <> [] /\
  (selection_types p <> [] ->
   selection_types (set_default_params p) = selection_types p) /\
  (crossover_types p <> [] ->
   crossover_types (set_default_params p) = crossover_types p) /\
  (mutation_types p <> [] ->
   mutation_types (set_default_params p) = mutation_types p) /\
  set_default_params (set_default_params p) = set_default_params p.
Proof.
  destruct p as [sel cro mut reg sch auto step multi].
  unfold set_default_params. simpl.
  destruct sel, cro, mut; simpl; repeat split;
    try discriminate; try congruence; reflexivity.
Qed.

End Sizes.

(* ================================================================== *)
(** * What the phases change *)

Section Effects.

Context {F : Type} `{FO : FitnessOrder F} {AS : ArgSort F}.
Variables W Archive Objective : Type.

Local Abbreviation Chain := (@Chain F).
Local Abbreviation Machine := (@Machine F W Archive).
Local Abbreviation M := (M Machine).
Local Abbreviation GPChainOptimiser := (@GPChainOptimiser F Archive).

Variable ops : @Operators F W Archive Objective.

Local Open Scope opt_scope.

Lemma update_archive_shape (u : unit) (m m' : Machine) :
  update_archive ops m = Done u m' ->
  match archive (self m) with
  | None => m' = m
  | Some a =>
      exists pop,
        population (self m) = Some pop /\
        m' = mkMachine
               (with_history
                  (with_archive (self m) (Some (archive_update ops a pop)))
                  (mkHistory (individuals (history (self m)))
                     (archive_history (history (self m))
                      ++ [archive_update ops a pop])))
               (world m) (trace m ++ [ArchiveUpdate])
  end.
Proof.
  unfold update_archive. intros H.
  apply bind_Done in H as (s & m1 & Hs & H). run_step Hs.
  destruct (archive (self m)) as [a |].
  - apply bind_Done in H as (u1 & m1 & H1 & H). run_step H1.
    apply bind_Done in H as (pop & m1 & Hp & H). run_step Hp.
    run_step H. simpl in *.
    exists pop. split; [| reflexivity].
    unfold the_population in E. simpl in E.
    destruct (population (self m)); congruence.
  - run_step H. reflexivity.
Qed.

Lemma adapt_depth_shape (u : unit) (m m' : Machine) :
  adapt_depth ops m = Done u m' ->
  exists v d,
    self m'
    = with_max_depth
        (with_num_of_gens_without_improvements (self m) (Some v)) d /\
    world m' = world m /\
    (v = 0%Z \/
     generation_num (self m) <> 0%Z /\
     num_of_gens_without_improvements (self m) = Some (v - 1)%Z) /\
    (d = max_depth (self m) \/
     with_auto_depth_configuration (parameters (self m)) = true /\
     generation_num (self m) <> 0%Z /\
     v = depth_increase_step (parameters (self m)) /\
     d = (max_depth (self m) + 1)%Z /\
     (d <= req_max_depth (requirements (self m)))%Z).
Proof.
  unfold adapt_depth. intros H.
  apply bind_Done in H as (u0 & m1 & H0 & H). run_step H0.
  apply bind_Done in H as (v & m1 & Hv & H).
  apply update_stagnation_counter_Done in Hv as (-> & Hcount).
  apply bind_Done in H as (u1 & m1 & H1 & H). run_step H1.
  apply bind_Done in H as (s & m1 & Hs & H). run_step Hs.
  simpl in H, Hcount.
  destruct (with_auto_depth_configuration (parameters (self m))) eqn:Hauto;
    simpl in H.
  - destruct (Z.eqb_spec (generation_num (self m)) 0) as [Hg | Hg];
      simpl in H.
    + run_step H. exists v, (max_depth (self m)). simpl.
      split; [destruct (self m); reflexivity |].
      split; [reflexivity |]. split; [assumption | now left].
    + apply bind_Done in H as (u2 & m1 & H2 & H). run_step H2.
      apply max_depth_recount_Done in H as (n & Hn & ->). simpl in *.
      injection Hn as <-.
      eexists v, _. split; [reflexivity |]. split; [reflexivity |].
      split; [assumption |].
      destruct (Z.eqb_spec v (depth_increase_step (parameters (self m))));
        simpl; [| now left].
      destruct (Z.leb_spec (max_depth (self m) + 1)
                  (req_max_depth (requirements (self m))));
        [| now left].
      right. auto.
  - run_step H. exists v, (max_depth (self m)). simpl.
    split; [destruct (self m); reflexivity |].
    split; [reflexivity |]. split; [assumption | now left].
Qed.

(** What one generation does to the attributes besides the population
    and its record. *)
Lemma generation_effects (objective_function : Objective) (t : W) (n : Z)
    (b : bool) (m m' : Machine) :
  generation ops objective_function t n m = Done b m' ->
  generation_depth (self m') = generation_depth (self m) /\
  (exists v,
      num_of_gens_without_improvements (self m') = Some v /\
      (v = 0%Z \/
       generation_num (self m) <> 0%Z /\
       num_of_gens_without_improvements (self m) = Some (v - 1)%Z) /\
      (max_depth (self m') = max_depth (self m) \/
       with_auto_depth_configuration (parameters (self m)) = true /\
       generation_num (self m) <> 0%Z /\
       v = depth_increase_step (parameters (self m)) /\
       max_depth (self m') = (max_depth (self m) + 1)%Z /\
       (max_depth (self m') <= req_max_depth (requirements (self m)))%Z)) /\
  match archive (self m) with
  | None =>
      archive (self m') = None /\
      archive_history (history (self m'))
      = archive_history (history (self m))
  | Some a =>
      exists a',
        archive (self m') = Some a' /\
        archive_history (history (self m'))
        = archive_history (history (self m)) ++ [a']
  end /\
  b = is_time_limit_reached ops t (max_lead_time (requirements (self m)))
        (generation_num (self m)) (world m').
Proof.
  unfold generation. intros H.
  apply bind_Done in H as (u1 & m1 & H1 & H).
  apply update_archive_shape in H1.
  apply bind_Done in H as (u2 & m2 & H2 & H).
  apply adapt_depth_shape in H2
    as (v & d & Hself2 & Hw2 & Hcount & Hdepth).
  apply bind_Done in H as (new_population & m3 & H3 & H).
  apply breed_Done in H3 as (Hself3 & _ & _).
  apply bind_Done in H as (u4 & m4 & H4 & H).
  apply inherit_Done in H4
    as (pop & best & size & elitism & next & _ & _ & _ & _ & _ & Hself4
        & _ & _).
  apply budget_check_Done in H as (Hb & ->). simpl.
  rewrite Hself4 in *. simpl in *. rewrite Hself3 in *.
  rewrite Hself2 in *. simpl in *.
  assert (Hsame :
    generation_depth (self m1) = generation_depth (self m) /\
    max_depth (self m1) = max_depth (self m) /\
    num_of_gens_without_improvements (self m1)
    = num_of_gens_without_improvements (self m) /\
    generation_num (self m1) = generation_num (self m) /\
    parameters (self m1) = parameters (self m) /\
    requirements (self m1) = requirements (self m)).
  { destruct (archive (self m)) as [a |].
    - destruct H1 as (p & _ & ->). simpl. auto 10.
    - subst m1. auto 10. }
  destruct Hsame as (E1 & E2 & E3 & E4 & E5 & E6).
  rewrite E2, E3, E4, E5, E6 in *.
  split; [assumption |].
  split.
  { exists v. split; [reflexivity |]. split; [assumption |].
    destruct Hdepth as [-> | (Ha & Hg & Hv & -> & Hle)]; [now left |].
    right. auto 10. }
  split; [| exact Hb].
  destruct (archive (self m)) as [a |] eqn:Ha.
  - destruct H1 as (p & _ & ->). simpl. eauto.
  - subst m1. auto.
Qed.

(** A relation between machines that holds from the start of each
    generation to its end holds from the start of the loop to its end. *)
Lemma generations_rel (R : Machine -> Machine -> Prop)
    (objective_function : Objective) (t : W) (n : Z) :
  (forall m, R m m) ->
  (forall m1 m2 m3, R m1 m2 -> R m2 m3 -> R m1 m3) ->
  (forall m g,
      R m (mkMachine (with_generation_num (self m) g) (world m) (trace m))) ->
  (forall m b m',
      generation ops objective_function t n m = Done b m' -> R m m') ->
  forall (gs : list Z) (u : unit) (m m' : Machine),
    generations ops objective_function t n gs m = Done u m' -> R m m'.
Proof.
  intros Hrefl Htrans Hset Hgen.
  induction gs as [| g gs IH]; intros u m m' H; simpl in H.
  - run_step H. apply Hrefl.
  - apply bind_Done in H as (u1 & m1 & H1 & H). run_step H1.
    apply bind_Done in H as (reached & m1 & Hg & H).
    apply Hgen in Hg.
    eapply Htrans; [apply Hset |].
    eapply Htrans; [exact Hg |].
    destruct reached.
    + run_step H. apply Hrefl.
    + eapply IH. exact H.
Qed.

(** The phases of a run that returns. *)
Lemma optimise_phases (fuel : nat) (objective_function : Objective)
    (offspring_rate : option Q) (r : Best Archive * OptimiserHistory Archive)
    (m m' : Machine) :
  optimise ops fuel objective_function offspring_rate m = Done r m' ->
  exists n m1 m2 m3 (u : unit),
    optimise_setup ops fuel offspring_rate m = Done n m1 /\
    evaluate_initial ops objective_function m1 = Done u m2 /\
    generations ops objective_function (world m1) n
      (Zrange (num_of_generations (requirements (self m2)) - 1)) m2
    = Done u m3 /\
    update_archive ops
      (mkMachine (self m3) (world m3) (trace m3 ++ [Finalize]))
    = Done u m' /\
    result_individual (self m') = Ok (fst r) /\
    snd r = history (self m').
Proof.
  unfold optimise. intros H.
  apply bind_Done in H as (n & m1 & H1 & H).
  apply bind_Done in H as (t & m2 & Ht & H). run_step Ht.
  apply bind_Done in H as ([] & m2 & H2 & H).
  apply bind_Done in H as (s & m3 & Hs & H). run_step Hs.
  apply bind_Done in H as ([] & m3 & H3 & H).
  apply bind_Done in H as (u4 & m4 & H4 & H). run_step H4.
  apply bind_Done in H as ([] & m4 & H5 & H).
  apply bind_Done in H as (s & m5 & Hs & H). run_step Hs.
  apply bind_Done in H as (best & m5 & Hb & H). run_step Hb.
  apply bind_Done in H as (u6 & m5 & H6 & H).
  apply log_info_about_best_Done in H6 as (-> & _).
  apply bind_Done in H as (s & m5 & Hs & H). run_step Hs. run_step H.
  exists n, m1, m2, m3, tt. simpl. auto 10.
Qed.

End Effects.

(* ================================================================== *)
(** * The generated population and the reproduction loop *)

Section Generation.

Context {F : Type} `{FO : FitnessOrder F} {AS : ArgSort F}.
Variables W Archive Objective : Type.

Local Abbreviation Chain := (@Chain F).
Local Abbreviation Machine := (@Machine F W Archive).
Local Abbreviation M := (M Machine).
Local Abbreviation GPChainOptimiser := (@GPChainOptimiser F Archive).

Variable ops : @Operators F W Archive Objective.

Local Open Scope opt_scope.

Lemma make_population_loop_spec (fuel : nat) (size : Z) :
  forall (acc pop : list Chain) (m m' : Machine),
    make_population_loop ops fuel size acc m = Done pop m' ->
    (Z.of_nat (length acc) <= Z.max 0 size)%Z ->
    (forall c, In c acc -> constraint_function ops c = true) ->
    Z.of_nat (length pop) = Z.max 0 size /\
    (forall c, In c pop -> constraint_function ops c = true).
Proof.
  induction fuel as [| fuel IH]; intros acc pop m m' H Hlen Hacc;
    simpl in H.
  - destruct (Z.ltb_spec (Z.of_nat (length acc)) size); run_step H.
    split; [lia | assumption].
  - destruct (Z.ltb_spec (Z.of_nat (length acc)) size);
      [| run_step H; split; [lia | assumption]].
    apply bind_Done in H as (s & m1 & Hs & H). run_step Hs.
    apply bind_Done in H as (chain & m1 & Hc & H). run_step Hc.
    destruct (constraint_function ops chain) eqn:Hvalid.
    + apply IH in H; [exact H | |].
      * rewrite length_app. simpl. lia.
      * intros c Hin. apply in_app_or in Hin as [Hin | [<- | []]]; auto.
    + apply IH in H; assumption.
Qed.

(** X6. [_make_population]: the population it returns has exactly
    [pop_size] chains (none when [pop_size] is not positive), each of
    them accepted by [constraint_function]; the optimiser's attributes are
    left as they were. *)
Theorem make_population_size_and_validity (fuel : nat) (size : Z)
    (pop : list Chain) (m m' : Machine) :
  make_population ops fuel size m = Done pop m' ->
  Z.of_nat (length pop) = Z.max 0 size /\
  (forall c, In c pop -> constraint_function ops c = true) /\
  self m' = self m /\
  trace m' = trace m.
Proof.
  unfold make_population. intros H.
  destruct (make_population_loop_spec _ _ _ _ H) as (Hlen & Hvalid).
  - simpl. lia.
  - intros c [].
  - apply make_population_loop_frame in H as (E1 & E2). auto.
Qed.

Lemma make_population_loop_total (fuel : nat) (size : Z) :
  (forall p r d w,
      constraint_function ops (fst (random_chain ops p r d w)) = true) ->
  forall (acc : list Chain) (m : Machine),
    (size - Z.of_nat (length acc) <= Z.of_nat fuel)%Z ->
    exists pop m', make_population_loop ops fuel size acc m = Done pop m'.
Proof.
  intros Hvalid.
  induction fuel as [| fuel IH]; intros acc m Hfuel; simpl.
  - destruct (Z.ltb_spec (Z.of_nat (length acc)) size); [lia |].
    exists acc, m. reflexivity.
  - destruct (Z.ltb_spec (Z.of_nat (length acc)) size);
      [| exists acc, m; reflexivity].
    unfold bind at 1. unfold get at 1. unfold bind at 1. unfold ext at 1.
    cbn [self world trace].
    specialize (Hvalid (chain_generation_params (self m))
                  (requirements (self m)) (generation_depth (self m))
                  (world m)).
    destruct (random_chain ops (chain_generation_params (self m))
                (requirements (self m)) (generation_depth (self m))
                (world m)) as [chain w].
    simpl in Hvalid. rewrite Hvalid.
    apply IH. rewrite length_app. simpl. lia.
Qed.

(** X7. [_make_population] returns as soon as every generated chain is
    accepted: [pop_size] rounds of the [while] loop are enough. *)
Theorem make_population_returns (fuel : nat) (size : Z) (m : Machine) :
  (forall p r d w,
      constraint_function ops (fst (random_chain ops p r d w)) = true) ->
  (size <= Z.of_nat fuel)%Z ->
  exists pop m',
    make_population ops fuel size m = Done pop m' /\
    Z.of_nat (length pop) = Z.max 0 size.
Proof.
  intros Hvalid Hfuel.
  destruct (@make_population_loop_total fuel size Hvalid [] m)
    as (pop & m' & H).
  - simpl. lia.
  - exists pop, m'. split; [exact H |].
    apply make_population_loop_spec in H; [tauto | simpl; lia |].
    intros c [].
Qed.

Lemma make_population_loop_diverges (size : Z) :
  (forall p r d w,
      constraint_function ops (fst (random_chain ops p r d w)) = false) ->
  forall (fuel : nat) (acc : list Chain) (m : Machine),
    (Z.of_nat (length acc) < size)%Z ->
    make_population_loop ops fuel size acc m = OutOfFuel.
Proof.
  intros Hinvalid.
  induction fuel as [| fuel IH]; intros acc m Hlen; simpl.
  - destruct (Z.ltb_spec (Z.of_nat (length acc)) size); [| lia].
    reflexivity.
  - destruct (Z.ltb_spec (Z.of_nat (length acc)) size); [| lia].
    unfold bind at 1. unfold get at 1. unfold bind at 1. unfold ext at 1.
    cbn [self world trace].
    specialize (Hinvalid (chain_generation_params (self m))
                  (requirements (self m)) (generation_depth (self m))
                  (world m)).
    destruct (random_chain ops (chain_generation_params (self m))
                (requirements (self m)) (generation_depth (self m))
                (world m)) as [chain w].
    simpl in Hinvalid. rewrite Hinvalid.
    apply IH. assumption.
Qed.

(** X8. [_make_population] has no bound on its attempts: when no
    generated chain is accepted by [constraint_function] and a population
    of positive size is asked for, the [while] loop never ends, however
    many rounds it is given. *)
Theorem make_population_never_returns (size : Z) (m : Machine) :
  (forall p r d w,
      constraint_function ops (fst (random_chain ops p r d w)) = false) ->
  (0 < size)%Z ->
  forall fuel : nat, make_population ops fuel size m = OutOfFuel.
Proof.
  intros Hinvalid Hsize fuel. unfold make_population.
  apply make_population_loop_diverges; [assumption |].
  simpl. lia.
Qed.

(** ** The reproduction loop on a selection of even length *)

(** X9. The reproduction loop of [optimise] on an even number of
    selected individuals: every pair is reproduced, the loop returns and
    changes no attribute; when crossover yields two chains for two
    parents, there are as many offspring as selected individuals. *)
Theorem reproduction_completes_on_even_selection (selected : list Chain)
    (m : Machine) :
  Nat.even (length selected) = true ->
  exists children m',
    reproduction_loop ops selected (py_range 0 (length selected) 2) [] m
    = Done children m' /\
    self m' = self m /\
    trace m' = trace m /\
    ((forall ts a b p d w,
         length (fst (crossover ops ts a b p d w)) = 2%nat) ->
     length children = length selected).
Proof.
  intros Heven. apply Nat.even_spec in Heven as (k & Hk).
  rewrite Hk, py_range_even.
  destruct (reproduction_loop_paired ops selected k 0%nat [] m)
    as (children & m' & H & E1 & E2 & Hcount); [lia |].
  exists children, m'. simpl in H. auto.
Qed.

End Generation.

(* ================================================================== *)
(** * The best single models *)

Section SingleModels.

Context {F : Type} `{FO : FitnessOrder F} {FT : FitnessTotalOrder F}
        {AS : ArgSort F} {AC : ArgSortCorrect F}.
Variables W Archive Objective : Type.

Local Abbreviation Chain := (@Chain F).
Local Abbreviation Machine := (@Machine F W Archive).
Local Abbreviation M := (M Machine).
Local Abbreviation GPChainOptimiser := (@GPChainOptimiser F Archive).

Variable ops : @Operators F W Archive Objective.

Local Open Scope opt_scope.

Lemma stable_sort_least {A} (l : list (A * F)) :
  forall x tl,
    stable_sort l = x :: tl ->
    forall y, In y l -> fit_leb (snd x) (snd y) = true.
Proof.
  induction l as [| a l IH]; intros x tl Hs y Hy; [destruct Hy |].
  simpl in Hs.
  destruct (stable_sort l) as [| h t] eqn:Hl.
  - assert (l = []) as ->.
    { apply Permutation_nil. rewrite <- Hl. apply stable_sort_perm. }
    simpl in Hs. injection Hs as <- _.
    destruct Hy as [<- | []]. apply fit_leb_refl.
  - simpl in Hs.
    destruct (fit_leb (snd a) (snd h)) eqn:Hah.
    + injection Hs as <- _.
      destruct Hy as [<- | Hy]; [apply fit_leb_refl |].
      eapply fit_leb_trans; [exact Hah |].
      eapply IH; [reflexivity | exact Hy].
    + injection Hs as <- _.
      destruct Hy as [<- | Hy].
      * destruct (fit_leb_total (snd a) (snd h)); congruence.
      * eapply IH; [reflexivity | exact Hy].
Qed.

Lemma keyed_combine_In {A} (key : A -> option F) (l : list A) :
  forall (fs : list F) (c : A) (f : F),
    keyed key l fs -> In (c, f) (combine l fs) -> key c = Some f.
Proof.
  unfold keyed.
  induction l as [| x l IH]; intros [| g fs] c f Hk Hin; simpl in *;
    try contradiction; try discriminate.
  injection Hk as Hx Hk.
  destruct Hin as [E | Hin]; [congruence | eauto].
Qed.

Lemma keyed_In_combine {A} (key : A -> option F) (l : list A) :
  forall (fs : list F) (c : A),
    keyed key l fs -> In c l -> exists f, In (c, f) (combine l fs).
Proof.
  unfold keyed.
  induction l as [| x l IH]; intros [| g fs] c Hk Hin; simpl in *;
    try contradiction; try discriminate.
  injection Hk as Hx Hk.
  destruct Hin as [<- | Hin]; [eauto |].
  destruct (IH fs c Hk Hin) as (f & Hf). eauto.
Qed.

(** [sorted] rearranges the evaluated individuals, the first of the
    result having a fitness not above any other's. *)
Lemma sorted_by_fitness_spec (l s : list Chain) :
  (forall c, In c l -> fitness c <> None) ->
  sorted_by_fitness l = Ok s ->
  Permutation l s /\
  (forall b tl, s = b :: tl ->
     forall c, In c l ->
       exists fb fc,
         fitness b = Some fb /\ fitness c = Some fc /\
         fit_leb fb fc = true).
Proof.
  intros Hev Hs.
  destruct l as [| x [| y l']].
  - injection Hs as <-. split; [reflexivity | discriminate].
  - injection Hs as <-. split; [reflexivity |].
    intros b tl Hb c [Hc | []]. injection Hb as Hb _. subst b c.
    destruct (fitness x) as [f |] eqn:Hf;
      [| exfalso; apply (Hev x); simpl; auto].
    exists f, f. auto using fit_leb_refl.
  - set (l := x :: y :: l') in *.
    destruct (evaluated_keyed l Hev) as (fs & Hk).
    unfold sorted_by_fitness in Hs. fold l in Hs.
    unfold l at 1 in Hs.
    rewrite (keyed_all_some Hk) in Hs. injection Hs as <-.
    assert (Hperm := stable_sort_perm (combine l fs)).
    split.
    + rewrite <- (map_fst_combine l fs (keyed_length Hk)) at 1.
      apply Permutation_map. symmetry. exact Hperm.
    + intros b tl Hb c Hc.
      change (map fst (stable_sort (combine l fs)) = b :: tl) in Hb.
      destruct (stable_sort (combine l fs)) as [| [b' fb] rest] eqn:Hsort;
        [discriminate |].
      simpl in Hb. injection Hb as -> _.
      destruct (keyed_In_combine c Hk Hc) as (fc & Hfc).
      exists fb, fc.
      split; [| split].
      * apply (keyed_combine_In _ _ Hk).
        apply (Permutation_in _ Hperm). now left.
      * apply (keyed_combine_In _ _ Hk Hfc).
      * apply (stable_sort_least _ Hsort _ Hfc).
Qed.

Lemma single_models_loop_spec (objective_function : Objective)
    (models : list ModelType) :
  forall (acc inds : list Chain) (m m' : Machine),
    single_models_loop ops objective_function models acc m = Done inds m' ->
    exists new,
      inds = acc ++ new /\
      (length new <= length models)%nat /\
      (forall c, In c new ->
         fitness c <> None /\
         exists model,
           In model models /\
           nodes c
           = [primary_node_func (chain_generation_params (self m)) model]).
Proof.
  induction models as [| model models IH]; intros acc inds m m' H;
    simpl in H.
  - run_step H. exists []. rewrite app_nil_r.
    split; [reflexivity |]. split; [reflexivity |]. intros c [].
  - apply bind_Done in H as (s & m1 & Hs & H). run_step Hs.
    apply bind_Done in H as (fit & m1 & Hf & H). run_step Hf.
    destruct fit as [f |].
    + apply IH in H as (new & -> & Hlen & Hnew). simpl in Hnew.
      eexists (_ :: new). rewrite <- app_assoc. simpl.
      split; [reflexivity |]. split; [lia |].
      intros c [<- | Hc]; simpl.
      * split; [discriminate |]. exists model. auto.
      * destruct (Hnew c Hc) as (Hfit & mo & Hmo & Hn).
        split; [assumption |]. exists mo. auto.
    + apply IH in H as (new & -> & Hlen & Hnew). simpl in Hnew.
      exists new. split; [reflexivity |]. split; [simpl; lia |].
      intros c Hc. destruct (Hnew c Hc) as (Hfit & mo & Hmo & Hn).
      split; [assumption |]. exists mo. simpl. auto.
Qed.

Lemma mapM_first_types (l : list Chain) :
  forall (m m' : Machine) (r : list ModelType),
    mapM (fun i : Chain =>
            node <- lift (py_index (nodes i) 0) ;; ret (model_type node))
      l m = Done r m' ->
    Forall2 (fun i t => exists node,
                 nth_error (nodes i) 0 = Some node /\ t = model_type node)
      l r.
Proof.
  induction l as [| x l IH]; intros m m' r H; simpl in H.
  - run_step H. constructor.
  - apply bind_Done in H as (y & m1 & Hy & H).
    apply bind_Done in Hy as (node & m2 & Hn & Hy). run_step Hy.
    apply bind_Done in H as (ys & m3 & Hys & H). run_step H.
    apply IH in Hys. constructor; [| assumption].
    exists node. split; [| reflexivity].
    unfold lift, py_index in Hn.
    destruct (nth_error (nodes x) 0); [| discriminate].
    now injection Hn as <- _.
Qed.

(** What [_best_single_models] returns, against the single-model chains
    it evaluated. *)
Lemma best_single_models_spec (objective_function : Objective)
    (best : Chain) (types : list ModelType) (m m' : Machine) :
  best_single_models ops objective_function m = Done (best, types) m' ->
  let node_of := primary_node_func (chain_generation_params (self m)) in
  exists inds m1 model,
    single_models_loop ops objective_function
      (primary (requirements (self m))) [] m = Done inds m1 /\
    In best inds /\
    (forall c, In c inds ->
       exists fb fc,
         fitness best = Some fb /\ fitness c = Some fc /\
         fit_leb fb fc = true) /\
    In model (primary (requirements (self m))) /\
    nodes best = [node_of model] /\
    hd_error types = Some (model_type (node_of model)) /\
    (length types <= 7)%nat /\
    (forall t, In t types ->
       exists model', In model' (primary (requirements (self m))) /\
                      t = model_type (node_of model')).
Proof.
  intros H node_of. unfold best_single_models in H.
  apply bind_Done in H as (s & m0 & Hs & H). run_step Hs.
  apply bind_Done in H as (inds & m1 & Hi & H).
  apply bind_Done in H as (best_inds & m2 & Hb & H). run_step Hb.
  apply bind_Done in H as (b & m2 & Hb & H). run_step Hb.
  apply bind_Done in H as (ts & m2 & Ht & H). run_step H.
  destruct (single_models_loop_spec _ _ _ _ Hi) as (new & Hnew & _ & Hsingle).
  simpl in Hnew. subst new.
  assert (Hev : forall c, In c inds -> fitness c <> None)
    by (intros c Hc; apply (Hsingle c Hc)).
  match goal with
  | S : sorted_by_fitness inds = Ok _ |- _ =>
      destruct (sorted_by_fitness_spec _ Hev S) as (Hperm & Hleast)
  end.
  destruct best_inds as [| b0 rest]; [discriminate |].
  match goal with
  | I : py_index (b0 :: rest) 0 = Ok _ |- _ =>
      unfold py_index in I; simpl in I; injection I as ->
  end.
  apply pair_equal_spec in H as (Hbest & Htypes). subst b.
  assert (Hbest : In best inds)
    by (apply (Permutation_in _ (Permutation_sym Hperm)); now left).
  destruct (Hsingle best Hbest) as (_ & model & Hmodel & Hnodes).
  apply mapM_first_types in Ht.
  exists inds, m1, model.
  split; [exact Hi |]. split; [exact Hbest |].
  split; [intros c Hc; exact (Hleast _ _ eq_refl c Hc) |].
  split; [exact Hmodel |]. split; [exact Hnodes |].
  split; [| split].
  - rewrite Htypes.
    inversion Ht as [| ? t ? ts' (node & Hn & Ht') Hrest]. subst.
    rewrite Hnodes in Hn. simpl in Hn. injection Hn as <-.
    reflexivity.
  - rewrite Htypes. apply firstn_le_length.
  - intros t Hin. rewrite Htypes in Hin. apply In_firstn in Hin.
    apply In_nth_error in Hin as (j & Hj).
    assert (Hex : exists i, In i (best :: rest) /\
                     exists node, nth_error (nodes i) 0 = Some node /\
                                  t = model_type node).
    { clear - Ht Hj. revert j Hj.
      induction Ht as [| i t' l r Hit Hrest IH]; intros [| j] Hj;
        simpl in Hj; try discriminate.
      - injection Hj as ->. exists i. split; [now left | assumption].
      - destruct (IH j Hj) as (i' & Hi' & Hn). exists i'.
        split; [now right | assumption]. }
    destruct Hex as (i & Hi' & node & Hn & ->).
    apply (Permutation_in _ (Permutation_sym Hperm)) in Hi'.
    destruct (Hsingle i Hi') as (_ & model' & Hm' & Hnodes').
    rewrite Hnodes' in Hn. simpl in Hn. injection Hn as <-.
    exists model'. auto.
Qed.

(** X11. [_best_single_models]: the chain it returns is one of the
    single-model chains built from [requirements.primary], it is
    evaluated, and no evaluated single-model chain has a smaller fitness;
    the model types it returns are at most seven, each the type of the
    node built for a model of [requirements.primary], the first of them
    that of the returned chain. *)
Theorem best_single_models_least (objective_function : Objective)
    (best : Chain) (types : list ModelType) (m m' : Machine) :
  best_single_models ops objective_function m = Done (best, types) m' ->
  let node_of := primary_node_func (chain_generation_params (self m)) in
  exists inds m1 model,
    single_models_loop ops objective_function
      (primary (requirements (self m))) [] m = Done inds m1 /\
    In best inds /\
    (forall c, In c inds ->
       exists fb fc,
         fitness best = Some fb /\ fitness c = Some fc /\
         fit_leb fb fc = true) /\
    In model (primary (requirements (self m))) /\
    nodes best = [node_of model] /\
    hd_error types = Some (model_type (node_of model)) /\
    (length types <= 7)%nat /\
    (forall t, In t types ->
       exists model', In model' (primary (requirements (self m))) /\
                      t = model_type (node_of model')).
Proof. apply best_single_models_spec. Qed.

Lemma single_models_loop_none (objective_function : Objective)
    (s0 : GPChainOptimiser) (models : list ModelType) :
  (forall model w,
      In model models ->
      fst (calculate_objective ops
             (mkChain [primary_node_func (chain_generation_params s0) model]
                None)
             objective_function (multi_objective (parameters s0)) w)
      = None) ->
  forall (acc : list Chain) (m : Machine),
    self m = s0 ->
    exists m',
      single_models_loop ops objective_function models acc m = Done acc m'.
Proof.
  induction models as [| model models IH]; intros Hnone acc m Hs; simpl.
  - exists m. reflexivity.
  - unfold bind at 1. unfold get at 1.
    unfold bind at 1. unfold ext at 1. cbn [self world trace].
    rewrite Hs.
    pose proof (Hnone model (world m) (or_introl eq_refl)) as Hm.
    destruct (calculate_objective ops _ objective_function _ (world m))
      as [fit w'].
    simpl in Hm. subst fit. apply IH.
    + intros model' w Hin. apply Hnone. right. exact Hin.
    + reflexivity.
Qed.

(** X12. [_best_single_models] raises [IndexError] (from [best_inds[0]])
    when the objective can be computed for none of the single-model
    chains built from [requirements.primary]; an empty
    [requirements.primary] is the case with no such chain. *)
Theorem best_single_models_without_candidates
    (objective_function : Objective) (m : Machine) :
  (forall model w,
      In model (primary (requirements (self m))) ->
      fst (calculate_objective ops
             (mkChain
                [primary_node_func (chain_generation_params (self m)) model]
                None)
             objective_function
             (multi_objective (parameters (self m))) w)
      = None) ->
  exists m',
    best_single_models ops objective_function m = Fail IndexError m'.
Proof.
  intros Hnone. unfold best_single_models.
  unfold bind at 1. unfold get at 1.
  destruct (single_models_loop_none objective_function
              (primary (requirements (self m))) Hnone [] m eq_refl)
    as (m' & Hloop).
  unfold bind at 1. rewrite Hloop. exists m'. reflexivity.
Qed.

End SingleModels.

(* ================================================================== *)
(** * Whole runs *)

Section Runs.

Context {F : Type} `{FO : FitnessOrder F} {AS : ArgSort F}.
Variables W Archive Objective : Type.

Local Abbreviation Chain := (@Chain F).
Local Abbreviation Machine := (@Machine F W Archive).
Local Abbreviation M := (M Machine).
Local Abbreviation GPChainOptimiser := (@GPChainOptimiser F Archive).

Variable ops : @Operators F W Archive Objective.

Local Open Scope opt_scope.

Lemma optimise_setup_effects (fuel : nat) (offspring_rate : option Q)
    (n : Z) (m m' : Machine) :
  optimise_setup ops fuel offspring_rate m = Done n m' ->
  max_depth (self m') = max_depth (self m) /\
  generation_depth (self m') = generation_depth (self m) /\
  requirements (self m') = requirements (self m) /\
  parameters (self m') = parameters (self m) /\
  archive (self m') = archive (self m) /\
  history (self m') = history (self m).
Proof.
  unfold optimise_setup. intros H.
  apply bind_Done in H as (s & m1 & Hs & H). run_step Hs.
  apply bind_Done in H as (u & m1 & Hp & H).
  apply bind_Done in H as (s & m2 & Hs & H). run_step Hs. run_step H.
  destruct (population (self m)) as [pop |].
  - run_step Hp. auto 10.
  - apply bind_Done in Hp as (size & m2 & Hz & Hp). run_step Hz.
    apply bind_Done in Hp as (pop & m2 & Hm & Hp).
    apply make_population_loop_frame in Hm as (E1 & E2).
    run_step Hp. simpl. rewrite E1. auto 10.
Qed.

Lemma evaluate_initial_effects (objective_function : Objective) (u : unit)
    (m m' : Machine) :
  evaluate_initial ops objective_function m = Done u m' ->
  max_depth (self m') = max_depth (self m) /\
  generation_depth (self m') = generation_depth (self m) /\
  req_max_depth (requirements (self m'))
  = req_max_depth (requirements (self m)) /\
  num_of_generations (requirements (self m'))
  = num_of_generations (requirements (self m)) /\
  parameters (self m') = parameters (self m) /\
  archive (self m') = archive (self m) /\
  archive_history (history (self m'))
  = archive_history (history (self m)) /\
  exists p0,
    individuals (history (self m'))
    = individuals (history (self m)) ++ [p0].
Proof.
  unfold evaluate_initial. intros H.
  apply bind_Done in H as (s & m1 & Hs & H). run_step Hs.
  apply bind_Done in H as (u1 & m1 & H1 & H).
  assert (Hm1 : exists prim single w1,
            m1 = mkMachine
                   (with_requirements
                      (with_best_single_model (self m) single)
                      (set_primary (requirements (self m)) prim))
                   w1 (trace m)).
  { destruct (add_single_model_chains (requirements (self m))).
    - apply bind_Done in H1 as (r & m2 & Hr & H1).
      apply best_single_models_frame in Hr as (E1 & E2).
      run_step H1. simpl. rewrite E1, E2. eauto.
    - run_step H1. exists (primary (requirements (self m))),
        (best_single_model (self m)), (world m).
      rewrite set_primary_same. destruct m as [[] ? ?]. reflexivity. }
  destruct Hm1 as (prim & single & w1 & ->).
  apply bind_Done in H as (u2 & m2 & H2 & H). run_step H2.
  apply bind_Done in H as (s & m2 & Hs & H). run_step Hs. simpl in H.
  apply bind_Done in H as (pop & m2 & Hp & H). run_step Hp.
  apply bind_Done in H as (p0 & m2 & He & H). run_step He.
  apply bind_Done in H as (u3 & m2 & H3 & H). run_step H3.
  apply bind_Done in H as (u4 & m2 & H4 & H).
  apply add_to_history_Done in H4. subst m2.
  apply log_info_about_best_Done in H as (-> & _). simpl.
  repeat (split; [reflexivity |]). eauto.
Qed.

Lemma generations_depth (objective_function : Objective) (t : W) (n : Z)
    (gs : list Z) (u : unit) (m m' : Machine) :
  generations ops objective_function t n gs m = Done u m' ->
  depth_moves (self m) (self m').
Proof.
  apply generations_rel
    with (R := fun a b => depth_moves (self a) (self b));
    unfold depth_moves.
  - intros m0. repeat split; try reflexivity; lia.
  - intros m1 m2 m3 (A1 & A2 & A3 & A4 & A5 & A6)
      (B1 & B2 & B3 & B4 & B5 & B6).
    rewrite A5, A6 in *.
    repeat split; try congruence; try lia.
    intros Hauto. rewrite (B3 Hauto). auto.
  - intros m0 g. simpl. repeat split; try reflexivity; lia.
  - intros m0 b m1 H.
    assert (Hc := H). apply generation_Done in Hc
      as (pop & best & size & elitism & new_population & next & w
          & archived & adjusted & _ & _ & _ & _ & _ & _ & Hc & _).
    apply generation_effects in H
      as (Hgd & (v & _ & _ & Hdepth) & _ & _).
    unfold config in Hc. injection Hc as _ Hreq Hpar _.
    repeat split; try assumption.
    + destruct Hdepth as [-> | (_ & _ & _ & -> & _)]; lia.
    + destruct Hdepth as [-> | (_ & _ & _ & E & Hle)]; lia.
    + intros Hauto.
      destruct Hdepth as [-> | (Hauto' & _)]; [reflexivity | congruence].
Qed.

(** X13. The bound on the depth of the chains over a run of
    [optimise]: it never decreases, it never rises above
    [requirements.max_depth] (unless it started above it, and then it
    stays), and without automated depth configuration it does not move;
    the depth of the generated chains is never touched. *)
Theorem max_depth_over_a_run (fuel : nat) (objective_function : Objective)
    (offspring_rate : option Q) (r : Best Archive * OptimiserHistory Archive)
    (m m' : Machine) :
  optimise ops fuel objective_function offspring_rate m = Done r m' ->
  (max_depth (self m) <= max_depth (self m'))%Z /\
  (max_depth (self m')
   <= Z.max (max_depth (self m)) (req_max_depth (requirements (self m))))%Z /\
  (with_auto_depth_configuration (parameters (self m)) = false ->
   max_depth (self m') = max_depth (self m)) /\
  generation_depth (self m') = generation_depth (self m).
Proof.
  intros H.
  apply optimise_phases in H
    as (n & m1 & m2 & m3 & u & H1 & H2 & H3 & H4 & _ & _).
  apply optimise_setup_effects in H1 as (A1 & A2 & A3 & A4 & _ & _).
  apply evaluate_initial_effects in H2
    as (B1 & B2 & B3 & _ & B4 & _ & _ & _).
  apply generations_depth in H3 as (C1 & C2 & C3 & C4 & C5 & C6).
  apply update_archive_shape in H4. simpl in H4.
  assert (Hlast : max_depth (self m') = max_depth (self m3) /\
                  generation_depth (self m') = generation_depth (self m3)).
  { destruct (archive (self m3)).
    - destruct H4 as (pop & _ & ->). simpl. auto.
    - subst m'. simpl. auto. }
  destruct Hlast as (D1 & D2).
  rewrite D1, D2, C4, B2, A2.
  rewrite B1, B3, B4, A1, A3, A4 in *.
  repeat split; try assumption; try reflexivity.
Qed.

(** ** The number of generations of a run *)

Lemma generations_count (objective_function : Objective) (t : W) (n : Z)
    (gs : list Z) :
  forall (u : unit) (m m' : Machine),
    generations ops objective_function t n gs m = Done u m' ->
    exists pops : list (list Chain),
      individuals (history (self m'))
      = individuals (history (self m)) ++ pops /\
      (length pops <= length gs)%nat /\
      ((forall t0 l g w, is_time_limit_reached ops t0 l g w = false) ->
       length pops = length gs) /\
      ((forall t0 l g w, is_time_limit_reached ops t0 l g w = true) ->
       length pops = Nat.min 1 (length gs)) /\
      match archive (self m) with
      | None =>
          archive (self m') = None /\
          archive_history (history (self m'))
          = archive_history (history (self m))
      | Some _ =>
          exists snaps,
            archive (self m') <> None /\
            archive_history (history (self m'))
            = archive_history (history (self m)) ++ snaps /\
            length snaps = length pops
      end.
Proof.
  induction gs as [| g gs IH]; intros u m m' H; simpl in H.
  - run_step H. exists []. rewrite app_nil_r.
    repeat split; try reflexivity.
    destruct (archive (self m)); [| auto].
    exists []. rewrite app_nil_r. split; [discriminate | auto].
  - apply bind_Done in H as (u1 & m1 & H1 & H). run_step H1.
    apply bind_Done in H as (reached & m1 & Hg & H).
    assert (Hd := Hg). apply generation_Done in Hd
      as (pop & best & size & elitism & new_population & next & w
          & archived & adjusted & _ & _ & _ & _ & _ & _ & _ & _ & _
          & Hhist & _).
    apply generation_effects in Hg as (_ & _ & Harch & Hreached).
    simpl in Hhist, Harch.
    destruct reached.
    + run_step H.
      eexists [_]. split; [exact Hhist |].
      split; [simpl; lia |].
      split; [intros Hnever; rewrite Hnever in Hreached; discriminate |].
      split; [intros _; reflexivity |].
      destruct (archive (self m)) as [a |]; [| exact Harch].
      destruct Harch as (a' & Ha' & Hsnap).
      exists [a']. split; [congruence | auto].
    + apply IH in H as (pops & Hpops & Hle & Hnever & Halways & Harch').
      eexists (_ :: pops).
      split; [rewrite Hpops, Hhist, <- app_assoc; reflexivity |].
      split; [simpl; lia |].
      split; [intros Hn; simpl; rewrite (Hnever Hn); reflexivity |].
      split; [intros Ha; rewrite Ha in Hreached; discriminate |].
      destruct (archive (self m)) as [a |].
      * destruct Harch as (a' & Ha' & Hsnap). rewrite Ha' in Harch'.
        destruct Harch' as (snaps & Hsome & Hsnaps & Hlen).
        exists (a' :: snaps). split; [assumption |].
        split; [rewrite Hsnaps, Hsnap, <- app_assoc; reflexivity |].
        simpl. lia.
      * destruct Harch as (Ha' & Hsnap). rewrite Ha' in Harch'.
        destruct Harch' as (Hnone & Hsame).
        split; [assumption | congruence].
Qed.

Lemma Zrange_length (n : Z) : length (Zrange n) = Z.to_nat n.
Proof. unfold Zrange. now rewrite length_map, length_seq. Qed.

Lemma loop_events_first_reached (gs : list Z) (evs : list Event) (k : nat)
    (g : Z) (rest : list Event) :
  loop_events gs evs k ->
  filter is_budget_check evs = BudgetCheck g true :: rest ->
  k = 1%nat /\ rest = [].
Proof.
  intros H. destruct H as [| g0 gs a d | g0 gs a d evs k _].
  - discriminate.
  - rewrite generation_events_split, filter_app,
      (filter_quiet (opening_events_quiet a d)). simpl.
    intros E. injection E as _ <-. split; reflexivity.
  - rewrite filter_app, generation_events_split, filter_app,
      (filter_quiet (opening_events_quiet a d)). simpl.
    intros E. discriminate E.
Qed.

(** X14. The populations a run records.  The returned history extends
    the one the optimiser had by the evaluated initial population and one
    population for each generation run: as many as the run made checks
    of the time limit, at most [num_of_generations - 1]; exactly
    [num_of_generations - 1] when no check of the run reported the limit
    reached, a single one when the first check reported it reached, and
    none when [num_of_generations] is 1 or less. *)
Theorem recorded_populations_count (fuel : nat)
    (objective_function : Objective) (offspring_rate : option Q)
    (r : Best Archive * OptimiserHistory Archive) (m m' : Machine) :
  optimise ops fuel objective_function offspring_rate m = Done r m' ->
  let planned :=
    Z.to_nat (num_of_generations (requirements (self m)) - 1) in
  exists (p0 : list Chain) (pops : list (list Chain)) (events : list Event),
    individuals (snd r) = individuals (history (self m)) ++ p0 :: pops /\
    trace m' = trace m ++ events /\
    length pops = length (filter is_budget_check events) /\
    (length pops <= planned)%nat /\
    ((forall g, ~ In (BudgetCheck g true) events) ->
     length pops = planned) /\
    (forall g rest,
        filter is_budget_check events = BudgetCheck g true :: rest ->
        length pops = 1%nat /\ rest = []) /\
    ((num_of_generations (requirements (self m)) <= 1)%Z -> pops = []).
Proof.
  intros H planned.
  apply optimise_Done in H
    as (n & p0 & pops & evs & archived & prim & _ & _ & _ & Hh & _ & _ & _
        & _ & Ht & Hev & _ & Hr).
  pose proof (loop_events_checks Hev) as Hchecks.
  destruct (loop_events_stops Hev) as [Hle Hstop].
  rewrite Zrange_length in Hle, Hstop. fold planned in Hle, Hstop.
  assert (Hfilter :
            filter is_budget_check
              ([EvaluateInitial; RecordHistory] ++ evs
               ++ Finalize :: (if archived then [ArchiveUpdate] else []))
            = filter is_budget_check evs).
  { simpl. rewrite filter_app.
    replace (filter is_budget_check
               (Finalize :: (if archived then [ArchiveUpdate] else [])))
      with (@nil Event) by (destruct archived; reflexivity).
    apply app_nil_r. }
  exists p0, pops,
    ([EvaluateInitial; RecordHistory] ++ evs
     ++ Finalize :: (if archived then [ArchiveUpdate] else [])).
  split; [rewrite Hr; exact Hh |].
  split; [exact Ht |].
  split; [rewrite Hfilter; symmetry; exact Hchecks |].
  split; [exact Hle |].
  split.
  - intros Hnever.
    destruct (Nat.eq_dec (length pops) planned) as [E | E]; [exact E |].
    destruct Hstop as (i & g & Hi); [lia |].
    exfalso. apply (Hnever g).
    apply in_or_app. right. apply in_or_app. left.
    eapply nth_error_In. exact Hi.
  - split.
    + intros g rest E. rewrite Hfilter in E.
      exact (loop_events_first_reached Hev E).
    + intros Hone.
      assert (planned = 0%nat) by (unfold planned; lia).
      destruct pops; [reflexivity | simpl in Hle; lia].
Qed.

(** X15. The snapshots of the archive.  Without an archive a run leaves
    the archive history as it was.  With one, the archive is updated and
    a snapshot appended once for each generation run and once more after
    the loop: as many snapshots as populations recorded for the
    generations plus one, the last of them the archive the run ends
    with. *)
Theorem archive_snapshots_per_population (fuel : nat)
    (objective_function : Objective) (offspring_rate : option Q)
    (r : Best Archive * OptimiserHistory Archive) (m m' : Machine) :
  optimise ops fuel objective_function offspring_rate m = Done r m' ->
  match archive (self m) with
  | None =>
      archive (self m') = None /\
      archive_history (snd r) = archive_history (history (self m))
  | Some _ =>
      exists snaps last_snap,
        archive_history (snd r)
        = archive_history (history (self m)) ++ snaps ++ [last_snap] /\
        archive (self m') = Some last_snap /\
        length (individuals (snd r))
        = (length (individuals (history (self m)))
           + length (snaps ++ [last_snap]))%nat
  end.
Proof.
  intros H.
  apply optimise_phases in H
    as (n & m1 & m2 & m3 & u & H1 & H2 & H3 & H4 & _ & Hr).
  apply optimise_setup_effects in H1 as (_ & _ & _ & _ & A5 & A6).
  apply evaluate_initial_effects in H2
    as (_ & _ & _ & _ & _ & B6 & B7 & p0 & Hp0).
  apply generations_count in H3 as (pops & Hpops & _ & _ & _ & Harch).
  apply update_archive_shape in H4. simpl in H4.
  rewrite B6, A5 in Harch. rewrite Hr.
  destruct (archive (self m)) as [a |].
  - destruct Harch as (snaps & Hsome & Hsnaps & Hlen).
    destruct (archive (self m3)) as [a3 |]; [| congruence].
    destruct H4 as (pop & _ & ->). simpl.
    exists snaps, (archive_update ops a3 pop).
    split; [rewrite Hsnaps, B7, A6, <- app_assoc; reflexivity |].
    split; [reflexivity |].
    rewrite Hpops, Hp0, A6, !length_app. simpl. lia.
  - destruct Harch as (Hnone & Hsame). rewrite Hnone in H4. subst m'.
    simpl. split; [assumption | congruence].
Qed.

(** X16. A multi-objective run needs an archive: without one, a run on
    a supplied population (no single-model chains asked for) evaluates
    and records the population and then raises [AttributeError], when the
    Pareto front is first read for the log. *)
Theorem multi_objective_needs_archive (fuel : nat)
    (objective_function : Objective) (offspring_rate : option Q)
    (m : Machine) (pop : list Chain) (p : Z) :
  population (self m) = Some pop ->
  pop_size (requirements (self m)) = Some p ->
  multi_objective (parameters (self m)) = true ->
  archive (self m) = None ->
  add_single_model_chains (requirements (self m)) = false ->
  exists m',
    optimise ops fuel objective_function offspring_rate m
    = Fail AttributeError m' /\
    trace m' = trace m ++ [EvaluateInitial; RecordHistory] /\
    length (individuals (history (self m')))
    = S (length (individuals (history (self m)))).
Proof.
  intros Hpop Hp Hmo Harch Hsingle.
  destruct (optimise_setup_ready ops fuel offspring_rate m Hpop Hp)
    as (n & Hn).
  unfold optimise. erewrite bind_Done_fwd; [| exact Hn].
  erewrite bind_Done_fwd; [| reflexivity].
  destruct (evaluate_individuals ops pop objective_function true (world m))
    as [l w] eqn:Hev.
  eexists. split.
  - apply bind_Fail_fwd.
    unfold evaluate_initial, add_to_history, log_info_about_best.
    unfold bind, get, emit, modify, lift, ext, ret; simpl.
    rewrite Hsingle. unfold the_population; simpl. rewrite Hpop, Hmo.
    cbn [world self trace]. rewrite Hev.
    simpl. rewrite Hmo, Harch. reflexivity.
  - simpl. rewrite <- app_assoc, length_app. simpl.
    split; [reflexivity | lia].
Qed.

End Runs.

(* ================================================================== *)
(** * The result of a run against the populations it recorded *)

Section ResultOfRun.

Context {F : Type} `{FO : FitnessOrder F} {FT : FitnessTotalOrder F}
        {AS : ArgSort F} {AC : ArgSortCorrect F}.
Variables W Archive Objective : Type.

Local Abbreviation Chain := (@Chain F).
Local Abbreviation Machine := (@Machine F W Archive).
Local Abbreviation GPChainOptimiser := (@GPChainOptimiser F Archive).

Variable ops : @Operators F W Archive Objective.

Lemma not_worse_refl (a : option F) : not_worse a a.
Proof. destruct a; simpl; [apply fit_leb_refl | exact I]. Qed.

Lemma not_worse_trans (a b c : option F) :
  not_worse a b -> not_worse b c -> not_worse a c.
Proof.
  destruct a, b, c; simpl; try tauto. apply fit_leb_trans.
Qed.

(** Under elitism the best of the last population is not worse than the
    best of any population before it. *)
Lemma succession_best_last (s : GPChainOptimiser) (p : Z)
    (pops : list (list Chain)) :
  multi_objective (parameters s) = false ->
  pop_size (requirements s) = Some p -> (1 < p)%Z ->
  forall p0 b0,
    get_best_individual p0 p0 true = Ok b0 ->
    succession (successor ops s) p0 pops ->
    exists best_last,
      get_best_individual (last pops p0) (last pops p0) true
      = Ok best_last /\
      forall q, In q (p0 :: pops) ->
        exists best_q,
          get_best_individual q q true = Ok best_q /\
          not_worse (fitness best_last) (fitness best_q).
Proof.
  intros Hmo Hp Hgt.
  induction pops as [| p1 pops IH]; intros p0 b0 Hb0 Hsucc.
  - exists b0. split; [exact Hb0 |].
    intros q [<- | []]. exists b0. split; [exact Hb0 |].
    apply not_worse_refl.
  - destruct Hsucc as (Hstep & Hsucc).
    destruct (successor_keeps_best Hmo Hp Hgt Hstep)
      as (best & best' & Hbest & Hbest' & _ & Hnw).
    destruct (IH p1 best' Hbest' Hsucc) as (best_last & Hlast & Hall).
    exists best_last. rewrite last_cons_default. split; [exact Hlast |].
    intros q [<- | Hq]; [| exact (Hall q Hq)].
    exists best. split; [exact Hbest |].
    destruct (Hall p1 (or_introl eq_refl)) as (b1 & Hb1 & Hnw1).
    assert (b1 = best') as -> by congruence.
    eapply not_worse_trans; eassumption.
Qed.

(** X17. In a single-objective run with a population size above one,
    the chain [optimise] returns is not worse than the best individual of
    any population recorded during the run, the initial one included. *)
Theorem result_not_worse_than_any_recorded_best (fuel : nat)
    (objective_function : Objective) (offspring_rate : option Q)
    (r : Best Archive * OptimiserHistory Archive) (m m' : Machine) (p : Z) :
  multi_objective (parameters (self m)) = false ->
  pop_size (requirements (self m)) = Some p ->
  (1 < p)%Z ->
  optimise ops fuel objective_function offspring_rate m = Done r m' ->
  exists result recorded,
    fst r = BestChain result /\
    individuals (snd r) = individuals (history (self m)) ++ recorded /\
    forall generation_n,
      In generation_n recorded ->
      exists best_n,
        get_best_individual generation_n generation_n true = Ok best_n /\
        not_worse (fitness result) (fitness best_n).
Proof.
  intros Hmo Hp Hgt Hrun.
  apply optimise_Done in Hrun
    as (n & p0 & pops & evs & archived & prim & _ & Hpar & Hreq & Hhist
        & Hpop & Hsucc & _ & Hbest0 & _ & _ & Hres & Hsnd).
  destruct (Hbest0 Hmo) as (b0 & Hb0).
  assert (Hmo' : multi_objective (parameters (self m')) = false)
    by now rewrite Hpar.
  assert (Hp' : pop_size (requirements (self m')) = Some p)
    by (rewrite Hreq; exact Hp).
  destruct (@succession_best_last (self m') p pops Hmo' Hp' Hgt p0 b0 Hb0
              Hsucc)
    as (best_last & Hlast & Hall).
  assert (Hresult : exists result,
             fst r = BestChain result /\
             not_worse (fitness result) (fitness best_last)).
  { unfold result_individual, best_individual, the_population in Hres.
    rewrite Hmo', Hpop in Hres. simpl in Hres. rewrite Hlast in Hres.
    simpl in Hres.
    destruct (add_single_model_chains (requirements (self m'))).
    - destruct (best_single_model (self m')) as [single |];
        [| discriminate].
      simpl in Hres.
      destruct (fitness single) as [fs |] eqn:Hfs; [| discriminate].
      destruct (fitness best_last) as [fb |] eqn:Hfb; [| discriminate].
      simpl in Hres.
      destruct (fit_leb fs fb) eqn:Hle; injection Hres as <-.
      + exists single. rewrite Hfs. simpl. auto.
      + exists best_last. rewrite Hfb. simpl.
        split; [reflexivity | apply fit_leb_refl].
    - injection Hres as <-. exists best_last.
      split; [reflexivity | apply not_worse_refl]. }
  destruct Hresult as (result & Hfst & Hnw).
  exists result, (p0 :: pops). rewrite Hsnd.
  split; [exact Hfst |]. split; [exact Hhist |].
  intros q Hq. destruct (Hall q Hq) as (best_q & Hbq & Hnwq).
  exists best_q. split; [exact Hbq |].
  eapply not_worse_trans; eassumption.
Qed.

End ResultOfRun.

(* ================================================================== *)
(** * What a run leaves of the optimiser it was started on *)

Section Configuration.

Context {F : Type} `{FO : FitnessOrder F} {FT : FitnessTotalOrder F}
        {AS : ArgSort F} {AC : ArgSortCorrect F}.
Variables W Archive Objective : Type.

Local Abbreviation Chain := (@Chain F).
Local Abbreviation Machine := (@Machine F W Archive).
Local Abbreviation M := (M Machine).
Local Abbreviation GPChainOptimiser := (@GPChainOptimiser F Archive).

Variable ops : @Operators F W Archive Objective.

Local Open Scope opt_scope.

(** X18. The start of [optimise]: a population that was supplied is
    kept as it is and no chain is generated; a missing one is replaced by
    [requirements.pop_size] generated chains, each accepted by
    [constraint_function].  The number of offspring is fixed from the
    optimiser as it was. *)
Theorem setup_generates_missing_population (fuel : nat)
    (offspring_rate : option Q) (n : Z) (m m' : Machine) :
  optimise_setup ops fuel offspring_rate m = Done n m' ->
  offspring_size (self m) offspring_rate = Ok n /\
  match population (self m) with
  | Some pop => population (self m') = Some pop /\ world m' = world m
  | None =>
      exists pop p,
        pop_size (requirements (self m)) = Some p /\
        population (self m') = Some pop /\
        Z.of_nat (length pop) = Z.max 0 p /\
        (forall c, In c pop -> constraint_function ops c = true)
  end.
Proof.
  intros H. assert (Hd := H).
  apply optimise_setup_Done in Hd as (Hn & _ & _ & _ & _ & Hkept).
  split; [exact Hn |].
  destruct (population (self m)) as [pop |] eqn:Hpop; [auto |].
  unfold optimise_setup in H.
  apply bind_Done in H as (s & m1 & Hs & H). run_step Hs.
  apply bind_Done in H as (u & m1 & Hp & H).
  apply bind_Done in H as (s & m2 & Hs & H). run_step Hs. run_step H.
  rewrite Hpop in Hp.
  apply bind_Done in Hp as (size & m2 & Hz & Hp). run_step Hz.
  apply bind_Done in Hp as (pop & m2 & Hm & Hp).
  run_step Hp. simpl.
  match goal with
  | E : req_pop_size _ = Ok size |- _ =>
      unfold req_pop_size in E;
      destruct (pop_size (requirements (self m))) as [p |];
      [injection E as <- | discriminate E]
  end.
  exists pop, p. split; [reflexivity |]. split; [reflexivity |].
  unfold make_population in Hm.
  apply make_population_loop_spec in Hm; [exact Hm | simpl; lia |].
  intros c [].
Qed.

Lemma evaluate_initial_config (objective_function : Objective) (u : unit)
    (m m' : Machine) :
  evaluate_initial ops objective_function m = Done u m' ->
  chain_generation_params (self m') = chain_generation_params (self m) /\
  parameters (self m') = parameters (self m) /\
  if add_single_model_chains (requirements (self m))
  then
    exists r m1,
      best_single_models ops objective_function m = Done r m1 /\
      best_single_model (self m') = Some (fst r) /\
      requirements (self m') = set_primary (requirements (self m)) (snd r)
  else
    requirements (self m') = requirements (self m) /\
    best_single_model (self m') = best_single_model (self m).
Proof.
  unfold evaluate_initial. intros H.
  apply bind_Done in H as (s & m1 & Hs & H). run_step Hs.
  apply bind_Done in H as (u1 & m1 & H1 & H).
  apply bind_Done in H as (u2 & m2 & H2 & H). run_step H2.
  apply bind_Done in H as (s & m2 & Hs & H). run_step Hs. simpl in H.
  apply bind_Done in H as (pop & m2 & Hp & H). run_step Hp.
  apply bind_Done in H as (p0 & m2 & He & H). run_step He.
  apply bind_Done in H as (u3 & m2 & H3 & H). run_step H3.
  apply bind_Done in H as (u4 & m2 & H4 & H).
  apply add_to_history_Done in H4. subst m2.
  apply log_info_about_best_Done in H as (-> & _). simpl.
  destruct (add_single_model_chains (requirements (self m))).
  - apply bind_Done in H1 as (r & m2 & Hr & H1).
    assert (Hf := Hr). apply best_single_models_frame in Hf as (E1 & E2).
    run_step H1. simpl. rewrite E1.
    split; [reflexivity |]. split; [reflexivity |].
    exists r, m2. auto.
  - run_step H1. auto.
Qed.

(** X19. What a run leaves of the configuration: the parameters and
    the chain generation parameters are never changed, and of the
    requirements only [primary], which is left alone unless single-model
    chains were asked for.  In that case it is replaced by the types of
    the best evaluated single models, at most seven, all of them types of
    nodes built for models it held before, the first that of the chain
    kept as the best single model. *)
Theorem run_keeps_configuration (fuel : nat) (objective_function : Objective)
    (offspring_rate : option Q) (r : Best Archive * OptimiserHistory Archive)
    (m m' : Machine) :
  optimise ops fuel objective_function offspring_rate m = Done r m' ->
  let node_of := primary_node_func (chain_generation_params (self m)) in
  chain_generation_params (self m') = chain_generation_params (self m) /\
  parameters (self m') = parameters (self m) /\
  exists types,
    requirements (self m') = set_primary (requirements (self m)) types /\
    if add_single_model_chains (requirements (self m))
    then
      exists single model,
        best_single_model (self m') = Some single /\
        fitness single <> None /\
        In model (primary (requirements (self m))) /\
        nodes single = [node_of model] /\
        hd_error types = Some (model_type (node_of model)) /\
        (length types <= 7)%nat /\
        (forall t, In t types ->
           exists model', In model' (primary (requirements (self m))) /\
                          t = model_type (node_of model'))
    else
      types = primary (requirements (self m)) /\
      best_single_model (self m') = best_single_model (self m).
Proof.
  intros H node_of.
  apply optimise_phases in H
    as (n & m1 & m2 & m3 & u & H1 & H2 & H3 & H4 & _ & _).
  apply optimise_setup_Done in H1 as (_ & Hc1 & _).
  assert (Hi := H2). apply evaluate_initial_Done in Hi
    as (pop & p0 & _ & _ & Hp0 & _).
  apply evaluate_initial_config in H2 as (Hg2 & Hpar2 & Hsingle).
  eapply generations_Done in H3; [| exact Hp0].
  destruct H3 as (_ & _ & Hc3 & _).
  apply update_archive_Done in H4 as (Hc4 & _). simpl in Hc4.
  unfold config in Hc1, Hc3, Hc4.
  injection Hc1 as Ec1 Er1 Ep1 Es1.
  injection Hc3 as Ec3 Er3 Ep3 Es3.
  injection Hc4 as Ec4 Er4 Ep4 Es4.
  rewrite Er1, Es1 in Hsingle.
  split; [congruence |]. split; [congruence |].
  destruct (add_single_model_chains (requirements (self m))).
  - destruct Hsingle as ([single types] & m0 & Hbest & Hs & Hr).
    simpl in Hs, Hr.
    apply best_single_models_spec in Hbest
      as (inds & m5 & model & _ & Hin & Hleast & Hmodel & Hnodes & Hhd
          & Hlen & Htypes).
    rewrite Er1, Ec1 in *.
    exists types. split; [congruence |].
    exists single, model.
    split; [congruence |].
    split.
    { destruct (Hleast single Hin) as (fb & _ & Hfb & _). congruence. }
    auto 10.
  - destruct Hsingle as (Hr & Hs).
    exists (primary (requirements (self m))).
    split; [rewrite set_primary_same; congruence |].
    split; [reflexivity | congruence].
Qed.

(** ** The stagnation counter *)

Lemma generations_counter (objective_function : Objective) (t : W)
    (n0 : Z) (count : nat) :
  forall (k : nat) (u : unit) (m m' : Machine),
    generations ops objective_function t n0 (map Z.of_nat (seq k count)) m
    = Done u m' ->
    (0 < count)%nat ->
    (k <> 0%nat ->
     exists v, num_of_gens_without_improvements (self m) = Some v /\
               (0 <= v < Z.of_nat k)%Z) ->
    exists v g,
      num_of_gens_without_improvements (self m') = Some v /\
      generation_num (self m') = Z.of_nat g /\
      (k <= g < k + count)%nat /\
      (0 <= v <= Z.of_nat g)%Z.
Proof.
  induction count as [| count IH]; intros k u m m' H Hpos Hpre; [lia |].
  simpl in H.
  apply bind_Done in H as (u1 & m1 & H1 & H). run_step H1.
  apply bind_Done in H as (reached & m1 & Hg & H).
  assert (Hd := Hg). apply generation_Done in Hd
    as (pop & best & size & elitism & new_population & next & w
        & archived & adjusted & _ & _ & _ & _ & _ & _ & _ & Hnum & _).
  apply generation_effects in Hg as (_ & (v & Hv & Hstep & _) & _ & _).
  simpl in Hnum, Hstep.
  assert (Hbound : (0 <= v <= Z.of_nat k)%Z).
  { destruct Hstep as [-> | (Hk & Hprev)]; [lia |].
    destruct Hpre as (v0 & Hv0 & Hr); [lia |].
    assert (v0 = (v - 1)%Z) by congruence. lia. }
  assert (Hhere : exists v g,
             num_of_gens_without_improvements (self m1) = Some v /\
             generation_num (self m1) = Z.of_nat g /\
             (k <= g < k + S count)%nat /\ (0 <= v <= Z.of_nat g)%Z).
  { exists v, k. repeat split; try assumption; lia. }
  destruct reached; [run_step H; exact Hhere |].
  destruct count as [| count'].
  - simpl in H. run_step H. exact Hhere.
  - apply IH in H; [| lia |].
    + destruct H as (v' & g & Hv' & Hgn & Hrange & Hle).
      exists v', g. repeat split; try assumption; lia.
    + intros _. exists v. split; [assumption | lia].
Qed.

(** X20. The stagnation counter of a run of two generations or more:
    when [optimise] returns, the counter is set, it is not negative and it
    does not exceed the number of the last generation run, which is below
    [num_of_generations - 1]. *)
Theorem stagnation_counter_bounded (fuel : nat)
    (objective_function : Objective) (offspring_rate : option Q)
    (r : Best Archive * OptimiserHistory Archive) (m m' : Machine) :
  (1 < num_of_generations (requirements (self m)))%Z ->
  optimise ops fuel objective_function offspring_rate m = Done r m' ->
  exists v,
    num_of_gens_without_improvements (self m') = Some v /\
    (0 <= v <= generation_num (self m'))%Z /\
    (generation_num (self m')
     < num_of_generations (requirements (self m)) - 1)%Z.
Proof.
  intros Hgens H.
  apply optimise_phases in H
    as (n & m1 & m2 & m3 & u & H1 & H2 & H3 & H4 & _ & _).
  apply optimise_setup_effects in H1 as (_ & _ & A3 & _).
  apply evaluate_initial_effects in H2 as (_ & _ & _ & B4 & _).
  rewrite B4, A3 in H3. unfold Zrange in H3.
  apply generations_counter in H3; [| lia | congruence].
  destruct H3 as (v & g & Hv & Hg & Hrange & Hle).
  apply update_archive_shape in H4. simpl in H4.
  assert (Hlast : num_of_gens_without_improvements (self m')
                  = num_of_gens_without_improvements (self m3) /\
                  generation_num (self m') = generation_num (self m3)).
  { destruct (archive (self m3)).
    - destruct H4 as (pop & _ & ->). simpl. auto.
    - subst m'. simpl. auto. }
  destruct Hlast as (-> & ->).
  exists v. rewrite Hg. split; [assumption |]. split; lia.
Qed.

End Configuration.

(* ================================================================== *)
(** * Further properties on the deterministic instance *)

Lemma get_best_individual_fitness_order_independent_witness :
  let l := [Sample.chain_of 3 (Some 1%Z); Sample.chain_of 1 (Some 2%Z);
            Sample.chain_of 2 (Some 1%Z)] in
  let l' := [Sample.chain_of 2 (Some 1%Z); Sample.chain_of 3 (Some 1%Z);
             Sample.chain_of 1 (Some 2%Z)] in
  Permutation l l' /\
  l <> [] /\
  (forall c, In c l -> fitness c <> None) /\
  exists b b',
    get_best_individual l l true = Ok b /\
    get_best_individual l' l' true = Ok b' /\
    fitness b = fitness b' /\
    (forall c, In c l -> not_worse (fitness b) (fitness c)).
Proof.
  intros l l'.
  assert (Hperm : Permutation l l').
  { apply Permutation_sym.
    exact (Permutation_cons_append
             [Sample.chain_of 3 (Some 1%Z); Sample.chain_of 1 (Some 2%Z)]
             (Sample.chain_of 2 (Some 1%Z))). }
  assert (Hne : l <> []) by discriminate.
  assert (Heval : forall c, In c l -> fitness c <> None).
  { intros c [<- | [<- | [<- | []]]]; discriminate. }
  split; [exact Hperm |]. split; [exact Hne |]. split; [exact Heval |].
  exact (get_best_individual_fitness_order_independent Hperm Hne Heval).
Defined.

Lemma offspring_size_bounds_witness :
  pop_size (requirements Sample.plain) = Some 4%Z /\
  (1 <= 4)%Z /\
  (4 < 2 ^ 53)%Z /\
  (0 <= 1 # 2 /\ 1 # 2 <= 1) /\
  exists n,
    offspring_size Sample.plain (Some (1 # 2)) = Ok n /\
    (0 <= n <= 4)%Z /\
    (genetic_scheme_type (parameters Sample.plain) = steady_state ->
     (1 <= n)%Z).
Proof.
  assert (Hrate : 0 <= 1 # 2 /\ 1 # 2 <= 1)
    by (split; unfold Qle; simpl; lia).
  split; [reflexivity |]. split; [lia |]. split; [lia |].
  split; [exact Hrate |].
  apply (offspring_size_bounds Sample.plain (Some (1 # 2)) (p := 4%Z));
    [reflexivity | lia | lia | exact Hrate].
Defined.

Lemma init_population_and_size_witness :
  let requirements_ := Sample.requirements_of None None 4 None false in
  let initial_chain := Some (single_chain (Sample.chain_of 2 None)) in
  exists s : Sample.optimiser,
    GPChainOptimiser_init initial_chain requirements_
      Sample.generation_params None None = Ok s /\
    exists p,
      pop_size (requirements s) = Some p /\
      p <> 0%Z /\
      (truthy (pop_size requirements_) = true ->
       pop_size requirements_ = Some p) /\
      (truthy (pop_size requirements_) = false -> p = 10%Z) /\
      population s = Some (repeat (Sample.chain_of 2 None) (Z.to_nat p)) /\
      individuals (history s) = [] /\
      archive_history (history s) = [].
Proof.
  intros requirements_ initial_chain.
  assert (H : exists s : Sample.optimiser,
             GPChainOptimiser_init initial_chain requirements_
               Sample.generation_params None None = Ok s)
    by (eexists; reflexivity).
  destruct H as (s & H). exists s. split; [exact H |].
  exact (init_population_and_size initial_chain requirements_
           Sample.generation_params None None H).
Defined.

Lemma make_population_size_and_validity_witness :
  exists pop m',
    make_population Sample.operators 10 3 (Sample.start Sample.unpopulated)
    = Done pop m' /\
    Z.of_nat (length pop) = Z.max 0 3 /\
    (forall c, In c pop -> constraint_function Sample.operators c = true) /\
    self m' = self (Sample.start Sample.unpopulated) /\
    trace m' = trace (Sample.start Sample.unpopulated).
Proof.
  assert (H : exists pop m',
             make_population Sample.operators 10 3
               (Sample.start Sample.unpopulated) = Done pop m')
    by (vm_compute; do 2 eexists; reflexivity).
  destruct H as (pop & m' & H). exists pop, m'. split; [exact H |].
  exact (make_population_size_and_validity Sample.operators 10 3
           (Sample.start Sample.unpopulated) H).
Defined.

Lemma make_population_returns_witness :
  (forall p r d w,
      constraint_function Sample.operators
        (fst (random_chain Sample.operators p r d w)) = true) /\
  (3 <= Z.of_nat 10)%Z /\
  exists pop m',
    make_population Sample.operators 10 3 (Sample.start Sample.unpopulated)
    = Done pop m' /\
    Z.of_nat (length pop) = Z.max 0 3.
Proof.
  assert (Hvalid : forall p r d w,
             constraint_function Sample.operators
               (fst (random_chain Sample.operators p r d w)) = true)
    by (intros; reflexivity).
  assert (Hfuel : (3 <= Z.of_nat 10)%Z) by (simpl; lia).
  split; [exact Hvalid |]. split; [exact Hfuel |].
  exact (make_population_returns Sample.operators 10
           (Sample.start Sample.unpopulated) Hvalid Hfuel).
Defined.

Lemma make_population_never_returns_witness :
  (forall p r d w,
      constraint_function Sample.rejecting
        (fst (random_chain Sample.rejecting p r d w)) = false) /\
  (0 < 3)%Z /\
  forall fuel : nat,
    make_population Sample.rejecting fuel 3 (Sample.start Sample.unpopulated)
    = OutOfFuel.
Proof.
  assert (Hinvalid : forall p r d w,
             constraint_function Sample.rejecting
               (fst (random_chain Sample.rejecting p r d w)) = false)
    by (intros; reflexivity).
  assert (Hsize : (0 < 3)%Z) by lia.
  split; [exact Hinvalid |]. split; [exact Hsize |].
  exact (make_population_never_returns Sample.rejecting
           (Sample.start Sample.unpopulated) Hinvalid Hsize).
Defined.

Lemma reproduction_completes_on_even_selection_witness :
  Nat.even (length Sample.four_chains) = true /\
  exists children m',
    reproduction_loop Sample.operators Sample.four_chains
      (py_range 0 (length Sample.four_chains) 2) []
      (Sample.start Sample.plain)
    = Done children m' /\
    self m' = self (Sample.start Sample.plain) /\
    trace m' = trace (Sample.start Sample.plain) /\
    ((forall ts a b p d w,
         length (fst (crossover Sample.operators ts a b p d w)) = 2%nat) ->
     length children = length Sample.four_chains).
Proof.
  split; [reflexivity |].
  exact (reproduction_completes_on_even_selection Sample.operators
           Sample.four_chains (Sample.start Sample.plain) eq_refl).
Defined.

Lemma best_single_models_least_witness :
  let m := Sample.start Sample.with_single_models in
  let node_of := primary_node_func (chain_generation_params (self m)) in
  exists best types m',
    best_single_models Sample.operators Sample.node_count m
    = Done (best, types) m' /\
    exists inds m1 model,
      single_models_loop Sample.operators Sample.node_count
        (primary (requirements (self m))) [] m = Done inds m1 /\
      In best inds /\
      (forall c, In c inds ->
         exists fb fc,
           fitness best = Some fb /\ fitness c = Some fc /\
           fit_leb fb fc = true) /\
      In model (primary (requirements (self m))) /\
      nodes best = [node_of model] /\
      hd_error types = Some (model_type (node_of model)) /\
      (length types <= 7)%nat /\
      (forall t, In t types ->
         exists model', In model' (primary (requirements (self m))) /\
                        t = model_type (node_of model')).
Proof.
  intros m node_of.
  assert (H : exists best types m',
             best_single_models Sample.operators Sample.node_count m
             = Done (best, types) m')
    by (vm_compute; do 3 eexists; reflexivity).
  destruct H as (best & types & m' & H). exists best, types, m'.
  split; [exact H |].
  exact (best_single_models_least Sample.operators Sample.node_count m H).
Defined.

Lemma best_single_models_without_candidates_witness :
  let m := Sample.start Sample.with_single_models in
  primary (requirements (self m)) = ["knn"%string; "logit"%string] /\
  (forall model w,
      In model (primary (requirements (self m))) ->
      fst (calculate_objective Sample.operators
             (mkChain
                [primary_node_func (chain_generation_params (self m)) model]
                None)
             Sample.needs_two_nodes
             (multi_objective (parameters (self m))) w)
      = None) /\
  exists m',
    best_single_models Sample.operators Sample.needs_two_nodes m
    = Fail IndexError m'.
Proof.
  intros m.
  assert (Hnone : forall model w,
             In model (primary (requirements (self m))) ->
             fst (calculate_objective Sample.operators
                    (mkChain
                       [primary_node_func (chain_generation_params (self m))
                          model]
                       None)
                    Sample.needs_two_nodes
                    (multi_objective (parameters (self m))) w)
             = None)
    by (intros model w _; reflexivity).
  split; [reflexivity |]. split; [exact Hnone |].
  exact (best_single_models_without_candidates Sample.operators
           Sample.needs_two_nodes m Hnone).
Defined.

Lemma max_depth_over_a_run_witness :
  let m := Sample.start Sample.deepening in
  exists r m',
    optimise Sample.operators 10 Sample.flat (Some (1 # 2)) m = Done r m' /\
    (max_depth (self m) <= max_depth (self m'))%Z /\
    (max_depth (self m')
     <= Z.max (max_depth (self m))
          (req_max_depth (requirements (self m))))%Z /\
    (with_auto_depth_configuration (parameters (self m)) = false ->
     max_depth (self m') = max_depth (self m)) /\
    generation_depth (self m') = generation_depth (self m).
Proof.
  intros m.
  assert (H : exists r m',
             optimise Sample.operators 10 Sample.flat (Some (1 # 2)) m
             = Done r m')
    by (vm_compute; do 2 eexists; reflexivity).
  destruct H as (r & m' & H). exists r, m'. split; [exact H |].
  exact (max_depth_over_a_run Sample.operators 10 Sample.flat
           (Some (1 # 2)) m H).
Defined.

Lemma recorded_populations_count_witness :
  let m := Sample.start Sample.plain in
  let planned :=
    Z.to_nat (num_of_generations (requirements (self m)) - 1) in
  exists r m',
    optimise Sample.operators 10 Sample.node_count (Some (1 # 2)) m
    = Done r m' /\
    (forall g, ~ In (BudgetCheck g true) (trace m')) /\
    length (individuals (snd r)) = 4%nat /\
    exists p0 pops events,
      individuals (snd r) = individuals (history (self m)) ++ p0 :: pops /\
      trace m' = trace m ++ events /\
      length pops = length (filter is_budget_check events) /\
      (length pops <= planned)%nat /\
      ((forall g, ~ In (BudgetCheck g true) events) ->
       length pops = planned) /\
      (forall g rest,
          filter is_budget_check events = BudgetCheck g true :: rest ->
          length pops = 1%nat /\ rest = []) /\
      ((num_of_generations (requirements (self m)) <= 1)%Z -> pops = []).
Proof.
  intros m planned.
  assert (H : exists r m',
             optimise Sample.operators 10 Sample.node_count (Some (1 # 2)) m
             = Done r m' /\
             (forall g, ~ In (BudgetCheck g true) (trace m')) /\
             length (individuals (snd r)) = 4%nat).
  { vm_compute. do 2 eexists. split; [reflexivity |].
    split; [| reflexivity].
    intros g H.
    repeat (destruct H as [H | H]; [discriminate H |]). exact H. }
  destruct H as (r & m' & H & Hnever & Hcount). exists r, m'.
  split; [exact H |]. split; [exact Hnever |]. split; [exact Hcount |].
  exact (recorded_populations_count Sample.operators 10 Sample.node_count
           (Some (1 # 2)) m H).
Defined.

(** The populations recorded and the checks of the time limit made by
    three runs of four individuals: without a limit over four
    generations, under a limit reached at the second check of six
    generations, and under a limit reached at the first check. *)
Example recorded_populations_of_three_runs :
  recorded_and_checked Sample.plain
  = Some (4%nat,
          [BudgetCheck 0 false; BudgetCheck 1 false; BudgetCheck 2 false]) /\
  recorded_and_checked Sample.hurried
  = Some (3%nat, [BudgetCheck 0 false; BudgetCheck 1 true]) /\
  recorded_and_checked Sample.pressed
  = Some (2%nat, [BudgetCheck 0 true]).
Proof. repeat split; vm_compute; reflexivity. Qed.

Lemma archive_snapshots_per_population_witness :
  let m := Sample.start Sample.archived in
  exists r m',
    optimise Sample.operators 10 Sample.node_count (Some (1 # 2)) m
    = Done r m' /\
    exists snaps last_snap,
      archive_history (snd r)
      = archive_history (history (self m)) ++ snaps ++ [last_snap] /\
      archive (self m') = Some last_snap /\
      length (individuals (snd r))
      = (length (individuals (history (self m)))
         + length (snaps ++ [last_snap]))%nat.
Proof.
  intros m.
  assert (H : exists r m',
             optimise Sample.operators 10 Sample.node_count (Some (1 # 2)) m
             = Done r m')
    by (vm_compute; do 2 eexists; reflexivity).
  destruct H as (r & m' & H). exists r, m'. split; [exact H |].
  exact (archive_snapshots_per_population Sample.operators 10
           Sample.node_count (Some (1 # 2)) m H).
Defined.

Lemma multi_objective_needs_archive_witness :
  let m := Sample.start Sample.pareto in
  population (self m) = Some Sample.four_chains /\
  pop_size (requirements (self m)) = Some 4%Z /\
  multi_objective (parameters (self m)) = true /\
  archive (self m) = None /\
  add_single_model_chains (requirements (self m)) = false /\
  exists m',
    optimise Sample.operators 10 Sample.node_count (Some (1 # 2)) m
    = Fail AttributeError m' /\
    trace m' = trace m ++ [EvaluateInitial; RecordHistory] /\
    length (individuals (history (self m')))
    = S (length (individuals (history (self m)))).
Proof.
  intros m.
  split; [reflexivity |]. split; [reflexivity |]. split; [reflexivity |].
  split; [reflexivity |]. split; [reflexivity |].
  exact (multi_objective_needs_archive Sample.operators 10 Sample.node_count
           (Some (1 # 2)) m (pop := Sample.four_chains) (p := 4%Z)
           eq_refl eq_refl eq_refl eq_refl eq_refl).
Defined.

Lemma result_not_worse_than_any_recorded_best_witness :
  let m := Sample.start Sample.plain in
  exists r m',
    multi_objective (parameters (self m)) = false /\
    pop_size (requirements (self m)) = Some 4%Z /\
    (1 < 4)%Z /\
    optimise Sample.operators 10 Sample.node_count (Some (1 # 2)) m
    = Done r m' /\
    exists result recorded,
      fst r = BestChain result /\
      individuals (snd r) = individuals (history (self m)) ++ recorded /\
      forall generation_n,
        In generation_n recorded ->
        exists best_n,
          get_best_individual generation_n generation_n true = Ok best_n /\
          not_worse (fitness result) (fitness best_n).
Proof.
  intros m.
  assert (H : exists r m',
             optimise Sample.operators 10 Sample.node_count (Some (1 # 2)) m
             = Done r m')
    by (vm_compute; do 2 eexists; reflexivity).
  destruct H as (r & m' & H). exists r, m'.
  assert (Hgt : (1 < 4)%Z) by lia.
  split; [reflexivity |]. split; [reflexivity |]. split; [exact Hgt |].
  split; [exact H |].
  exact (result_not_worse_than_any_recorded_best Sample.operators 10
           Sample.node_count (Some (1 # 2)) m (p := 4%Z)
           eq_refl eq_refl Hgt H).
Defined.

Lemma setup_generates_missing_population_witness :
  let m := Sample.start Sample.unpopulated in
  exists n m',
    optimise_setup Sample.operators 10 (Some (1 # 2)) m = Done n m' /\
    offspring_size (self m) (Some (1 # 2)) = Ok n /\
    exists pop p,
      pop_size (requirements (self m)) = Some p /\
      population (self m') = Some pop /\
      Z.of_nat (length pop) = Z.max 0 p /\
      (forall c, In c pop -> constraint_function Sample.operators c = true).
Proof.
  intros m.
  assert (H : exists n m',
             optimise_setup Sample.operators 10 (Some (1 # 2)) m = Done n m')
    by (vm_compute; do 2 eexists; reflexivity).
  destruct H as (n & m' & H). exists n, m'. split; [exact H |].
  exact (setup_generates_missing_population Sample.operators 10
           (Some (1 # 2)) m H).
Defined.

Lemma run_keeps_configuration_witness :
  let m := Sample.start Sample.with_single_models in
  let node_of := primary_node_func (chain_generation_params (self m)) in
  exists r m',
    optimise Sample.operators 10 Sample.node_count (Some (1 # 2)) m
    = Done r m' /\
    chain_generation_params (self m') = chain_generation_params (self m) /\
    parameters (self m') = parameters (self m) /\
    exists types,
      requirements (self m') = set_primary (requirements (self m)) types /\
      exists single model,
        best_single_model (self m') = Some single /\
        fitness single <> None /\
        In model (primary (requirements (self m))) /\
        nodes single = [node_of model] /\
        hd_error types = Some (model_type (node_of model)) /\
        (length types <= 7)%nat /\
        (forall t, In t types ->
           exists model', In model' (primary (requirements (self m))) /\
                          t = model_type (node_of model')).
Proof.
  intros m node_of.
  assert (H : exists r m',
             optimise Sample.operators 10 Sample.node_count (Some (1 # 2)) m
             = Done r m')
    by (vm_compute; do 2 eexists; reflexivity).
  destruct H as (r & m' & H). exists r, m'. split; [exact H |].
  exact (run_keeps_configuration Sample.operators 10 Sample.node_count
           (Some (1 # 2)) m H).
Defined.

Lemma stagnation_counter_bounded_witness :
  let m := Sample.start Sample.plain in
  exists r m',
    (1 < num_of_generations (requirements (self m)))%Z /\
    optimise Sample.operators 10 Sample.node_count (Some (1 # 2)) m
    = Done r m' /\
    exists v,
      num_of_gens_without_improvements (self m') = Some v /\
      (0 <= v <= generation_num (self m'))%Z /\
      (generation_num (self m')
       < num_of_generations (requirements (self m)) - 1)%Z.
Proof.
  intros m.
  assert (H : exists r m',
             optimise Sample.operators 10 Sample.node_count (Some (1 # 2)) m
             = Done r m')
    by (vm_compute; do 2 eexists; reflexivity).
  destruct H as (r & m' & H). exists r, m'.
  assert (Hgens : (1 < num_of_generations (requirements (self m)))%Z)
    by (vm_compute; reflexivity).
  split; [exact Hgens |]. split; [exact H |].
  exact (stagnation_counter_bounded Sample.operators 10 Sample.node_count
           (Some (1 # 2)) m Hgens H).
Defined.
